(** * react-native-animated-stopwatch-timer: the timing core

    A shallow embedding of the timing and animation-configuration code of
    the library:

    - [formatTimeWorklet] of [src/utils/performance.ts] and the [timeValues]
      memo of [src/useTimer.ts] (time decomposition),
    - [throttle] of [src/utils/throttle.ts],
    - the [useTimer] hook of [src/useTimer.ts] (the elapsed-time engine):
      first from one task of the host to the next, for a caller that
      passes one [onFinish] function and makes every call from a handler
      of its own (module [Timer]); then with its renders, its closures
      and its cleanup effect (module [Lifecycle]),
    - the [OptimizedTimer] class of [src/utils/performance.ts],
    - the [animationConfig] memo, the entering and exiting layout
      animations and the rendered text of [src/StopwatchTimer.tsx].

    Times are JavaScript numbers holding integral millisecond counts
    ([Date.now()] and differences of its values); they are modelled as [Z].
    Animation parameters are arbitrary JavaScript numbers, multiplied by
    the literals [0.7] and [0.5]; they are modelled as IEEE 754 binary64
    values ([PrimFloat.float]), the representation JavaScript itself uses. *)

From Stdlib Require Import ZArith Bool List Lia String Floats.
From Stdlib Require Import Arith Ascii DecimalString.
Import ListNotations.

Set Implicit Arguments.
Local Open Scope Z_scope.

(** ** JavaScript idioms used by the sources *)

Module JS.

(** [!x] for [x : number | null]: [null] and [0] are both falsy. *)
Definition falsy (x : option Z) : bool :=
  match x with
  | None => true
  | Some v => v =? 0
  end.

(** A [number | null] in arithmetic position: [null] converts to [0]. *)
Definition toNumber (x : option Z) : Z :=
  match x with
  | None => 0
  | Some v => v
  end.

(** [Math.floor(a / b)] on integral operands. *)
Definition floorDiv (a b : Z) : Z := a / b.

(** [a % b]: the remainder takes the sign of the dividend. *)
Definition rem (a b : Z) : Z := Z.rem a b.

(** [x !== null] *)
Definition notNull {T : Type} (x : option T) : bool :=
  match x with
  | None => false
  | Some _ => true
  end.

End JS.

(** ** Time decomposition *)

Module Format.

(** The object literal returned by [formatTimeWorklet]. *)
Record TimeFields : Type := mkTimeFields
  { tensOfMs : Z;
    lastDigit : Z;
    tens : Z;
    minutes : Z;
    hours : Z }.

(** [formatTimeWorklet(timeInMs, needHour)], performance.ts lines 20-34. *)
Definition formatTimeWorklet (timeInMs : Z) (needHour : bool) : TimeFields :=
  let countInSeconds := JS.floorDiv (Z.abs timeInMs) 1000 in
  {| tensOfMs := JS.rem (JS.floorDiv (Z.abs timeInMs) 10) 100;
     lastDigit := JS.rem countInSeconds 10;
     tens := JS.rem (JS.floorDiv countInSeconds 10) 6;
     minutes :=
       if needHour
       then JS.floorDiv (JS.rem countInSeconds 3600) 60
       else JS.floorDiv countInSeconds 60;
     hours := JS.floorDiv countInSeconds 3600 |}.

(** The minutes field reduced to the part not carried by [hours]: when
    hours are not displayed the field holds all the minutes, and the hour
    roll-up removes the multiples of sixty. *)
Definition minutesInHour (needHour : bool) (f : TimeFields) : Z :=
  if needHour then minutes f else minutes f mod 60.

(** The whole seconds a field record stands for. *)
Definition recompose (needHour : bool) (f : TimeFields) : Z :=
  hours f * 3600 + minutesInHour needHour f * 60 + tens f * 10 + lastDigit f.

End Format.

(** ** The throttle primitive *)

Module Throttle.

(** The [options] argument, [{ leading?: boolean; trailing?: boolean }]. *)
Record Options : Type := mkOptions
  { optLeading : option bool;
    optTrailing : option bool }.

(** [options = {}] *)
Definition noOptions : Options :=
  {| optLeading := None; optTrailing := None |}.

(** [const { leading = true, trailing = true } = options] *)
Definition leading (o : Options) : bool :=
  match optLeading o with
  | None => true
  | Some b => b
  end.

Definition trailing (o : Options) : bool :=
  match optTrailing o with
  | None => true
  | Some b => b
  end.

Section Instance.

(** [A] stands for [Parameters<T>], [R] for [ReturnType<T>]. *)
Variables A R : Type.
Variable func : A -> R.
Variable wait : Z.
Variable options : Options.

(** The closure handed to [setTimeout]: it runs [delay] milliseconds
    after it was scheduled and applies [func] to the [args] of the call
    of [throttled] that created it. *)
Record Pending : Type := mkPending
  { due : Z;
    capturedArgs : A }.

(** The variables closed over by [throttled], with the log of the
    applications of [func] (most recent first, each with the value of
    the clock when it ran).  A timer handle is never [0], so [!timeout]
    holds exactly when [timeout] is [null]. *)
Record State : Type := mkState
  { timeout : option Pending;
    previous : Z;
    result : option R;
    calls : list (Z * A) }.

(** [let timeout = null; let previous = 0; let result;] *)
Definition init : State :=
  {| timeout := None; previous := 0; result := None; calls := [] |}.

(** [func.apply(this, args)] at clock value [now]. *)
Definition apply (now : Z) (args : A) (st : State) : State :=
  {| timeout := timeout st;
     previous := previous st;
     result := Some (func args);
     calls := (now, args) :: calls st |}.

(** [throttled(...args)], throttle.ts lines 23-48, with [now] the value
    of [Date.now()].  [anchor] is [previous] after the first
    conditional (lines 26-28). *)
Definition anchor (now : Z) (st : State) : Z :=
  if (previous st =? 0) && negb (leading options)
  then now else previous st.

Definition throttled (now : Z) (args : A) (st : State) : State :=
  let previous1 := anchor now st in
  let remaining := wait - (now - previous1) in
  if (remaining <=? 0) || (remaining >? wait) then
    apply now args
      {| timeout := None;
         previous := now;
         result := result st;
         calls := calls st |}
  else if negb (JS.notNull (timeout st)) && trailing options then
    {| timeout := Some {| due := now + remaining; capturedArgs := args |};
       previous := previous1;
       result := result st;
       calls := calls st |}
  else
    {| timeout := timeout st;
       previous := previous1;
       result := result st;
       calls := calls st |}.

(** The body of the [setTimeout] callback (lines 41-43), run by the
    host at clock value [now] while the timer is still pending. *)
Definition timerCallback (now : Z) (st : State) : State :=
  match timeout st with
  | None => st
  | Some p =>
      apply now (capturedArgs p)
        {| timeout := None;
           previous := if negb (leading options) then 0 else now;
           result := result st;
           calls := calls st |}
  end.

(** The host's clock reaches [now]: a pending timer that is due runs,
    at its due time. *)
Definition advanceTo (now : Z) (st : State) : State :=
  match timeout st with
  | None => st
  | Some p => if due p <=? now then timerCallback (due p) st else st
  end.

(** [throttled.cancel()], lines 50-56. *)
Definition cancel (st : State) : State :=
  {| timeout := None;
     previous := 0;
     result := result st;
     calls := calls st |}.

(** What the host does to an instance. *)
Inductive Event : Type :=
| Call (now : Z) (args : A)
| Advance (now : Z)
| Cancel.

Definition step (st : State) (e : Event) : State :=
  match e with
  | Call now args => throttled now args st
  | Advance now => advanceTo now st
  | Cancel => cancel st
  end.

Definition run (evs : list Event) (st : State) : State :=
  fold_left step evs st.

(** The arguments [func] has been applied to, oldest first. *)
Definition appliedArgs (st : State) : list A :=
  rev (map snd (calls st)).

End Instance.

Arguments Call {A} now args.
Arguments Advance {A} now.
Arguments Cancel {A}.

End Throttle.

(** ** The elapsed-time engine: the [useTimer] hook

    Module [Timer] follows the hook from one task of the host to the
    next under two conditions on the caller.  The hook is given one
    [onFinish] function, the same at every render: the throttle of lines
    32-35 is then built once, and the cleanup of lines 38-45 runs at
    unmount only.  And every method is called from an event handler of
    its own: a render is then committed between two calls, and the
    closures [getSnapshot], [play] and [pause] read the value last
    stored.  Module [Lifecycle] below drops both conditions, and lemma
    [LifecycleFacts.run_tasks] shows that the two modules agree where
    the conditions hold. *)

Module Timer.

Inductive Mode : Type := Stopwatch | TimerMode.

Definition isTimer (m : Mode) : bool :=
  match m with
  | TimerMode => true
  | Stopwatch => false
  end.

(** The argument object of [useTimer], [onFinish] apart; an absent
    property is [None]. *)
Record Args : Type := mkArgs
  { argInitialTimeInMs : option Z;
    argMode : option Mode;
    argIntervalMs : option Z;
    argNeedHour : bool }.

(** The destructured parameters, defaults applied (lines 12-17),
    [onFinish] apart: what the hook is given as [onFinish] is
    [Lifecycle.OnFinish]. *)
Record Props : Type := mkProps
  { initialTimeInMs : Z;
    mode : Mode;
    intervalMs : Z;
    needHour : bool }.

Definition withDefault {T : Type} (d : T) (x : option T) : T :=
  match x with
  | None => d
  | Some v => v
  end.

Definition props (a : Args) : Props :=
  {| initialTimeInMs := withDefault 0 (argInitialTimeInMs a);
     mode := withDefault Stopwatch (argMode a);
     intervalMs := withDefault 16 (argIntervalMs a);
     needHour := argNeedHour a |}.

(** [throttle(onFinish, 100, { trailing: false })], line 33.  [onFinish]
    takes no argument and returns nothing; in this module it is one
    function, and the throttle is built once. *)
Definition onFinishWait : Z := 100.

Definition onFinishOptions : Throttle.Options :=
  {| Throttle.optLeading := None; Throttle.optTrailing := Some false |}.

Definition onFinish (_ : unit) : unit := tt.

Definition FinishState : Type := Throttle.State unit unit.

Definition throttledOnFinish (now : Z) (st : FinishState) : FinishState :=
  Throttle.throttled onFinish onFinishWait onFinishOptions now tt st.

(** The state cell, the three refs, the throttle instance of the
    completion callback, and the host's supply of timer handles. *)
Record State : Type := mkState
  { elapsedInMs : Z;
    startTime : option Z;
    pausedTime : option Z;
    intervalId : option positive;
    finish : FinishState;
    nextHandle : positive }.

Section Hook.

Variable p : Props.

(** [const direction = mode === 'timer' ? -1 : 1] *)
Definition direction : Z := if isTimer (mode p) then -1 else 1.

(** [getSnapshot], lines 54-56. *)
Definition getSnapshot (s : State) : Z :=
  Z.abs (initialTimeInMs p + elapsedInMs s * direction).

Definition setElapsedInMs (v : Z) (s : State) : State :=
  {| elapsedInMs := v;
     startTime := startTime s;
     pausedTime := pausedTime s;
     intervalId := intervalId s;
     finish := finish s;
     nextHandle := nextHandle s |}.

(** [play], lines 58-82: the part that runs synchronously. *)
Definition play (now : Z) (s : State) : State :=
  if JS.notNull (intervalId s) then s
  else if (elapsedInMs s =? initialTimeInMs p) && isTimer (mode p) then s
  else
    {| elapsedInMs := elapsedInMs s;
       startTime :=
         if JS.falsy (startTime s) then Some now else startTime s;
       pausedTime := pausedTime s;
       intervalId := Some (nextHandle s);
       finish := finish s;
       nextHandle := Pos.succ (nextHandle s) |}.

(** The callback given to [setInterval], lines 72-81. *)
Definition intervalCallback (now : Z) (s : State) : State :=
  if JS.falsy (pausedTime s) then
    setElapsedInMs (now - JS.toNumber (startTime s)) s
  else
    let elapsedSincePaused := now - JS.toNumber (pausedTime s) in
    {| elapsedInMs := elapsedInMs s;
       startTime := Some (JS.toNumber (startTime s) + elapsedSincePaused);
       pausedTime := None;
       intervalId := intervalId s;
       finish := finish s;
       nextHandle := nextHandle s |}.

(** [resetState], lines 84-88. *)
Definition resetState (s : State) : State :=
  {| elapsedInMs := 0;
     startTime := None;
     pausedTime := None;
     intervalId := intervalId s;
     finish := finish s;
     nextHandle := nextHandle s |}.

(** [removeInterval], lines 90-95. *)
Definition removeInterval (s : State) : State :=
  {| elapsedInMs := elapsedInMs s;
     startTime := startTime s;
     pausedTime := pausedTime s;
     intervalId := None;
     finish := finish s;
     nextHandle := nextHandle s |}.

(** The body of the completion effect, lines 97-104. *)
Definition finishEffect (now : Z) (s : State) : State :=
  if isTimer (mode p) && (elapsedInMs s >=? initialTimeInMs p) then
    let s1 := setElapsedInMs (initialTimeInMs p) (removeInterval s) in
    {| elapsedInMs := elapsedInMs s1;
       startTime := startTime s1;
       pausedTime := pausedTime s1;
       intervalId := intervalId s1;
       finish := throttledOnFinish now (finish s1);
       nextHandle := nextHandle s1 |}
  else s.

(** [pause], lines 106-112: the new state and the returned snapshot. *)
Definition pause (now : Z) (s : State) : State * Z :=
  let s1 := removeInterval s in
  let s2 :=
    if JS.falsy (pausedTime s1) && (elapsedInMs s1 >? 0) then
      {| elapsedInMs := elapsedInMs s1;
         startTime := startTime s1;
         pausedTime := Some now;
         intervalId := intervalId s1;
         finish := finish s1;
         nextHandle := nextHandle s1 |}
    else s1 in
  (s2, getSnapshot s2).

(** [reset], lines 114-117. *)
Definition reset (s : State) : State :=
  resetState (removeInterval s).

(** [timeValues], lines 120-136. *)
Record TimeValues : Type := mkTimeValues
  { fields : Format.TimeFields;
    minutestens : Z }.

Definition timeValues (s : State) : TimeValues :=
  let snapshot := Z.abs (initialTimeInMs p + elapsedInMs s * direction) in
  let countInSeconds := JS.floorDiv snapshot 1000 in
  {| fields :=
       {| Format.tensOfMs := JS.rem (JS.floorDiv snapshot 10) 100;
          Format.lastDigit := JS.rem countInSeconds 10;
          Format.tens := JS.rem (JS.floorDiv countInSeconds 10) 6;
          Format.minutes :=
            if needHour p
            then JS.floorDiv (JS.rem countInSeconds 3600) 60
            else JS.floorDiv countInSeconds 60;
          Format.hours := JS.floorDiv countInSeconds 3600 |};
     minutestens :=
       if needHour p
       then JS.floorDiv (JS.rem countInSeconds 3600) 60
       else JS.floorDiv countInSeconds 60 |}.

(** *** Rendering

    A state update with a new value re-renders the component, and the
    completion effect runs after every render in which one of its
    dependencies changed.  With the props fixed and [onFinish] one
    function, [elapsedInMs] is the only dependency that changes, and no
    cleanup runs.  [commit] runs the effect after a handler that started
    from the value [before]; the effect may itself store a new value,
    which renders once more.  The second run leaves the value alone
    (lemma [commit_settled] below), so the cascade ends there.  The
    renders triggered by one handler happen at one value of the
    clock. *)
Definition commit (now : Z) (before : Z) (s : State) : State :=
  if elapsedInMs s =? before then s
  else
    let s1 := finishEffect now s in
    if elapsedInMs s1 =? elapsedInMs s then s1 else finishEffect now s1.

(** [useState(0)], [useRef(null)] three times, a fresh throttle. *)
Definition initial : State :=
  {| elapsedInMs := 0;
     startTime := None;
     pausedTime := None;
     intervalId := None;
     finish := Throttle.init unit unit;
     nextHandle := 1%positive |}.

(** The first render: every effect runs once, in source order (the
    [reset()] of lines 47-51, then the completion effect), and a value
    stored by the completion effect renders again. *)
Definition mount (now : Z) : State :=
  let s1 := finishEffect now (reset initial) in
  if elapsedInMs s1 =? elapsedInMs initial then s1
  else finishEffect now s1.

(** What can happen to a mounted engine: a call of one of the methods
    it exposes, or the host firing the interval. *)
Inductive Event : Type :=
| Play (now : Z)
| Pause (now : Z)
| Reset (now : Z)
| Tick (now : Z).

(** An interval callback only runs while its interval is installed. *)
Definition handle (e : Event) (s : State) : State :=
  match e with
  | Play now => play now s
  | Pause now => fst (pause now s)
  | Reset _ => reset s
  | Tick now =>
      if JS.notNull (intervalId s) then intervalCallback now s else s
  end.

Definition isReset (e : Event) : bool :=
  match e with
  | Reset _ => true
  | _ => false
  end.

Definition clock (e : Event) : Z :=
  match e with
  | Play now | Pause now | Reset now | Tick now => now
  end.

(** One task of the host: a handler that makes one call, or a firing of
    the interval, and the renders it causes.  The next call finds
    everything rendered. *)
Definition step (s : State) (e : Event) : State :=
  commit (clock e) (elapsedInMs s) (handle e s).

Definition run (evs : list Event) (s : State) : State :=
  fold_left step evs s.

(** The state a timer ends in: the interval is gone and the stored
    value equals the initial time. *)
Definition finished (s : State) : Prop :=
  intervalId s = None /\ elapsedInMs s = initialTimeInMs p.

(** The number of times [onFinish] itself has run. *)
Definition finishCount (s : State) : nat :=
  List.length (Throttle.calls (finish s)).

(** The host fires an interval that stays installed every [intervalMs]
    milliseconds, counted from its installation at [start]: [count]
    firings in a row, and the firings that fall in the [duration] that
    follows [start].  (When the cleanup of lines 38-45 has cleared the
    interval, [Lifecycle.step] leaves such firings out.) *)
Fixpoint ticksFrom (start : Z) (count : nat) : list Event :=
  match count with
  | O => []
  | S n => Tick (start + intervalMs p) :: ticksFrom (start + intervalMs p) n
  end.

Definition advance (start duration : Z) : list Event :=
  ticksFrom start (Z.to_nat (duration / intervalMs p)).

End Hook.

End Timer.

(** ** Animation configuration: the [animationConfig] memo *)

Module Animation.

Local Open Scope float_scope.
Local Open Scope string_scope.

(* The decimal literals of the source are read as JavaScript reads them:
   rounded to the nearest binary64 value. *)
Local Set Warnings "-inexact-float".

Record SpringPreset : Type := mkSpringPreset
  { damping : float;
    stiffness : float;
    mass : float }.

(** [ANIMATION_PRESETS], StopwatchTimer.tsx lines 26-42. *)
Definition ANIMATION_PRESETS : list (string * SpringPreset) :=
  [ ("smooth", {| damping := 20; stiffness := 200; mass := 0.8 |});
    ("bouncy", {| damping := 8; stiffness := 100; mass := 1 |});
    ("quick", {| damping := 15; stiffness := 300; mass := 0.6 |}) ].

(** [obj[key]] on an object literal: the value of the property named
    [key], [undefined] ([None]) when there is none. *)
Fixpoint property {T : Type} (obj : list (string * T)) (key : string)
  : option T :=
  match obj with
  | [] => None
  | (k, v) :: rest => if String.eqb k key then Some v else property rest key
  end.

(** [array.includes(x)] on strings. *)
Definition includes (array : list string) (x : string) : bool :=
  existsb (String.eqb x) array.

(** The animation props of the component, defaults applied (lines
    150-155).  The two string-valued props are kept as strings: the type
    annotations do not exist at run time. *)
Record Props : Type := mkProps
  { animationDelay : float;
    animationDistance : float;
    animationDuration : float;
    animationPreset : string;
    useSpringAnimation : bool;
    performanceMode : string }.

Definition DEFAULT_ANIMATION_DELAY : float := 0.
Definition DEFAULT_ANIMATION_DISTANCE : float := 80.
Definition DEFAULT_ANIMATION_DURATION : float := 200.

Record BaseConfig : Type := mkBaseConfig
  { duration : float;
    delay : float;
    distance : float }.

(** The object returned by the memo: [baseConfig] spread, the preset
    spread on top of it in the spring variant only, and the flag. *)
Record Config : Type := mkConfig
  { base : BaseConfig;
    spring : option SpringPreset;
    configUseSpringAnimation : bool }.

Definition validPresets : list string := ["smooth"; "bouncy"; "quick"].

Section Memo.

Variable pr : Props.

(** Lines 213-216. *)
Definition selectedPreset : string :=
  if includes validPresets (animationPreset pr)
  then animationPreset pr
  else "smooth".

(** Line 217. *)
Definition preset : option SpringPreset :=
  property ANIMATION_PRESETS selectedPreset.

(** Lines 219-229. *)
Definition baseConfig : BaseConfig :=
  {| duration :=
       if String.eqb (performanceMode pr) "performance"
       then animationDuration pr * 0.7
       else animationDuration pr;
     delay :=
       if String.eqb (performanceMode pr) "performance"
       then animationDelay pr * 0.5
       else animationDelay pr;
     distance := animationDistance pr |}.

(** Lines 232-234. *)
Definition animationConfig : Config :=
  if useSpringAnimation pr
  then {| base := baseConfig;
          spring := preset;
          configUseSpringAnimation := true |}
  else {| base := baseConfig;
          spring := None;
          configUseSpringAnimation := false |}.

(** The curve a digit is animated with: [withSpring] with the three
    constants, or [withTiming] with the duration; both wrapped in
    [withDelay(animationConfig.delay, _)]. *)
Inductive Curve : Type :=
| WithSpring (damping stiffness mass : float)
| WithTiming (duration : float).

(** The choice made alike by the entering and the exiting animation
    (lines 264-283 and 304-331): [useSpringAnimation && 'damping' in
    animationConfig]. *)
Definition digitCurve : Curve :=
  match useSpringAnimation pr, spring animationConfig with
  | true, Some sp => WithSpring (damping sp) (stiffness sp) (mass sp)
  | _, _ => WithTiming (duration (base animationConfig))
  end.

Definition digitDelay : float := delay (base animationConfig).

End Memo.

(** The preset named ['smooth']. *)
Definition smooth : SpringPreset :=
  {| damping := 20; stiffness := 200; mass := 0.8 |}.

End Animation.

(** ** Concrete configurations and runs

    The configurations are those of [useTimer({ ..., onFinish })],
    [onFinish] apart.  The runs of this module are runs of module
    [Timer]: the hook is given one [onFinish] function and every call
    has a handler of its own.  Module [Session] has runs of module
    [Lifecycle]. *)

Module Scenario.

Import Timer.

(** [useTimer({ mode: 'timer', initialTimeInMs: 5000, needHour: false,
    onFinish })] *)
Definition timer5000 : Props :=
  props {| argInitialTimeInMs := Some 5000;
           argMode := Some TimerMode;
           argIntervalMs := None;
           argNeedHour := false |}.

(** [useTimer({ mode: 'timer', needHour: false, onFinish })]: no initial
    time. *)
Definition timerNoInitialTime : Props :=
  props {| argInitialTimeInMs := None;
           argMode := Some TimerMode;
           argIntervalMs := None;
           argNeedHour := false |}.

(** [useTimer({ needHour: false, onFinish })]: a stopwatch sampled every
    16 ms. *)
Definition stopwatch : Props :=
  props {| argInitialTimeInMs := None;
           argMode := None;
           argIntervalMs := None;
           argNeedHour := false |}.

(** [useTimer({ initialTimeInMs: 5000, needHour: false, onFinish })] *)
Definition stopwatchFrom5000 : Props :=
  props {| argInitialTimeInMs := Some 5000;
           argMode := None;
           argIntervalMs := None;
           argNeedHour := false |}.

(** The value of the clock when the component mounts in the runs below. *)
Definition t0 : Z := 1000000.

(** A timer of five seconds, played at mount and sampled for 5000 ms:
    312 ticks, the last one 4992 ms after the start. *)
Definition almostDone : State :=
  run timer5000 (Play t0 :: advance timer5000 t0 5000)
    (mount timer5000 t0).

(** The next tick, 5008 ms after the start, passes the five seconds;
    later ticks of the host, and calls of [play] and [pause], follow. *)
Definition done : State := step timer5000 almostDone (Tick (t0 + 5008)).

Definition afterwards : list Event :=
  [Tick (t0 + 5024); Play (t0 + 6000); Tick (t0 + 6016);
   Pause (t0 + 7000); Play (t0 + 8000); Tick (t0 + 8016)].

(** A stopwatch played at mount and sampled for 1000 ms. *)
Definition running : State :=
  run stopwatch (Play t0 :: advance stopwatch t0 1000) (mount stopwatch t0).

(** [play()]; 1000 ms pass; [pause()]. *)
Definition firstLeg (p : Props) (start : Z) : list Event :=
  Play start :: advance p start 1000 ++ [Pause (start + 1000)].

(** ... 2000 ms pass while paused; [play()]: the state in which the
    interval is installed again. *)
Definition resume (start : Z) : list Event :=
  [Play (start + 3000)].

(** ... 500 ms pass; [pause()]. *)
Definition secondLeg (p : Props) (start : Z) : list Event :=
  advance p (start + 3000) 500 ++ [Pause (start + 3500)].

Definition pauseResume (p : Props) (start : Z) : list Event :=
  firstLeg p start ++ resume start ++ secondLeg p start.

(** The default stopwatch just after the second [play()]. *)
Definition resumed : State :=
  run stopwatch (firstLeg stopwatch t0 ++ resume t0) (mount stopwatch t0).

(** [throttle(f, 100)] with [f] the identity on strings, called with
    ["a"] at 1000 (the leading call), with ["b"] at 1010 and with ["c"]
    at 1020, the clock then reaching the end of the window. *)
Definition echo (x : string) : string := x.

Definition threeCalls : list (Throttle.Event string) :=
  [ Throttle.Call 1000 "a"%string;
    Throttle.Call 1010 "b"%string;
    Throttle.Call 1020 "c"%string;
    Throttle.Advance 1100 ].

Definition afterThreeCalls : Throttle.State string string :=
  Throttle.run echo 100 Throttle.noOptions threeCalls
    (Throttle.init string string).

(** A throttle of [onFinish] with both invocations disabled:
    [throttle(onFinish, 100, { leading: false, trailing: false })]. *)
Definition bothDisabled : Throttle.Options :=
  {| Throttle.optLeading := Some false; Throttle.optTrailing := Some false |}.

End Scenario.

(** ** Runs read off a clock *)

Module Clock.

Import Timer.

(** The events of a run read a clock that does not run backwards: each
    reads a value at least as large as the one before, the first one at
    least [since]. *)
Fixpoint ordered (since : Z) (evs : list Event) : bool :=
  match evs with
  | [] => true
  | e :: rest => (since <=? clock e) && ordered (clock e) rest
  end.

(** The value of the clock after the events. *)
Definition lastClock (since : Z) (evs : list Event) : Z :=
  fold_left (fun _ e => clock e) evs since.

(** No event is a call of [reset]. *)
Definition resetFree (evs : list Event) : bool :=
  forallb (fun e => negb (isReset e)) evs.

(** A timer is within its initial time, and stopped when it is at it. *)
Definition clamped (p : Props) (s : State) : Prop :=
  elapsedInMs s <= initialTimeInMs p
  /\ (elapsedInMs s = initialTimeInMs p -> intervalId s = None).

(** The time references of an engine mounted at [since], seen when the
    clock reads [clk]: the start reference was taken after the mount, a
    recorded pause after the start, and the stored value is at most the
    time from the start reference to the pause, or to now. *)
Definition anchored (since clk : Z) (s : State) : Prop :=
  match startTime s with
  | None =>
      since <= clk
      /\ elapsedInMs s <= 0 /\ pausedTime s = None /\ intervalId s = None
  | Some st =>
      since <= st <= clk
      /\ match pausedTime s with
         | None => elapsedInMs s <= clk - st
         | Some pa => st <= pa <= clk /\ elapsedInMs s <= pa - st
         end
  end.

End Clock.

(** ** Renders, closures and the cleanup effect

    Module [Timer] above follows the hook from one task of the host to
    the next under two conditions on the caller: the hook is given one
    [onFinish] function, the same at every render, and every method is
    called from an event handler of its own.  This module drops both.
    It follows what a render does: the [useCallback] closures
    [getSnapshot], [play] and [pause] take the value of [elapsedInMs] at
    that render and keep it until the next one; the throttle of lines
    32-35 is rebuilt when [onFinish] is a new function, and the cleanup
    of lines 38-45 then runs for the render that is replaced. *)

Module Lifecycle.

Import Timer.

(** What the hook is given as [onFinish] (line 14): one function, the
    same at every render, or a new function at every render.  The
    second is the case when [onFinish] is left out, for the default
    [() => null] is evaluated by each call of the hook, and the case of
    a caller that builds the callback anew whenever the component
    renders. *)
Inductive OnFinish : Type := SameFunction | NewFunctionEachRender.

Definition isSame (f : OnFinish) : bool :=
  match f with
  | SameFunction => true
  | NewFunctionEachRender => false
  end.

(** The hook between two tasks of the host.  [cell] holds the state
    cell (the value last given to [setElapsedInMs]), the three refs and
    the throttle built by the last render; [rendered] is the
    [elapsedInMs] of the last committed render, the value which the
    closures and the effects of that render read; [installed] is the
    interval the host holds for the hook, which [clearInterval] removes
    whatever the ref says.  The host never holds two: an interval is
    installed only when the ref is [null], and the ref is set to [null]
    only where its interval is cleared (lemma
    [LifecycleFacts.tracked_run]). *)
Record State : Type := mkState
  { cell : Timer.State;
    rendered : Z;
    installed : option positive }.

(** The host holds no interval for the hook, or the one the ref
    names. *)
Definition tracked (h : State) : Prop :=
  installed h = None \/ installed h = intervalId (cell h).

(** Two states of module [Timer] with the same state cell and the same
    refs: they may differ in the throttle and in the supply of timer
    handles. *)
Definition sameRefs (a b : Timer.State) : Prop :=
  elapsedInMs a = elapsedInMs b
  /\ startTime a = startTime b
  /\ pausedTime a = pausedTime b
  /\ intervalId a = intervalId b.

(** [clearInterval(id)] at the host. *)
Definition clearInterval (id : positive) (held : option positive)
  : option positive :=
  match held with
  | Some h => if Pos.eqb h id then None else Some h
  | None => None
  end.

Section Hook.

Variable p : Props.
Variable f : OnFinish.

(** [getSnapshot], lines 54-56, closed over the rendered value. *)
Definition getSnapshot (h : State) : Z :=
  Z.abs (initialTimeInMs p + rendered h * direction p).

(** [removeInterval], lines 90-95. *)
Definition removeInterval (h : State) : State :=
  match intervalId (cell h) with
  | Some id =>
      {| cell := Timer.removeInterval (cell h);
         rendered := rendered h;
         installed := clearInterval id (installed h) |}
  | None => h
  end.

(** [play], lines 58-82; line 64 compares the rendered value. *)
Definition play (now : Z) (h : State) : State :=
  if JS.notNull (intervalId (cell h)) then h
  else if (rendered h =? initialTimeInMs p) && isTimer (mode p) then h
  else
    {| cell :=
         {| elapsedInMs := elapsedInMs (cell h);
            startTime :=
              if JS.falsy (startTime (cell h)) then Some now
              else startTime (cell h);
            pausedTime := pausedTime (cell h);
            intervalId := Some (nextHandle (cell h));
            finish := finish (cell h);
            nextHandle := Pos.succ (nextHandle (cell h)) |};
       rendered := rendered h;
       installed := Some (nextHandle (cell h)) |}.

(** [pause], lines 106-112; line 108 tests the rendered value, and the
    number returned is the [getSnapshot()] of the same render. *)
Definition pause (now : Z) (h : State) : State * Z :=
  let h1 := removeInterval h in
  let h2 :=
    if JS.falsy (pausedTime (cell h1)) && (rendered h1 >? 0) then
      {| cell :=
           {| elapsedInMs := elapsedInMs (cell h1);
              startTime := startTime (cell h1);
              pausedTime := Some now;
              intervalId := intervalId (cell h1);
              finish := finish (cell h1);
              nextHandle := nextHandle (cell h1) |};
         rendered := rendered h1;
         installed := installed h1 |}
    else h1 in
  (h2, getSnapshot h2).

(** [reset], lines 114-117: the new value waits in the state cell for
    the next render. *)
Definition reset (h : State) : State :=
  let h1 := removeInterval h in
  {| cell := Timer.resetState (cell h1);
     rendered := rendered h1;
     installed := installed h1 |}.

(** The interval callback, lines 72-81, reads and writes the refs and
    the state cell only. *)
Definition intervalCallback (now : Z) (h : State) : State :=
  {| cell := Timer.intervalCallback now (cell h);
     rendered := rendered h;
     installed := installed h |}.

(** The completion effect, lines 97-104, of the render that is being
    committed. *)
Definition finishEffect (now : Z) (h : State) : State :=
  if isTimer (mode p) && (rendered h >=? initialTimeInMs p) then
    let h1 := removeInterval h in
    {| cell :=
         {| elapsedInMs := initialTimeInMs p;
            startTime := startTime (cell h1);
            pausedTime := pausedTime (cell h1);
            intervalId := intervalId (cell h1);
            finish := throttledOnFinish now (finish (cell h1));
            nextHandle := nextHandle (cell h1) |};
       rendered := rendered h1;
       installed := installed h1 |}
  else h.

(** [useMemo(() => throttle(onFinish, 100, { trailing: false }),
    [onFinish])], lines 32-35, in a render that is given a new [onFinish]:
    a new throttle, with no timer and [previous = 0].  The log records
    the applications of the completion callback, whichever throttle made
    them, and goes on. *)
Definition rebuilt (st : FinishState) : FinishState :=
  {| Throttle.timeout := None;
     Throttle.previous := 0;
     Throttle.result := None;
     Throttle.calls := Throttle.calls st |}.

(** The render that is given a new [onFinish] holds the new throttle. *)
Definition rebuild (h : State) : State :=
  {| cell :=
       {| elapsedInMs := elapsedInMs (cell h);
          startTime := startTime (cell h);
          pausedTime := pausedTime (cell h);
          intervalId := intervalId (cell h);
          finish := rebuilt (finish (cell h));
          nextHandle := nextHandle (cell h) |};
     rendered := rendered h;
     installed := installed h |}.

(** The cleanup of lines 38-45, which React runs for the render that is
    replaced when [throttledOnFinish] is a new one, before the effects
    of the new render: the interval named by the ref is cleared at the
    host and the ref is left as it is.  [cancel()] is called on the
    throttle that was replaced, which nothing calls again. *)
Definition cleanup (h : State) : State :=
  {| cell := cell h;
     rendered := rendered h;
     installed :=
       match intervalId (cell h) with
       | Some id => clearInterval id (installed h)
       | None => installed h
       end |}.

(** One render after the first: the closures take the value of the
    state cell; with a new [onFinish] the throttle is rebuilt and the
    cleanup runs; then the completion effect runs, one of its
    dependencies ([elapsedInMs], [throttledOnFinish]) having changed. *)
Definition render (now : Z) (h : State) : State :=
  let h1 :=
    {| cell := cell h;
       rendered := elapsedInMs (cell h);
       installed := installed h |} in
  finishEffect now (if isSame f then h1 else cleanup (rebuild h1)).

(** React renders again when the state cell holds another value than
    the rendered one.  The completion effect may store such a value;
    the render that follows stores the same value again (lemma
    [LifecycleFacts.commit_rendered]), so two renders are the most one
    task causes.  They happen at one value of the clock. *)
Definition commit (now : Z) (h : State) : State :=
  if elapsedInMs (cell h) =? rendered h then h
  else
    let h1 := render now h in
    if elapsedInMs (cell h1) =? rendered h1 then h1 else render now h1.

(** The first render: [useState(0)], the refs at [null], the first
    throttle, no interval; then the effects in source order, the
    [reset()] of lines 47-51 and the completion effect. *)
Definition mount (now : Z) : State :=
  let h0 :=
    {| cell := Timer.initial; rendered := 0; installed := None |} in
  let h1 := finishEffect now (reset h0) in
  if elapsedInMs (cell h1) =? rendered h1 then h1 else render now h1.

(** The methods of the imperative handle. *)
Inductive Call : Type := CallPlay | CallPause | CallReset | CallGetSnapshot.

(** One call at [now], given the state and the numbers returned so far;
    [pause] and [getSnapshot] return a number. *)
Definition perform (now : Z) (acc : State * list Z) (c : Call)
  : State * list Z :=
  match c with
  | CallPlay => (play now (fst acc), snd acc)
  | CallPause =>
      (fst (pause now (fst acc)), snd acc ++ [snd (pause now (fst acc))])
  | CallReset => (reset (fst acc), snd acc)
  | CallGetSnapshot => (fst acc, snd acc ++ [getSnapshot (fst acc)])
  end.

(** A task of the host: an event handler that makes some calls in a
    row, no render being committed before it returns, or a firing of
    the interval. *)
Inductive Event : Type :=
| Handler (now : Z) (calls : list Call)
| Fire (now : Z).

(** The task, then the renders it causes, and the numbers returned to
    the handler.  A firing runs the callback only if the host still
    holds the interval. *)
Definition step (h : State) (e : Event) : State * list Z :=
  match e with
  | Handler now calls =>
      (commit now (fst (fold_left (perform now) calls (h, []))),
       snd (fold_left (perform now) calls (h, [])))
  | Fire now =>
      match installed h with
      | Some _ => (commit now (intervalCallback now h), [])
      | None => (h, [])
      end
  end.

Definition run (evs : list Event) (h : State) : State * list Z :=
  fold_left
    (fun acc e => (fst (step (fst acc) e), snd acc ++ snd (step (fst acc) e)))
    evs (h, []).

(** The state after the tasks, and the numbers they returned. *)
Definition after (evs : list Event) (h : State) : State := fst (run evs h).

Definition returned (evs : list Event) (h : State) : list Z :=
  snd (run evs h).

(** An event of module [Timer] as a task: each call in a handler of its
    own. *)
Definition task (e : Timer.Event) : Event :=
  match e with
  | Play now => Handler now [CallPlay]
  | Pause now => Handler now [CallPause]
  | Reset now => Handler now [CallReset]
  | Tick now => Fire now
  end.

(** The numbers the calls of [pause] return in a run of module
    [Timer]. *)
Fixpoint answers (evs : list Timer.Event) (s : Timer.State) : list Z :=
  match evs with
  | [] => []
  | e :: rest =>
      match e with
      | Pause now => [snd (Timer.pause p now s)]
      | _ => []
      end ++ answers rest (Timer.step p s e)
  end.

(** A state of module [Timer] as a state between tasks: everything
    rendered, and the interval of the ref installed. *)
Definition settled (s : Timer.State) : State :=
  {| cell := s; rendered := elapsedInMs s; installed := intervalId s |}.

End Hook.

End Lifecycle.

(** ** Concrete sessions of a mounted hook *)

Module Session.

Import Timer Scenario.

(** The five-second timer, given one [onFinish] function: [play()] at
    mount, the interval firing every 16 ms up to the firing 5008 ms
    after the start. *)
Definition countdown : list Lifecycle.Event :=
  map Lifecycle.task
    (Play t0 :: advance timer5000 t0 5000 ++ [Tick (t0 + 5008)]).

Definition finishedTimer : Lifecycle.State :=
  Lifecycle.after timer5000 Lifecycle.SameFunction countdown
    (Lifecycle.mount timer5000 Lifecycle.SameFunction t0).

(** What the host and the caller may do next, each call in a handler of
    its own. *)
Definition later : list Lifecycle.Event := map Lifecycle.task afterwards.

(** The default stopwatch, played at mount, one second on. *)
Definition oneSecond (f : Lifecycle.OnFinish) : Lifecycle.State :=
  Lifecycle.after stopwatch f
    (map Lifecycle.task (Play t0 :: advance stopwatch t0 1000))
    (Lifecycle.mount stopwatch f t0).

(** [play()]; 1000 ms; [pause()]; 2000 ms; [play()]; 500 ms; [pause()]:
    every call in a handler of its own, the host firing the interval
    every [intervalMs] while it holds one. *)
Definition pauseResume (p : Props) (t : Z) : list Lifecycle.Event :=
  map Lifecycle.task (Scenario.pauseResume p t).

(** The default stopwatch just after the second [play()]. *)
Definition resumed (f : Lifecycle.OnFinish) : Lifecycle.State :=
  Lifecycle.after stopwatch f
    (map Lifecycle.task (firstLeg stopwatch t0 ++ resume t0))
    (Lifecycle.mount stopwatch f t0).

(** One handler that calls [reset()] and then [pause()]; [play()] two
    seconds later, and a first firing. *)
Definition resetAndPause : list Lifecycle.Event :=
  [ Lifecycle.Handler (t0 + 1000) [Lifecycle.CallReset; Lifecycle.CallPause];
    Lifecycle.Handler (t0 + 3000) [Lifecycle.CallPlay];
    Lifecycle.Fire (t0 + 3016) ].

End Session.

(** ** Runs of a throttled function *)

Module ThrottleRuns.

Import Throttle.

Section Instance.

Variable A : Type.

(** The events read a clock that does not run backwards, from [since]
    on; [cancel] reads no clock. *)
Fixpoint ordered (since : Z) (evs : list (Event A)) : bool :=
  match evs with
  | [] => true
  | Call now _ :: rest => (since <=? now) && ordered now rest
  | Advance now :: rest => (since <=? now) && ordered now rest
  | Cancel :: rest => ordered since rest
  end.

Definition isCancel (e : Event A) : bool :=
  match e with
  | Cancel => true
  | _ => false
  end.

Definition cancelFree (evs : list (Event A)) : bool :=
  forallb (fun e => negb (isCancel e)) evs.

(** The value of the clock after the events. *)
Definition lastClock (since : Z) (evs : list (Event A)) : Z :=
  fold_left
    (fun clk e =>
       match e with
       | Call now _ => now
       | Advance now => now
       | Cancel => clk
       end)
    evs since.

(** Two applications that follow each other in a log (most recent first)
    are at least [wait] apart. *)
Fixpoint spaced (wait : Z) (log : list (Z * A)) : Prop :=
  match log with
  | [] => True
  | (t1, _) :: rest =>
      match rest with
      | [] => True
      | (t2, _) :: _ => t2 + wait <= t1
      end
      /\ spaced wait rest
  end.

Variable R : Type.
Variable wait : Z.
Variable options : Options.

(** What holds of an instance when the clock reads [clk], as long as it
    is not cancelled: the window is anchored in the past, the last
    application is not later than the anchor (or the anchor was cleared
    by a trailing application, leading invocation being disabled), and a
    pending timer is due at the end of the window, in the future. *)
Definition wellTimed (clk : Z) (st : State A R) : Prop :=
  0 <= previous st <= clk
  /\ spaced wait (calls st)
  /\ (forall t a rest,
         calls st = (t, a) :: rest ->
         t <= clk
         /\ (t <= previous st \/ (previous st = 0 /\ leading options = false)))
  /\ (forall q,
         timeout st = Some q ->
         due q = previous st + wait
         /\ clk < due q
         /\ (previous st <> 0 \/ leading options = true)).

End Instance.

End ThrottleRuns.

(** ** The shared interval: [OptimizedTimer] *)

Module OptimizedTimer.

(** A callback is known by its identity, as members of a [Set] are. *)
Definition Callback : Type := nat.

(** [Set.prototype.add]: a new member goes last, a present one stays
    where it is. *)
Definition setAdd (c : Callback) (members : list Callback) : list Callback :=
  if existsb (Nat.eqb c) members then members else members ++ [c].

(** [Set.prototype.delete] *)
Definition setDelete (c : Callback) (members : list Callback)
  : list Callback :=
  filter (fun m => negb (Nat.eqb c m)) members.

(** An interval installed with [setInterval]: its handle and its delay. *)
Record Interval : Type := mkInterval
  { handle : positive;
    delay : Z }.

(** The three fields of an instance, and the host's supply of handles. *)
Record State : Type := mkState
  { intervalId : option Interval;
    callbacks : list Callback;
    isRunning : bool;
    nextHandle : positive }.

(** [new OptimizedTimer()] *)
Definition fresh : State :=
  {| intervalId := None;
     callbacks := [];
     isRunning := false;
     nextHandle := 1%positive |}.

(** [start(intervalMs = 16)], performance.ts lines 109-125. *)
Definition start (intervalMs : option Z) (st : State) : State :=
  if isRunning st then st
  else
    {| intervalId :=
         Some {| handle := nextHandle st;
                 delay := match intervalMs with
                          | None => 16
                          | Some ms => ms
                          end |};
       callbacks := callbacks st;
       isRunning := true;
       nextHandle := Pos.succ (nextHandle st) |}.

(** [stop()], lines 130-136. *)
Definition stop (st : State) : State :=
  {| intervalId := None;
     callbacks := callbacks st;
     isRunning := false;
     nextHandle := nextHandle st |}.

(** [addCallback(callback)], lines 90-104: the new state; the function it
    returns is [removeCallback callback]. *)
Definition addCallback (c : Callback) (st : State) : State :=
  let st1 :=
    {| intervalId := intervalId st;
       callbacks := setAdd c (callbacks st);
       isRunning := isRunning st;
       nextHandle := nextHandle st |} in
  if negb (isRunning st1) then start None st1 else st1.

(** The cleanup function returned by [addCallback(callback)], lines
    99-103. *)
Definition removeCallback (c : Callback) (st : State) : State :=
  let st1 :=
    {| intervalId := intervalId st;
       callbacks := setDelete c (callbacks st);
       isRunning := isRunning st;
       nextHandle := nextHandle st |} in
  if (List.length (callbacks st1) =? 0)%nat then stop st1 else st1.

(** [cleanup()], lines 141-144. *)
Definition cleanup (st : State) : State :=
  stop
    {| intervalId := intervalId st;
       callbacks := [];
       isRunning := isRunning st;
       nextHandle := nextHandle st |}.

(** What a user of an instance can do. *)
Inductive Op : Type :=
| Add (c : Callback)
| Remove (c : Callback)
| Cleanup.

Definition apply (st : State) (op : Op) : State :=
  match op with
  | Add c => addCallback c st
  | Remove c => removeCallback c st
  | Cleanup => cleanup st
  end.

Definition run (ops : list Op) (st : State) : State :=
  fold_left apply ops st.

(** The fields of an instance agree with each other. *)
Definition consistent (st : State) : Prop :=
  isRunning st = negb (Nat.eqb (List.length (callbacks st)) 0)
  /\ (isRunning st = true ->
      exists h, intervalId st = Some {| handle := h; delay := 16 |})
  /\ (isRunning st = false -> intervalId st = None)
  /\ NoDup (callbacks st).

Section Firing.

(** What running a callback does to the rest of the program, of state
    [W]: it returns, or it throws. *)
Variable W : Type.

Inductive Outcome : Type :=
| Returns (w : W)
| Throws (w : W).

Variable body : Callback -> W -> Outcome.

(** [__DEV__] *)
Variable dev : bool.

(** What one firing of the interval leaves: the state of the program, the
    callbacks that were called and the callbacks whose error went to
    [console.error], each in order. *)
Record Firing : Type := mkFiring
  { world : W;
    called : list Callback;
    reported : list Callback }.

(** One turn of [forEach], lines 115-123: the call in [try], the report
    in [catch]. *)
Definition fireOne (f : Firing) (c : Callback) : Firing :=
  match body c (world f) with
  | Returns w =>
      {| world := w; called := called f ++ [c]; reported := reported f |}
  | Throws w =>
      {| world := w;
         called := called f ++ [c];
         reported := if dev then reported f ++ [c] else reported f |}
  end.

(** The callback given to [setInterval], lines 113-124. *)
Definition fire (st : State) (w : W) : Firing :=
  fold_left fireOne (callbacks st)
    {| world := w; called := []; reported := [] |}.

(** Whether a callback throws when its turn comes in a firing that has
    reached the state [w]. *)
Definition throwsAt (c : Callback) (w : W) : bool :=
  match body c w with
  | Returns _ => false
  | Throws _ => true
  end.

End Firing.

End OptimizedTimer.

(** ** The text of the display: the render of [Stopwatch] *)

Module Display.

Local Open Scope string_scope.

(** [String(n)] for an integral number. *)
Definition toString (n : Z) : string :=
  NilZero.string_of_int (Z.to_int n).

(** [s.charAt(i)]: the empty string past the end. *)
Definition charAt (i : nat) (s : string) : string :=
  match String.get i s with
  | Some c => String c EmptyString
  | None => EmptyString
  end.

(** The props the text depends on, defaults applied (StopwatchTimer.tsx
    lines 161-168). *)
Record Props : Type := mkProps
  { leadingZeros : Z;
    trailingZeros : Z;
    decimalSeparator : string;
    needHour : bool }.

Definition defaultProps : Props :=
  {| leadingZeros := 1;
     trailingZeros := 1;
     decimalSeparator := ",";
     needHour := false |}.

(** The text of each [Text] element of the returned view, in order
    (lines 347-470); an element that is not rendered contributes
    nothing. *)
Definition render (pr : Props) (f : Format.TimeFields) : list string :=
  (if (leadingZeros pr =? 2)%Z then ["0"] else [])
  ++ (if needHour pr then [toString (Format.hours f); ":"] else [])
  ++ [ (if needHour pr && (Format.minutes f <? 10)%Z then "0" else "")
       ++ toString (Format.minutes f);
       ":";
       toString (Format.tens f);
       toString (Format.lastDigit f) ]
  ++ (if (trailingZeros pr >? 0)%Z
      then
        [ decimalSeparator pr;
          if (Format.tensOfMs f >=? 10)%Z
          then charAt 0 (toString (Format.tensOfMs f))
          else toString 0 ]
        ++ (if (trailingZeros pr =? 2)%Z
            then
              [ if (Format.tensOfMs f >=? 10)%Z
                then charAt 1 (toString (Format.tensOfMs f))
                else charAt 0 (toString (Format.tensOfMs f)) ]
            else [])
      else []).

(** The whole line. *)
Definition text (pr : Props) (f : Format.TimeFields) : string :=
  String.concat "" (render pr f).

(** The character of a decimal digit. *)
Definition digit (d : Z) : string :=
  String (ascii_of_nat (48 + Z.to_nat d)) EmptyString.

(** Two decimal digits, the first one possibly [0]. *)
Definition twoDigits (n : Z) : string :=
  digit (n / 10) ++ digit (n mod 10).

(** The integers from [lo] on, [count] of them. *)
Fixpoint range (lo : Z) (count : nat) : list Z :=
  match count with
  | O => []
  | S n => lo :: range (lo + 1) n
  end.

End Display.

(** ** Entering and exiting digits *)

Module Transition.

Local Open Scope float_scope.

(** The slots of [digitMountStates], lines 204-209. *)
Inductive DigitType : Type := Seconds | TensOfSeconds | Minutes | Hours.

Record MountStates : Type := mkMountStates
  { seconds : bool;
    tensOfSeconds : bool;
    minutes : bool;
    hours : bool }.

(** [useSharedValue({ seconds: false, ... })] *)
Definition unmounted : MountStates :=
  {| seconds := false;
     tensOfSeconds := false;
     minutes := false;
     hours := false |}.

(** [digitMountStates.value[digitType]] *)
Definition mounted (d : DigitType) (m : MountStates) : bool :=
  match d with
  | Seconds => seconds m
  | TensOfSeconds => tensOfSeconds m
  | Minutes => minutes m
  | Hours => hours m
  end.

(** [{ ...digitMountStates.value, [digitType]: true }] *)
Definition markMounted (d : DigitType) (m : MountStates) : MountStates :=
  match d with
  | Seconds =>
      {| seconds := true; tensOfSeconds := tensOfSeconds m;
         minutes := minutes m; hours := hours m |}
  | TensOfSeconds =>
      {| seconds := seconds m; tensOfSeconds := true;
         minutes := minutes m; hours := hours m |}
  | Minutes =>
      {| seconds := seconds m; tensOfSeconds := tensOfSeconds m;
         minutes := true; hours := hours m |}
  | Hours =>
      {| seconds := seconds m; tensOfSeconds := tensOfSeconds m;
         minutes := minutes m; hours := true |}
  end.

Definition eqb (a b : DigitType) : bool :=
  match a, b with
  | Seconds, Seconds | TensOfSeconds, TensOfSeconds
  | Minutes, Minutes | Hours, Hours => true
  | _, _ => false
  end.

(** [withDelay(delay, withSpring(toValue, ...))] or
    [withDelay(delay, withTiming(toValue, ...))]. *)
Record Animated : Type := mkAnimated
  { delayedBy : float;
    curve : Animation.Curve;
    toValue : float }.

(** The object a layout animation returns: [initialValues.originY] and
    [animations.originY], each absent in [{}]. *)
Record LayoutAnimation : Type := mkLayoutAnimation
  { initialOriginY : option float;
    originY : option Animated }.

Section Config.

Variable pr : Animation.Props.

(** The prop [enterAnimationType], ['slide-in-up'] by default. *)
Variable enterAnimationType : string.

(** Line 258. *)
Definition enterDirection : float :=
  if String.eqb enterAnimationType "slide-in-up" then -1 else 1.

(** Line 299. *)
Definition exitDirection : float :=
  if String.eqb enterAnimationType "slide-in-up" then 1 else -1.

(** [createEntering(digitType)(values)], lines 245-293, with
    [values.targetOriginY]: the animation and the mount states it
    leaves. *)
Definition createEntering
           (digitType : DigitType) (targetOriginY : float) (m : MountStates)
  : LayoutAnimation * MountStates :=
  if negb (mounted digitType m) then
    ({| initialOriginY := None; originY := None |}, markMounted digitType m)
  else
    let config := Animation.animationConfig pr in
    ({| initialOriginY :=
          Some (targetOriginY
                + Animation.distance (Animation.base config) * enterDirection);
        originY :=
          Some
            match Animation.useSpringAnimation pr, Animation.spring config with
            | true, Some sp =>
                {| delayedBy := Animation.delay (Animation.base config);
                   curve :=
                     Animation.WithSpring (Animation.damping sp)
                       (Animation.stiffness sp) (Animation.mass sp);
                   toValue := targetOriginY |}
            | _, _ =>
                {| delayedBy := Animation.delay (Animation.base config);
                   curve :=
                     Animation.WithTiming
                       (Animation.duration (Animation.base config));
                   toValue := targetOriginY |}
            end |},
     m).

(** [exiting(values)], lines 296-336, with [values.currentOriginY]. *)
Definition exiting (currentOriginY : float) : LayoutAnimation :=
  let config := Animation.animationConfig pr in
  {| initialOriginY := Some currentOriginY;
     originY :=
       Some
         match Animation.useSpringAnimation pr, Animation.spring config with
         | true, Some sp =>
             {| delayedBy := Animation.delay (Animation.base config);
                curve :=
                  Animation.WithSpring (Animation.damping sp)
                    (Animation.stiffness sp) (Animation.mass sp);
                toValue :=
                  currentOriginY
                  + Animation.distance (Animation.base config)
                    * exitDirection |}
         | _, _ =>
             {| delayedBy := Animation.delay (Animation.base config);
                curve :=
                  Animation.WithTiming
                    (Animation.duration (Animation.base config));
                toValue :=
                  currentOriginY
                  + Animation.distance (Animation.base config)
                    * exitDirection |}
         end |}.

(** The mount states after the digits of [entered] have entered, one
    after the other. *)
Definition enterAll (entered : list (DigitType * float)) (m : MountStates)
  : MountStates :=
  fold_left (fun m' e => snd (createEntering (fst e) (snd e) m')) entered m.

End Config.

End Transition.

(** ** More configurations and runs *)

Module Sample.

Import Timer.

(** A five-second timer played at mount and sampled once, six seconds
    later. *)
Definition overrun : list Event :=
  [Play Scenario.t0; Tick (Scenario.t0 + 6000)].

(** A stopwatch played, paused before its first sample, played again two
    seconds later and sampled. *)
Definition earlyPause : list Event :=
  [ Play Scenario.t0; Pause (Scenario.t0 + 10);
    Play (Scenario.t0 + 2010); Tick (Scenario.t0 + 2026) ].

(** [throttle(f, 100, { leading: false })] *)
Definition trailingOnly : Throttle.Options :=
  {| Throttle.optLeading := Some false; Throttle.optTrailing := None |}.

(** [throttle(f, 100)] just after a first call, with ["a"], at 1000. *)
Definition afterLeadingCall : Throttle.State string string :=
  Throttle.throttled Scenario.echo 100 Throttle.noOptions 1000 "a"%string
    (Throttle.init string string).

(** The animation props of [<StopwatchTimer useSpringAnimation />]. *)
Definition springProps : Animation.Props :=
  {| Animation.animationDelay := Animation.DEFAULT_ANIMATION_DELAY;
     Animation.animationDistance := Animation.DEFAULT_ANIMATION_DISTANCE;
     Animation.animationDuration := Animation.DEFAULT_ANIMATION_DURATION;
     Animation.animationPreset := "smooth";
     Animation.useSpringAnimation := true;
     Animation.performanceMode := "balanced" |}.

End Sample.

(** * Properties *)

Unset Implicit Arguments.

(** ** Time decomposition *)

Module FormatFacts.

Import Format.

Example decompose_stopwatch :
  formatTimeWorklet 65432 false
  = {| tensOfMs := 43; lastDigit := 5; tens := 0; minutes := 1; hours := 0 |}.
Proof. reflexivity. Qed.

Example decompose_with_hours :
  formatTimeWorklet 3665000 true
  = {| tensOfMs := 0; lastDigit := 5; tens := 0; minutes := 1; hours := 1 |}.
Proof. reflexivity. Qed.

(** On the non-negative counts the decomposition works with, the
    JavaScript remainder is the mathematical one. *)
Lemma rem_nonneg (a b : Z) : 0 <= a -> 0 < b -> JS.rem a b = a mod b.
Proof.
  intros Ha Hb. unfold JS.rem. apply Z.rem_mod_nonneg; lia.
Qed.

(** The four displayed fields of a count of seconds add up to it. *)
Lemma fields_of_seconds (c : Z) (needHour : bool) :
  0 <= c ->
  recompose needHour
    {| tensOfMs := 0;
       lastDigit := JS.rem c 10;
       tens := JS.rem (JS.floorDiv c 10) 6;
       minutes :=
         if needHour
         then JS.floorDiv (JS.rem c 3600) 60
         else JS.floorDiv c 60;
       hours := JS.floorDiv c 3600 |}
  = c.
Proof.
  intros Hc.
  unfold recompose, minutesInHour; cbn [hours minutes tens lastDigit].
  assert (H10 : 0 <= JS.floorDiv c 10)
    by (unfold JS.floorDiv; apply Z.div_pos; lia).
  rewrite !rem_nonneg by lia.
  unfold JS.floorDiv in *.
  destruct needHour; Z.div_mod_to_equations; lia.
Qed.

End FormatFacts.

(** C6.  For every non-negative [elapsedMs] and every [needHour], the
    fields computed by [formatTimeWorklet] satisfy
    [hours*3600 + minutes'*60 + tens*10 + lastDigit = floor(elapsedMs/1000)],
    where [minutes'] is the minutes field itself when hours are displayed
    and the minutes field modulo sixty when they are not (the field then
    holds all of [floor(totalSeconds/60)]).  The fields the hook derives
    from its snapshot satisfy the same equation. *)
Theorem decomposition_adds_up (elapsedMs : Z) (needHour : bool) :
  0 <= elapsedMs ->
  (let f := Format.formatTimeWorklet elapsedMs needHour in
   Format.hours f * 3600
   + (if needHour then Format.minutes f else Format.minutes f mod 60) * 60
   + Format.tens f * 10
   + Format.lastDigit f
   = elapsedMs / 1000)
  /\ Format.minutes (Format.formatTimeWorklet elapsedMs false)
     = elapsedMs / 1000 / 60
  /\ (forall (p : Timer.Props) (s : Timer.State),
      let f := Timer.fields (Timer.timeValues p s) in
      Format.hours f * 3600
      + (if Timer.needHour p
         then Format.minutes f else Format.minutes f mod 60) * 60
      + Format.tens f * 10
      + Format.lastDigit f
      = Timer.getSnapshot p s / 1000).
Proof.
  intros Hpos.
  assert (Hsec : 0 <= elapsedMs / 1000) by (apply Z.div_pos; lia).
  split; [| split].
  - cbv zeta. unfold Format.formatTimeWorklet.
    rewrite (Z.abs_eq elapsedMs) by assumption.
    apply (FormatFacts.fields_of_seconds _ needHour Hsec).
  - unfold Format.formatTimeWorklet; cbn [Format.minutes].
    rewrite (Z.abs_eq elapsedMs) by assumption. reflexivity.
  - intros p s. cbv zeta.
    unfold Timer.timeValues; cbn [Timer.fields].
    fold (Timer.getSnapshot p s).
    apply (FormatFacts.fields_of_seconds
             (Timer.getSnapshot p s / 1000) (Timer.needHour p)).
    apply Z.div_pos; [apply Z.abs_nonneg | lia].
Qed.

(** The equation at 1 h 2 min 5 s, hours not displayed. *)
Lemma decomposition_adds_up_witness :
  0 <= 3725432
  /\ (let f := Format.formatTimeWorklet 3725432 false in
      Format.hours f * 3600 + (Format.minutes f mod 60) * 60
      + Format.tens f * 10 + Format.lastDigit f
      = 3725432 / 1000).
Proof.
  split; [lia |].
  exact (proj1 (decomposition_adds_up 3725432 false ltac:(lia))).
Defined.

(** ** The throttle primitive *)

Module ThrottleFacts.

Import Throttle.

(** The test of line 32, [remaining <= 0 || remaining > wait], in terms
    of the window [[a, a + wait)] that starts at the anchor [a]. *)
Lemma inside_window_test (wait now a : Z) :
  a <= now < a + wait ->
  (wait - (now - a) <=? 0) || (wait - (now - a) >? wait) = false.
Proof.
  intros Hin. rewrite Z.gtb_ltb.
  destruct (Z.leb_spec (wait - (now - a)) 0);
    destruct (Z.ltb_spec wait (wait - (now - a))); cbn; lia.
Qed.

Lemma outside_window_test (wait now a : Z) :
  a + wait <= now \/ now < a ->
  (wait - (now - a) <=? 0) || (wait - (now - a) >? wait) = true.
Proof.
  intros Hout. rewrite Z.gtb_ltb.
  destruct (Z.leb_spec (wait - (now - a)) 0);
    destruct (Z.ltb_spec wait (wait - (now - a))); cbn; lia.
Qed.

Section Instance.

Variables A R : Type.
Variable func : A -> R.
Variable wait : Z.
Variable options : Options.

(** A call outside the window applies [func] at once and drops any
    pending timer. *)
Lemma throttled_outside_window (now : Z) (args : A) (st : State A R) :
  anchor options now st + wait <= now \/ now < anchor options now st ->
  throttled func wait options now args st
  = {| timeout := None;
       previous := now;
       result := Some (func args);
       calls := (now, args) :: calls st |}.
Proof.
  intros Hout. unfold Throttle.throttled, apply. cbv zeta.
  replace ((wait - (now - anchor options now st) <=? 0)
           || (wait - (now - anchor options now st) >? wait)) with true.
  - reflexivity.
  - symmetry. apply outside_window_test. exact Hout.
Qed.

(** Inside the window, with trailing invocation enabled and no timer
    pending, a call arms one timer for the end of the window; the timer
    holds the arguments of that call. *)
Lemma throttled_arms_timer (now : Z) (args : A) (st : State A R) :
  trailing options = true ->
  timeout st = None ->
  anchor options now st <= now < anchor options now st + wait ->
  throttled func wait options now args st
  = {| timeout :=
         Some {| due := anchor options now st + wait; capturedArgs := args |};
       previous := anchor options now st;
       result := result st;
       calls := calls st |}.
Proof.
  intros Htr Hnone Hin. unfold Throttle.throttled. cbv zeta.
  replace ((wait - (now - anchor options now st) <=? 0)
           || (wait - (now - anchor options now st) >? wait)) with false.
  - rewrite Hnone, Htr. cbn [JS.notNull negb andb].
    do 3 f_equal. lia.
  - symmetry. apply inside_window_test. exact Hin.
Qed.

(** Inside the window a pending timer is left as it is, whatever the
    arguments of the new call: nothing of the call is kept. *)
Lemma throttled_keeps_pending
      (now : Z) (args : A) (st : State A R) (q : Pending A) :
  timeout st = Some q ->
  anchor options now st <= now < anchor options now st + wait ->
  throttled func wait options now args st
  = {| timeout := Some q;
       previous := anchor options now st;
       result := result st;
       calls := calls st |}.
Proof.
  intros Hq Hin. unfold Throttle.throttled. cbv zeta.
  replace ((wait - (now - anchor options now st) <=? 0)
           || (wait - (now - anchor options now st) >? wait)) with false.
  - rewrite Hq. reflexivity.
  - symmetry. apply inside_window_test. exact Hin.
Qed.

(** With trailing invocation disabled a call inside the window does
    nothing but anchor the window. *)
Lemma throttled_without_trailing (now : Z) (args : A) (st : State A R) :
  trailing options = false ->
  anchor options now st <= now < anchor options now st + wait ->
  throttled func wait options now args st
  = {| timeout := timeout st;
       previous := anchor options now st;
       result := result st;
       calls := calls st |}.
Proof.
  intros Htr Hin. unfold Throttle.throttled. cbv zeta.
  replace ((wait - (now - anchor options now st) <=? 0)
           || (wait - (now - anchor options now st) >? wait)) with false.
  - rewrite Htr, andb_false_r. reflexivity.
  - symmetry. apply inside_window_test. exact Hin.
Qed.

(** The trailing invocation gets the arguments the timer captured. *)
Lemma advance_runs_pending (now : Z) (st : State A R) (q : Pending A) :
  timeout st = Some q ->
  due q <= now ->
  advanceTo func options now st
  = {| timeout := None;
       previous := if negb (leading options) then 0 else due q;
       result := Some (func (capturedArgs q));
       calls := (due q, capturedArgs q) :: calls st |}.
Proof.
  intros Hq Hdue. unfold Throttle.advanceTo, Throttle.timerCallback.
  rewrite Hq. apply Z.leb_le in Hdue. rewrite Hdue. reflexivity.
Qed.

(** Two calls inside one window, then the end of the window: the one
    trailing invocation happens at the end of the window, with the
    arguments of the first of the two calls. *)
Lemma trailing_invocation_of_two_calls
      (st : State A R) (t1 t2 : Z) (a1 a2 : A) :
  trailing options = true ->
  previous st <> 0 ->
  timeout st = None ->
  previous st <= t1 ->
  t1 <= t2 < previous st + wait ->
  calls (run func wait options
           [Call t1 a1; Call t2 a2; Advance (previous st + wait)] st)
  = (previous st + wait, a1) :: calls st.
Proof.
  intros Htr Hprev Hnone H1 H2.
  assert (Hanchor : forall now (x : State A R),
             previous x = previous st -> anchor options now x = previous st).
  { intros now x Hx. unfold Throttle.anchor. rewrite Hx.
    apply Z.eqb_neq in Hprev. rewrite Hprev. reflexivity. }
  unfold run; cbn [fold_left step].
  rewrite (throttled_arms_timer t1 a1 st Htr Hnone)
    by (rewrite (Hanchor t1 st eq_refl); lia).
  rewrite (Hanchor t1 st eq_refl).
  erewrite throttled_keeps_pending;
    [| reflexivity | rewrite Hanchor by reflexivity; lia].
  rewrite Hanchor by reflexivity.
  erewrite advance_runs_pending; [| reflexivity | cbn; lia].
  reflexivity.
Qed.

End Instance.

End ThrottleFacts.

(** ** The elapsed-time engine *)

Module TimerFacts.

Import Timer.

(** *** The throttled completion callback

    [leading] keeps its default, so the window is always anchored at the
    last application of [onFinish]. *)
Lemma onFinish_anchor (now : Z) (st : FinishState) :
  Throttle.anchor onFinishOptions now st = Throttle.previous st.
Proof.
  unfold Throttle.anchor. cbn. rewrite andb_false_r. reflexivity.
Qed.

Lemma throttledOnFinish_fires (now : Z) (st : FinishState) :
  Throttle.previous st + 100 <= now ->
  throttledOnFinish now st
  = {| Throttle.timeout := None;
       Throttle.previous := now;
       Throttle.result := Some tt;
       Throttle.calls := (now, tt) :: Throttle.calls st |}.
Proof.
  intros Hout. unfold throttledOnFinish.
  rewrite ThrottleFacts.throttled_outside_window
    by (rewrite onFinish_anchor; unfold onFinishWait; lia).
  reflexivity.
Qed.

Lemma throttledOnFinish_suppressed (now : Z) (st : FinishState) :
  Throttle.previous st <= now < Throttle.previous st + 100 ->
  throttledOnFinish now st = st.
Proof.
  intros Hin. unfold throttledOnFinish.
  rewrite ThrottleFacts.throttled_without_trailing
    by (try reflexivity; rewrite onFinish_anchor; unfold onFinishWait; lia).
  rewrite onFinish_anchor. destruct st; reflexivity.
Qed.

Lemma throttledOnFinish_no_timer (now : Z) (st : FinishState) :
  Throttle.timeout st = None ->
  Throttle.timeout (throttledOnFinish now st) = None.
Proof.
  intros Hnone. unfold throttledOnFinish, Throttle.throttled.
  cbv zeta.
  destruct ((_ <=? 0) || (_ >? _)); [reflexivity |].
  cbn [Throttle.trailing onFinishOptions Throttle.optTrailing].
  rewrite andb_false_r. exact Hnone.
Qed.

Section Hook.

Variable p : Props.

(** The two ways the completion effect can go. *)
Lemma finishEffect_fires (now : Z) (s : State) :
  isTimer (mode p) = true ->
  initialTimeInMs p <= elapsedInMs s ->
  finishEffect p now s
  = {| elapsedInMs := initialTimeInMs p;
       startTime := startTime s;
       pausedTime := pausedTime s;
       intervalId := None;
       finish := throttledOnFinish now (finish s);
       nextHandle := nextHandle s |}.
Proof.
  intros Hmode Hge. unfold finishEffect.
  rewrite Hmode, Z.geb_leb. apply Z.leb_le in Hge. rewrite Hge.
  reflexivity.
Qed.

Lemma finishEffect_idle (now : Z) (s : State) :
  isTimer (mode p) = false \/ elapsedInMs s < initialTimeInMs p ->
  finishEffect p now s = s.
Proof.
  intros Hidle. unfold finishEffect.
  destruct Hidle as [-> | Hlt]; [reflexivity |].
  rewrite Z.geb_leb. apply Z.leb_gt in Hlt. rewrite Hlt.
  apply andb_false_r || (rewrite andb_false_r; reflexivity).
Qed.

(** A second run of the completion effect stores the value the first
    one stored: the cascade of renders in [commit] ends with it. *)
Lemma commit_settled (now1 now2 : Z) (s : State) :
  elapsedInMs (finishEffect p now2 (finishEffect p now1 s))
  = elapsedInMs (finishEffect p now1 s).
Proof.
  destruct (isTimer (mode p)) eqn:Hmode.
  - destruct (Z.le_gt_cases (initialTimeInMs p) (elapsedInMs s))
      as [Hge | Hlt].
    + rewrite (finishEffect_fires now1 s Hmode Hge).
      rewrite finishEffect_fires by (cbn; auto; lia).
      reflexivity.
    + rewrite (finishEffect_idle now1 s) by (right; lia).
      rewrite (finishEffect_idle now2 s) by (right; lia).
      reflexivity.
  - rewrite !finishEffect_idle by (left; exact Hmode). reflexivity.
Qed.

(** A handler that leaves the stored value alone renders nothing. *)
Lemma commit_unchanged (now : Z) (s : State) :
  commit p now (elapsedInMs s) s = s.
Proof. unfold commit. rewrite Z.eqb_refl. reflexivity. Qed.

Lemma step_unchanged (e : Event) (s : State) :
  elapsedInMs (handle p e s) = elapsedInMs s ->
  step p s e = handle p e s.
Proof.
  intros H. unfold step. rewrite <- H. apply commit_unchanged.
Qed.

Lemma run_app (evs1 evs2 : list Event) (s : State) :
  run p (evs1 ++ evs2) s = run p evs2 (run p evs1 s).
Proof. apply fold_left_app. Qed.

Lemma run_cons (e : Event) (evs : list Event) (s : State) :
  run p (e :: evs) s = run p evs (step p s e).
Proof. reflexivity. Qed.

(** [pause] keeps the stored value, [play] too. *)
Lemma pause_elapsed (now : Z) (s : State) :
  elapsedInMs (fst (pause p now s)) = elapsedInMs s.
Proof.
  unfold pause. cbn [fst].
  destruct (JS.falsy _ && _); reflexivity.
Qed.

Lemma play_elapsed (now : Z) (s : State) :
  elapsedInMs (play p now s) = elapsedInMs s.
Proof.
  unfold play.
  destruct (JS.notNull _); [reflexivity |].
  destruct (_ && _); reflexivity.
Qed.

(** *** A finished timer

    Only [reset] gets a timer out of the state [finished]. *)

Lemma finished_step (e : Event) (s : State) :
  mode p = TimerMode ->
  isReset e = false ->
  finished p s ->
  finished p (step p s e) /\ finish (step p s e) = finish s.
Proof.
  intros Hmode Hreset [Hid Hel].
  assert (Hsame : elapsedInMs (handle p e s) = elapsedInMs s).
  { destruct e as [now | now | now | now]; cbn [handle].
    - apply play_elapsed.
    - apply pause_elapsed.
    - discriminate Hreset.
    - rewrite Hid. reflexivity. }
  rewrite (step_unchanged e s Hsame).
  destruct e as [now | now | now | now]; cbn [handle].
  - unfold play. rewrite Hid, Hel, Z.eqb_refl, Hmode.
    cbn. split; [split |]; auto.
  - unfold pause, finished. cbn [fst].
    destruct (JS.falsy _ && _); cbn; auto.
  - discriminate Hreset.
  - rewrite Hid. cbn. split; [split |]; auto.
Qed.

Lemma finished_run (evs : list Event) (s : State) :
  mode p = TimerMode ->
  forallb (fun e => negb (isReset e)) evs = true ->
  finished p s ->
  finished p (run p evs s) /\ finish (run p evs s) = finish s.
Proof.
  intros Hmode. revert s.
  induction evs as [| e evs IH]; intros s Hevs Hfin.
  - split; [exact Hfin | reflexivity].
  - cbn [forallb] in Hevs. apply andb_true_iff in Hevs as [He Hevs].
    apply negb_true_iff in He.
    destruct (finished_step e s Hmode He Hfin) as [Hfin' Hsame].
    rewrite run_cons.
    destruct (IH _ Hevs Hfin') as [Hfin'' Hsame'].
    split; [exact Hfin'' | congruence].
Qed.

Lemma finished_snapshot (s : State) :
  mode p = TimerMode -> finished p s -> getSnapshot p s = 0.
Proof.
  intros Hmode [_ Hel]. unfold getSnapshot, direction.
  rewrite Hel, Hmode. cbn [isTimer].
  replace (initialTimeInMs p + initialTimeInMs p * -1) with 0 by lia.
  reflexivity.
Qed.

End Hook.

End TimerFacts.

(** ** Renders, closures and the cleanup effect *)

Module LifecycleFacts.

Import Timer.

Lemma clearInterval_same (id : positive) :
  Lifecycle.clearInterval id (Some id) = None.
Proof. unfold Lifecycle.clearInterval. rewrite Pos.eqb_refl. reflexivity. Qed.

Lemma removeInterval_settled (s : State) :
  Lifecycle.removeInterval (Lifecycle.settled s)
  = Lifecycle.settled (removeInterval s).
Proof.
  unfold Lifecycle.removeInterval, Lifecycle.settled.
  cbn [Lifecycle.cell Lifecycle.rendered Lifecycle.installed].
  destruct s as [el st pa [id |] fin nh]; cbn; [| reflexivity].
  rewrite Pos.eqb_refl. reflexivity.
Qed.

Section Hook.

Variable p : Props.

Lemma play_settled (now : Z) (s : State) :
  Lifecycle.play p now (Lifecycle.settled s)
  = Lifecycle.settled (play p now s).
Proof.
  unfold Lifecycle.play, play, Lifecycle.settled.
  cbn [Lifecycle.cell Lifecycle.rendered Lifecycle.installed].
  destruct (JS.notNull (intervalId s)); [reflexivity |].
  destruct ((elapsedInMs s =? initialTimeInMs p) && isTimer (mode p));
    reflexivity.
Qed.

Lemma pause_settled (now : Z) (s : State) :
  Lifecycle.pause p now (Lifecycle.settled s)
  = (Lifecycle.settled (fst (pause p now s)), snd (pause p now s)).
Proof.
  unfold Lifecycle.pause. rewrite removeInterval_settled.
  unfold pause, Lifecycle.settled, Lifecycle.getSnapshot, getSnapshot.
  cbn [Lifecycle.cell Lifecycle.rendered Lifecycle.installed fst snd].
  destruct (JS.falsy (pausedTime (removeInterval s))
            && (elapsedInMs (removeInterval s) >? 0)); reflexivity.
Qed.

Lemma reset_settled (s : State) :
  Lifecycle.reset (Lifecycle.settled s)
  = {| Lifecycle.cell := reset s;
       Lifecycle.rendered := elapsedInMs s;
       Lifecycle.installed := None |}.
Proof.
  unfold Lifecycle.reset. rewrite removeInterval_settled. reflexivity.
Qed.

(** The completion effect of a render that has just taken the value of
    the state cell is the effect of module [Timer]. *)
Lemma finishEffect_rendered (now : Z) (s : State) :
  Lifecycle.finishEffect p now (Lifecycle.settled s)
  = {| Lifecycle.cell := finishEffect p now s;
       Lifecycle.rendered := elapsedInMs s;
       Lifecycle.installed := intervalId (finishEffect p now s) |}.
Proof.
  unfold Lifecycle.finishEffect, finishEffect.
  cbn [Lifecycle.rendered Lifecycle.settled].
  destruct (isTimer (mode p) && (elapsedInMs s >=? initialTimeInMs p));
    [| reflexivity].
  rewrite removeInterval_settled. reflexivity.
Qed.

Lemma render_same (now : Z) (h : Lifecycle.State) :
  Lifecycle.installed h = intervalId (Lifecycle.cell h) ->
  Lifecycle.render p Lifecycle.SameFunction now h
  = {| Lifecycle.cell := finishEffect p now (Lifecycle.cell h);
       Lifecycle.rendered := elapsedInMs (Lifecycle.cell h);
       Lifecycle.installed :=
         intervalId (finishEffect p now (Lifecycle.cell h)) |}.
Proof.
  intros Hin. unfold Lifecycle.render. cbn [Lifecycle.isSame].
  rewrite Hin. apply (finishEffect_rendered now (Lifecycle.cell h)).
Qed.

(** With one [onFinish] function the renders after a task are those of
    [Timer.commit]. *)
Lemma commit_same (now : Z) (h : Lifecycle.State) :
  Lifecycle.installed h = intervalId (Lifecycle.cell h) ->
  Lifecycle.commit p Lifecycle.SameFunction now h
  = Lifecycle.settled (commit p now (Lifecycle.rendered h) (Lifecycle.cell h)).
Proof.
  intros Hin. unfold Lifecycle.commit, commit.
  destruct (elapsedInMs (Lifecycle.cell h) =? Lifecycle.rendered h) eqn:Hsame.
  - apply Z.eqb_eq in Hsame. destruct h as [c r i].
    cbn in *. subst. reflexivity.
  - rewrite (render_same now h Hin).
    cbn [Lifecycle.cell Lifecycle.rendered].
    destruct (elapsedInMs (finishEffect p now (Lifecycle.cell h))
              =? elapsedInMs (Lifecycle.cell h)) eqn:Hagain.
    + apply Z.eqb_eq in Hagain. unfold Lifecycle.settled.
      rewrite Hagain. reflexivity.
    + rewrite render_same by reflexivity.
      cbn [Lifecycle.cell]. unfold Lifecycle.settled.
      rewrite TimerFacts.commit_settled. reflexivity.
Qed.

Lemma mount_same (now : Z) :
  Lifecycle.mount p Lifecycle.SameFunction now
  = Lifecycle.settled (mount p now).
Proof.
  unfold Lifecycle.mount, mount.
  change {| Lifecycle.cell := initial;
            Lifecycle.rendered := 0;
            Lifecycle.installed := None |}
    with (Lifecycle.settled initial).
  rewrite reset_settled.
  change {| Lifecycle.cell := reset initial;
            Lifecycle.rendered := elapsedInMs initial;
            Lifecycle.installed := None |}
    with (Lifecycle.settled (reset initial)).
  rewrite finishEffect_rendered.
  cbn [Lifecycle.cell Lifecycle.rendered].
  change (elapsedInMs (reset initial)) with (elapsedInMs initial).
  destruct (elapsedInMs (finishEffect p now (reset initial))
            =? elapsedInMs initial) eqn:Hsame.
  - apply Z.eqb_eq in Hsame. unfold Lifecycle.settled.
    rewrite Hsame. reflexivity.
  - rewrite render_same by reflexivity.
    cbn [Lifecycle.cell]. unfold Lifecycle.settled.
    rewrite TimerFacts.commit_settled. reflexivity.
Qed.

(** The numbers a task of one call returns. *)
Lemma step_task (e : Event) (s : State) :
  Lifecycle.step p Lifecycle.SameFunction (Lifecycle.settled s)
    (Lifecycle.task e)
  = (Lifecycle.settled (step p s e), Lifecycle.answers p [e] s).
Proof.
  unfold step.
  destruct e as [now | now | now | now]; cbn [Lifecycle.task Lifecycle.step
    fold_left Lifecycle.perform fst snd handle clock Lifecycle.answers app].
  - rewrite play_settled, commit_same by reflexivity.
    cbn [Lifecycle.settled Lifecycle.cell Lifecycle.rendered].
    rewrite TimerFacts.play_elapsed. reflexivity.
  - rewrite pause_settled. cbn [fst snd].
    rewrite commit_same by reflexivity.
    cbn [Lifecycle.settled Lifecycle.cell Lifecycle.rendered].
    rewrite TimerFacts.pause_elapsed. reflexivity.
  - rewrite reset_settled, commit_same by reflexivity. reflexivity.
  - cbn [Lifecycle.settled Lifecycle.installed].
    destruct (intervalId s) as [id |] eqn:Hid; cbn [JS.notNull].
    + rewrite commit_same.
      * reflexivity.
      * cbn [Lifecycle.intervalCallback Lifecycle.cell Lifecycle.installed
             Lifecycle.settled].
        unfold intervalCallback.
        destruct (JS.falsy (pausedTime s)); reflexivity.
    + rewrite TimerFacts.commit_unchanged. reflexivity.
Qed.

Lemma run_tasks_from (evs : list Event) (s : State) (acc : list Z) :
  fold_left
    (fun a e =>
       (fst (Lifecycle.step p Lifecycle.SameFunction (fst a) e),
        snd a ++ snd (Lifecycle.step p Lifecycle.SameFunction (fst a) e)))
    (map Lifecycle.task evs) (Lifecycle.settled s, acc)
  = (Lifecycle.settled (run p evs s), acc ++ Lifecycle.answers p evs s).
Proof.
  revert s acc.
  induction evs as [| e evs IH]; intros s acc.
  - cbn. rewrite app_nil_r. reflexivity.
  - cbn [map fold_left fst snd]. rewrite step_task. cbn [fst snd].
    rewrite IH. rewrite TimerFacts.run_cons.
    cbn [Lifecycle.answers]. rewrite app_nil_r, app_assoc. reflexivity.
Qed.

(** A run in which [onFinish] is one function and every call has a
    handler of its own is a run of module [Timer]. *)
Lemma run_tasks (evs : list Event) (s : State) :
  Lifecycle.run p Lifecycle.SameFunction (map Lifecycle.task evs)
    (Lifecycle.settled s)
  = (Lifecycle.settled (run p evs s), Lifecycle.answers p evs s).
Proof. unfold Lifecycle.run. apply (run_tasks_from evs s []). Qed.

Lemma after_tasks (evs : list Event) (s : State) :
  Lifecycle.after p Lifecycle.SameFunction (map Lifecycle.task evs)
    (Lifecycle.settled s)
  = Lifecycle.settled (run p evs s).
Proof. unfold Lifecycle.after. rewrite run_tasks. reflexivity. Qed.

Lemma returned_tasks (evs : list Event) (s : State) :
  Lifecycle.returned p Lifecycle.SameFunction (map Lifecycle.task evs)
    (Lifecycle.settled s)
  = Lifecycle.answers p evs s.
Proof. unfold Lifecycle.returned. rewrite run_tasks. reflexivity. Qed.

End Hook.

(** *** Whatever [onFinish] is *)

Section Renders.

Variable p : Props.
Variable f : Lifecycle.OnFinish.

Lemma removeInterval_rendered (h : Lifecycle.State) :
  Lifecycle.rendered (Lifecycle.removeInterval h) = Lifecycle.rendered h
  /\ elapsedInMs (Lifecycle.cell (Lifecycle.removeInterval h))
     = elapsedInMs (Lifecycle.cell h)
  /\ intervalId (Lifecycle.cell (Lifecycle.removeInterval h)) = None
  /\ startTime (Lifecycle.cell (Lifecycle.removeInterval h))
     = startTime (Lifecycle.cell h)
  /\ pausedTime (Lifecycle.cell (Lifecycle.removeInterval h))
     = pausedTime (Lifecycle.cell h).
Proof.
  unfold Lifecycle.removeInterval.
  destruct (intervalId (Lifecycle.cell h)) eqn:Hid; cbn; auto.
Qed.

(** What a render leaves behind: it has rendered the value it found,
    and the state cell holds that value or, when the completion effect
    ran its body, the initial time. *)
Lemma render_rendered (now : Z) (h : Lifecycle.State) :
  Lifecycle.rendered (Lifecycle.render p f now h)
  = elapsedInMs (Lifecycle.cell h).
Proof.
  unfold Lifecycle.render, Lifecycle.finishEffect.
  destruct (Lifecycle.isSame f);
    cbn [Lifecycle.rendered Lifecycle.cell Lifecycle.cleanup Lifecycle.rebuild
         elapsedInMs];
    destruct (isTimer (mode p) && _);
    cbn [Lifecycle.rendered]; rewrite ?(proj1 (removeInterval_rendered _));
    reflexivity.
Qed.

Lemma render_elapsed (now : Z) (h : Lifecycle.State) :
  elapsedInMs (Lifecycle.cell (Lifecycle.render p f now h))
  = if isTimer (mode p)
       && (elapsedInMs (Lifecycle.cell h) >=? initialTimeInMs p)
    then initialTimeInMs p
    else elapsedInMs (Lifecycle.cell h).
Proof.
  unfold Lifecycle.render, Lifecycle.finishEffect.
  destruct (Lifecycle.isSame f);
    cbn [Lifecycle.rendered Lifecycle.cell Lifecycle.cleanup Lifecycle.rebuild
         elapsedInMs];
    destruct (isTimer (mode p) && _); reflexivity.
Qed.

(** After the renders of [commit] the value of the state cell is the
    rendered one. *)
Lemma commit_rendered (now : Z) (h : Lifecycle.State) :
  elapsedInMs (Lifecycle.cell (Lifecycle.commit p f now h))
  = Lifecycle.rendered (Lifecycle.commit p f now h).
Proof.
  unfold Lifecycle.commit.
  destruct (elapsedInMs (Lifecycle.cell h) =? Lifecycle.rendered h) eqn:H0;
    [apply Z.eqb_eq; exact H0 |].
  destruct (elapsedInMs (Lifecycle.cell (Lifecycle.render p f now h))
            =? Lifecycle.rendered (Lifecycle.render p f now h)) eqn:H1;
    [apply Z.eqb_eq; exact H1 |].
  apply Z.eqb_neq in H1.
  rewrite render_rendered, render_elapsed in H1.
  rewrite render_rendered, !render_elapsed.
  destruct (isTimer (mode p)
            && (elapsedInMs (Lifecycle.cell h) >=? initialTimeInMs p));
    [| contradiction].
  destruct (isTimer (mode p) && _); reflexivity.
Qed.

(** The state after a run does not depend on the numbers returned. *)
Lemma run_state (evs : list Lifecycle.Event) (h : Lifecycle.State)
      (outs1 outs2 : list Z) :
  fst (fold_left
         (fun acc e =>
            (fst (Lifecycle.step p f (fst acc) e),
             snd acc ++ snd (Lifecycle.step p f (fst acc) e)))
         evs (h, outs1))
  = fst (fold_left
           (fun acc e =>
              (fst (Lifecycle.step p f (fst acc) e),
               snd acc ++ snd (Lifecycle.step p f (fst acc) e)))
           evs (h, outs2)).
Proof.
  revert h outs1 outs2.
  induction evs as [| e evs IH]; intros h outs1 outs2; [reflexivity |].
  cbn [fold_left fst snd]. apply IH.
Qed.

Lemma after_cons (e : Lifecycle.Event) (evs : list Lifecycle.Event)
      (h : Lifecycle.State) :
  Lifecycle.after p f (e :: evs) h
  = Lifecycle.after p f evs (fst (Lifecycle.step p f h e)).
Proof.
  unfold Lifecycle.after, Lifecycle.run. cbn [fold_left fst snd app].
  apply run_state.
Qed.

Lemma after_app (evs1 evs2 : list Lifecycle.Event) (h : Lifecycle.State) :
  Lifecycle.after p f (evs1 ++ evs2) h
  = Lifecycle.after p f evs2 (Lifecycle.after p f evs1 h).
Proof.
  revert h. induction evs1 as [| e evs1 IH]; intros h; [reflexivity |].
  cbn [app]. rewrite !after_cons. apply IH.
Qed.

(** Between two tasks everything is rendered. *)
Lemma step_rendered (e : Lifecycle.Event) (h : Lifecycle.State) :
  Lifecycle.rendered h = elapsedInMs (Lifecycle.cell h) ->
  Lifecycle.rendered (fst (Lifecycle.step p f h e))
  = elapsedInMs (Lifecycle.cell (fst (Lifecycle.step p f h e))).
Proof.
  intros Hr. destruct e as [now calls | now]; cbn [Lifecycle.step].
  - cbn [fst]. symmetry. apply commit_rendered.
  - destruct (Lifecycle.installed h); cbn [fst]; [| exact Hr].
    symmetry. apply commit_rendered.
Qed.

Lemma after_rendered (evs : list Lifecycle.Event) (h : Lifecycle.State) :
  Lifecycle.rendered h = elapsedInMs (Lifecycle.cell h) ->
  Lifecycle.rendered (Lifecycle.after p f evs h)
  = elapsedInMs (Lifecycle.cell (Lifecycle.after p f evs h)).
Proof.
  revert h. induction evs as [| e evs IH]; intros h Hr; [exact Hr |].
  rewrite after_cons. apply IH, step_rendered, Hr.
Qed.

Lemma mount_rendered (now : Z) :
  Lifecycle.rendered (Lifecycle.mount p f now)
  = elapsedInMs (Lifecycle.cell (Lifecycle.mount p f now)).
Proof.
  unfold Lifecycle.mount.
  destruct (_ =? _) eqn:Hsame; [symmetry; apply Z.eqb_eq; exact Hsame |].
  apply Z.eqb_neq in Hsame.
  rewrite render_rendered, render_elapsed.
  revert Hsame. unfold Lifecycle.finishEffect.
  cbn [Lifecycle.reset Lifecycle.rendered].
  rewrite (proj1 (removeInterval_rendered _)).
  cbn [Lifecycle.rendered].
  destruct (isTimer (mode p)) eqn:Hmode; cbn [andb];
    [| intros Hne; exfalso; apply Hne; reflexivity].
  destruct (0 >=? initialTimeInMs p);
    [| intros Hne; exfalso; apply Hne; reflexivity].
  cbn [Lifecycle.cell elapsedInMs Lifecycle.rendered].
  intros _. rewrite Z.geb_leb, Z.leb_refl. reflexivity.
Qed.

(** The host holds no interval, or the one the ref names. *)
Lemma tracked_removeInterval (h : Lifecycle.State) :
  Lifecycle.tracked h ->
  Lifecycle.installed (Lifecycle.removeInterval h) = None.
Proof.
  unfold Lifecycle.tracked, Lifecycle.removeInterval.
  intros [Hnone | Href]; destruct (intervalId (Lifecycle.cell h)) eqn:Hid;
    cbn [Lifecycle.installed].
  - rewrite Hnone. reflexivity.
  - exact Hnone.
  - rewrite Href. apply clearInterval_same.
  - exact Href.
Qed.

Lemma tracked_perform (now : Z) (c : Lifecycle.Call)
      (acc : Lifecycle.State * list Z) :
  Lifecycle.tracked (fst acc) ->
  Lifecycle.tracked (fst (Lifecycle.perform p now acc c)).
Proof.
  intros Ht. destruct c; cbn [Lifecycle.perform fst].
  - unfold Lifecycle.play.
    destruct (JS.notNull _); [exact Ht |].
    destruct (_ && _); [exact Ht |]. right. reflexivity.
  - unfold Lifecycle.pause. cbn [fst].
    destruct (_ && _); left; cbn [Lifecycle.installed];
      apply tracked_removeInterval; exact Ht.
  - left. cbn [Lifecycle.reset Lifecycle.installed].
    apply tracked_removeInterval. exact Ht.
  - exact Ht.
Qed.

Lemma tracked_finishEffect (now : Z) (h : Lifecycle.State) :
  Lifecycle.tracked h -> Lifecycle.tracked (Lifecycle.finishEffect p now h).
Proof.
  intros Ht. unfold Lifecycle.finishEffect.
  destruct (_ && _); [| exact Ht].
  left. cbn [Lifecycle.installed]. apply tracked_removeInterval. exact Ht.
Qed.

Lemma tracked_render (now : Z) (h : Lifecycle.State) :
  Lifecycle.tracked h -> Lifecycle.tracked (Lifecycle.render p f now h).
Proof.
  intros Ht. unfold Lifecycle.render. apply tracked_finishEffect.
  destruct (Lifecycle.isSame f); [exact Ht |].
  unfold Lifecycle.tracked, Lifecycle.cleanup, Lifecycle.rebuild in *.
  cbn [Lifecycle.installed Lifecycle.cell intervalId] in *.
  destruct (intervalId (Lifecycle.cell h)) as [id |] eqn:Hid.
  - destruct Ht as [-> | ->]; [left; reflexivity |].
    left. apply clearInterval_same.
  - exact Ht.
Qed.

Lemma tracked_commit (now : Z) (h : Lifecycle.State) :
  Lifecycle.tracked h -> Lifecycle.tracked (Lifecycle.commit p f now h).
Proof.
  intros Ht. unfold Lifecycle.commit.
  destruct (_ =? _); [exact Ht |].
  destruct (_ =? _); repeat apply tracked_render; exact Ht.
Qed.

Lemma tracked_step (e : Lifecycle.Event) (h : Lifecycle.State) :
  Lifecycle.tracked h -> Lifecycle.tracked (fst (Lifecycle.step p f h e)).
Proof.
  intros Ht. destruct e as [now calls | now]; cbn [Lifecycle.step].
  - cbn [fst]. apply tracked_commit.
    change h with (fst (h, @nil Z)) in Ht.
    generalize dependent (h, @nil Z).
    induction calls as [| c calls IH]; intros acc Hacc; [exact Hacc |].
    cbn [fold_left]. apply IH. apply tracked_perform. exact Hacc.
  - destruct (Lifecycle.installed h) eqn:Hin; [| exact Ht].
    cbn [fst]. apply tracked_commit.
    unfold Lifecycle.tracked, Lifecycle.intervalCallback in *.
    cbn [Lifecycle.installed Lifecycle.cell].
    rewrite Hin in *. destruct Ht as [Ht | Ht]; [discriminate |].
    right. rewrite Ht. unfold intervalCallback.
    destruct (JS.falsy _); reflexivity.
Qed.

Lemma tracked_mount (now : Z) : Lifecycle.tracked (Lifecycle.mount p f now).
Proof.
  unfold Lifecycle.mount.
  assert (Ht : Lifecycle.tracked
                 (Lifecycle.finishEffect p now
                    (Lifecycle.reset
                       {| Lifecycle.cell := initial;
                          Lifecycle.rendered := 0;
                          Lifecycle.installed := None |}))).
  { apply tracked_finishEffect. left. reflexivity. }
  destruct (_ =? _); [exact Ht | apply tracked_render; exact Ht].
Qed.

Lemma tracked_run (evs : list Lifecycle.Event) (h : Lifecycle.State) :
  Lifecycle.tracked h -> Lifecycle.tracked (Lifecycle.after p f evs h).
Proof.
  unfold Lifecycle.after, Lifecycle.run.
  intros Ht. change h with (fst (h, @nil Z)) in Ht.
  generalize dependent (h, @nil Z).
  induction evs as [| e evs IH]; intros acc Hacc; [exact Hacc |].
  cbn [fold_left]. apply IH. cbn [fst]. apply tracked_step. exact Hacc.
Qed.

(** A render whose completion effect finds nothing to do changes the
    rendered value, the throttle and the installed interval only. *)
Lemma render_idle (now : Z) (h : Lifecycle.State) :
  isTimer (mode p) = false
  \/ elapsedInMs (Lifecycle.cell h) < initialTimeInMs p ->
  Lifecycle.render p f now h
  = if Lifecycle.isSame f
    then {| Lifecycle.cell := Lifecycle.cell h;
            Lifecycle.rendered := elapsedInMs (Lifecycle.cell h);
            Lifecycle.installed := Lifecycle.installed h |}
    else Lifecycle.cleanup
           (Lifecycle.rebuild
              {| Lifecycle.cell := Lifecycle.cell h;
                 Lifecycle.rendered := elapsedInMs (Lifecycle.cell h);
                 Lifecycle.installed := Lifecycle.installed h |}).
Proof.
  intros Hidle. unfold Lifecycle.render, Lifecycle.finishEffect.
  replace (isTimer (mode p)
           && (Lifecycle.rendered
                 (if Lifecycle.isSame f then _ else _) >=? initialTimeInMs p))
    with false; [reflexivity |].
  symmetry.
  replace (Lifecycle.rendered (if Lifecycle.isSame f then _ else _))
    with (elapsedInMs (Lifecycle.cell h))
    by (destruct (Lifecycle.isSame f); reflexivity).
  destruct Hidle as [-> | Hlt]; [reflexivity |].
  rewrite Z.geb_leb. apply Z.leb_gt in Hlt. rewrite Hlt.
  apply andb_false_r.
Qed.

Lemma commit_idle (now : Z) (h : Lifecycle.State) :
  isTimer (mode p) = false
  \/ elapsedInMs (Lifecycle.cell h) < initialTimeInMs p ->
  Lifecycle.commit p f now h
  = if elapsedInMs (Lifecycle.cell h) =? Lifecycle.rendered h then h
    else Lifecycle.render p f now h.
Proof.
  intros Hidle. unfold Lifecycle.commit.
  destruct (_ =? Lifecycle.rendered h); [reflexivity |].
  rewrite render_rendered, render_elapsed.
  replace (isTimer (mode p) && _) with false.
  - rewrite Z.eqb_refl. reflexivity.
  - symmetry. destruct Hidle as [-> | Hlt]; [reflexivity |].
    rewrite Z.geb_leb. apply Z.leb_gt in Hlt. rewrite Hlt.
    apply andb_false_r.
Qed.

(** The refs and the rendered value after such renders. *)
Lemma commit_idle_fields (now : Z) (h : Lifecycle.State) :
  isTimer (mode p) = false
  \/ elapsedInMs (Lifecycle.cell h) < initialTimeInMs p ->
  elapsedInMs (Lifecycle.cell (Lifecycle.commit p f now h))
  = elapsedInMs (Lifecycle.cell h)
  /\ Lifecycle.rendered (Lifecycle.commit p f now h)
     = elapsedInMs (Lifecycle.cell h)
  /\ startTime (Lifecycle.cell (Lifecycle.commit p f now h))
     = startTime (Lifecycle.cell h)
  /\ pausedTime (Lifecycle.cell (Lifecycle.commit p f now h))
     = pausedTime (Lifecycle.cell h)
  /\ intervalId (Lifecycle.cell (Lifecycle.commit p f now h))
     = intervalId (Lifecycle.cell h)
  /\ nextHandle (Lifecycle.cell (Lifecycle.commit p f now h))
     = nextHandle (Lifecycle.cell h).
Proof.
  intros Hidle. rewrite (commit_idle now h Hidle).
  destruct (_ =? Lifecycle.rendered h) eqn:Hsame.
  - apply Z.eqb_eq in Hsame. rewrite Hsame. repeat split; reflexivity.
  - rewrite (render_idle now h Hidle).
    destruct (Lifecycle.isSame f); cbn; repeat split; reflexivity.
Qed.

(** Renders leave the time references alone, and install nothing. *)
Lemma render_refs (now : Z) (h : Lifecycle.State) :
  startTime (Lifecycle.cell (Lifecycle.render p f now h))
  = startTime (Lifecycle.cell h)
  /\ pausedTime (Lifecycle.cell (Lifecycle.render p f now h))
     = pausedTime (Lifecycle.cell h)
  /\ (intervalId (Lifecycle.cell h) = None ->
      intervalId (Lifecycle.cell (Lifecycle.render p f now h)) = None).
Proof.
  unfold Lifecycle.render, Lifecycle.finishEffect.
  destruct (Lifecycle.isSame f); destruct (isTimer (mode p) && _);
    cbn [Lifecycle.cell Lifecycle.cleanup Lifecycle.rebuild startTime pausedTime
         intervalId];
    repeat split; try tauto;
    try (intros _; apply removeInterval_rendered);
    try (rewrite (proj1 (proj2 (proj2 (proj2
           (removeInterval_rendered _))))); reflexivity);
    try (rewrite (proj2 (proj2 (proj2 (proj2
           (removeInterval_rendered _))))); reflexivity).
Qed.

Lemma commit_refs (now : Z) (h : Lifecycle.State) :
  startTime (Lifecycle.cell (Lifecycle.commit p f now h))
  = startTime (Lifecycle.cell h)
  /\ pausedTime (Lifecycle.cell (Lifecycle.commit p f now h))
     = pausedTime (Lifecycle.cell h)
  /\ (intervalId (Lifecycle.cell h) = None ->
      intervalId (Lifecycle.cell (Lifecycle.commit p f now h)) = None).
Proof.
  unfold Lifecycle.commit.
  destruct (_ =? Lifecycle.rendered h); [tauto |].
  destruct (render_refs now h) as [Hst [Hpa Hid]].
  destruct (_ =? _); [tauto |].
  destruct (render_refs now (Lifecycle.render p f now h))
    as [Hst' [Hpa' Hid']].
  rewrite Hst', Hpa', Hst, Hpa. auto.
Qed.

End Renders.

End LifecycleFacts.

(** C4, at a concrete input.  [throttle(f, 100)] is called with ["a"] at
    1000 (applied at once), with ["b"] at 1010 and with ["c"] at 1020.
    After the second call one timer is pending, due at the end of the
    window (1100), and the third call leaves it alone; when it runs, [f]
    is applied once more, to ["b"]: the arguments of the call that armed
    the timer, not those of the most recent call, ["c"]. *)
Theorem trailing_call_gets_first_arguments :
  Throttle.timeout
    (Throttle.run Scenario.echo 100 Throttle.noOptions
       [Throttle.Call 1000 "a"%string; Throttle.Call 1010 "b"%string;
        Throttle.Call 1020 "c"%string]
       (Throttle.init string string))
  = Some {| Throttle.due := 1100; Throttle.capturedArgs := "b"%string |}
  /\ Throttle.calls Scenario.afterThreeCalls
     = [(1100, "b"%string); (1000, "a"%string)]
  /\ Throttle.appliedArgs Scenario.afterThreeCalls
     <> ["a"%string; "c"%string].
Proof.
  split; [reflexivity | split; [reflexivity |]].
  intros H. vm_compute in H. discriminate H.
Qed.




(** C1, at a concrete input.  A timer of 5000 ms is given one [onFinish]
    function, is played at mount and fires every 16 ms; the firing 5008 ms
    after the start ends it.  As the claim says, the interval is then
    removed, the stored elapsed time is exactly 5000 and [onFinish] has
    run once, and the later firings and calls of [play] and [pause] of
    [Scenario.afterwards] change none of this.  [getSnapshot()] however
    returns [|5000 - 5000| = 0], where the claim, and the documentation
    of the method (it returns the current elapsed time in milliseconds),
    say 5000. *)
Theorem finished_timer_snapshot_is_zero :
  Timer.elapsedInMs (Lifecycle.cell Session.finishedTimer) = 5000
  /\ Lifecycle.rendered Session.finishedTimer = 5000
  /\ Lifecycle.installed Session.finishedTimer = None
  /\ Timer.intervalId (Lifecycle.cell Session.finishedTimer) = None
  /\ Timer.finishCount (Lifecycle.cell Session.finishedTimer) = 1%nat
  /\ Lifecycle.returned Scenario.timer5000 Lifecycle.SameFunction
       [Lifecycle.Handler (Scenario.t0 + 5100) [Lifecycle.CallGetSnapshot]]
       Session.finishedTimer
     = [0]
  /\ Timer.elapsedInMs
       (Lifecycle.cell
          (Lifecycle.after Scenario.timer5000 Lifecycle.SameFunction
             Session.later Session.finishedTimer))
     = 5000
  /\ Timer.finishCount
       (Lifecycle.cell
          (Lifecycle.after Scenario.timer5000 Lifecycle.SameFunction
             Session.later Session.finishedTimer))
     = 1%nat
  /\ Lifecycle.returned Scenario.timer5000 Lifecycle.SameFunction
       (Session.later
        ++ [Lifecycle.Handler (Scenario.t0 + 9000) [Lifecycle.CallGetSnapshot]])
       Session.finishedTimer
     = [0; 0].
Proof.
  repeat split; vm_compute; reflexivity.
Qed.

(** C2, at concrete inputs.  [reset()] and then, from a later handler,
    [getSnapshot()]: the number returned is 5000 when
    [initialTimeInMs = 5000], on the finished timer and on a stopwatch
    whose [onFinish] is left out.  Called from the handler that called
    [reset()], [getSnapshot()] returns the snapshot of the last render:
    992 on the default stopwatch that has run for a second.  The claim,
    and the documentation of the method, say 0 each time. *)
Theorem reset_snapshot_is_not_zero :
  Lifecycle.returned Scenario.timer5000 Lifecycle.SameFunction
    [ Lifecycle.Handler (Scenario.t0 + 9000) [Lifecycle.CallReset];
      Lifecycle.Handler (Scenario.t0 + 9100) [Lifecycle.CallGetSnapshot] ]
    Session.finishedTimer
  = [5000]
  /\ Lifecycle.returned Scenario.stopwatchFrom5000
       Lifecycle.NewFunctionEachRender
       [ Lifecycle.Handler (Scenario.t0 + 100) [Lifecycle.CallReset];
         Lifecycle.Handler (Scenario.t0 + 200) [Lifecycle.CallGetSnapshot] ]
       (Lifecycle.mount Scenario.stopwatchFrom5000
          Lifecycle.NewFunctionEachRender Scenario.t0)
     = [5000]
  /\ Lifecycle.returned Scenario.stopwatch Lifecycle.SameFunction
       [ Lifecycle.Handler (Scenario.t0 + 1000)
           [Lifecycle.CallReset; Lifecycle.CallGetSnapshot] ]
       (Session.oneSecond Lifecycle.SameFunction)
     = [992].
Proof.
  repeat split; vm_compute; reflexivity.
Qed.

(** C7.  [pause()] called twice in a row, no tick in between, returns the
    same snapshot and leaves the same state both times, when the two
    calls read the same value of the clock or the first reads a value
    other than 0 (the clock counts from the epoch); [play()] on an engine
    whose interval is installed changes nothing. *)
Theorem pause_and_play_idempotent
        (p : Timer.Props) (s : Timer.State) (now1 now2 : Z) :
  now1 <> 0 \/ now2 = now1 ->
  Timer.pause p now2 (fst (Timer.pause p now1 s)) = Timer.pause p now1 s
  /\ Timer.step p (Timer.step p s (Timer.Pause now1)) (Timer.Pause now2)
     = Timer.step p s (Timer.Pause now1)
  /\ (JS.notNull (Timer.intervalId s) = true ->
      Timer.play p now2 s = s /\ Timer.step p s (Timer.Play now2) = s).
Proof.
  intros Hnow.
  assert (Hpause : Timer.pause p now2 (fst (Timer.pause p now1 s))
                   = Timer.pause p now1 s).
  { unfold Timer.pause. cbn [fst].
    destruct (JS.falsy (Timer.pausedTime (Timer.removeInterval s))
              && (Timer.elapsedInMs (Timer.removeInterval s) >? 0)) eqn:Hrec.
    - cbn [Timer.removeInterval Timer.pausedTime Timer.elapsedInMs
           Timer.startTime Timer.intervalId Timer.finish Timer.nextHandle
           JS.falsy].
      destruct Hnow as [Hnow | ->].
      + apply Z.eqb_neq in Hnow. rewrite Hnow. reflexivity.
      + apply andb_true_iff in Hrec as [_ Hpos].
        cbn [Timer.removeInterval Timer.elapsedInMs] in Hpos.
        rewrite Hpos. destruct (now1 =? 0); reflexivity.
    - cbn [Timer.removeInterval Timer.pausedTime Timer.elapsedInMs
           Timer.startTime Timer.intervalId Timer.finish Timer.nextHandle]
        in *.
      rewrite Hrec. reflexivity. }
  split; [exact Hpause | split].
  - rewrite !TimerFacts.step_unchanged
      by (cbn [Timer.handle]; apply TimerFacts.pause_elapsed).
    cbn [Timer.handle]. rewrite Hpause. reflexivity.
  - intros Hrunning.
    assert (Hplay : Timer.play p now2 s = s)
      by (unfold Timer.play; rewrite Hrunning; reflexivity).
    split; [exact Hplay |].
    rewrite TimerFacts.step_unchanged
      by (cbn [Timer.handle]; apply TimerFacts.play_elapsed).
    exact Hplay.
Qed.

(** The stopwatch of [Scenario.running], paused at 1000 ms and again at
    1200 ms, or played once more. *)
Lemma pause_and_play_idempotent_witness :
  Timer.pause Scenario.stopwatch (Scenario.t0 + 1200)
    (fst (Timer.pause Scenario.stopwatch (Scenario.t0 + 1000)
            Scenario.running))
  = Timer.pause Scenario.stopwatch (Scenario.t0 + 1000) Scenario.running
  /\ Timer.play Scenario.stopwatch (Scenario.t0 + 1200) Scenario.running
     = Scenario.running.
Proof.
  assert (Hnow : Scenario.t0 + 1000 <> 0
                 \/ Scenario.t0 + 1200 = Scenario.t0 + 1000)
    by (left; vm_compute; discriminate).
  destruct (pause_and_play_idempotent Scenario.stopwatch Scenario.running
              (Scenario.t0 + 1000) (Scenario.t0 + 1200) Hnow)
    as [Hpause [_ Hplay]].
  assert (Hrunning : JS.notNull (Timer.intervalId Scenario.running) = true)
    by (vm_compute; reflexivity).
  split; [exact Hpause | exact (proj1 (Hplay Hrunning))].
Defined.

(** C9.  In timer mode with no [initialTimeInMs] given (so 0), [play()]
    on the freshly mounted engine returns early and changes nothing, and
    whatever is called afterwards, and whenever, the interval is never
    installed, the stored elapsed time stays 0 and [getSnapshot()] keeps
    returning 0. *)
Theorem timer_without_initial_time_never_starts
        (a : Timer.Args) (mountedAt : Z) :
  Timer.argInitialTimeInMs a = None ->
  Timer.argMode a = Some Timer.TimerMode ->
  (forall now : Z,
      Timer.play (Timer.props a) now (Timer.mount (Timer.props a) mountedAt)
      = Timer.mount (Timer.props a) mountedAt)
  /\ (forall evs : list Timer.Event,
      Timer.intervalId
        (Timer.run (Timer.props a) evs
           (Timer.mount (Timer.props a) mountedAt)) = None
      /\ Timer.elapsedInMs
           (Timer.run (Timer.props a) evs
              (Timer.mount (Timer.props a) mountedAt)) = 0
      /\ Timer.getSnapshot (Timer.props a)
           (Timer.run (Timer.props a) evs
              (Timer.mount (Timer.props a) mountedAt)) = 0).
Proof.
  intros Hinit Hmode.
  set (p := Timer.props a).
  assert (Hp0 : Timer.initialTimeInMs p = 0)
    by (unfold p, Timer.props; cbn; rewrite Hinit; reflexivity).
  assert (Hpm : Timer.mode p = Timer.TimerMode)
    by (unfold p, Timer.props; cbn; rewrite Hmode; reflexivity).
  clearbody p.
  assert (Hmount : Timer.finished p (Timer.mount p mountedAt)).
  { unfold Timer.mount.
    rewrite (TimerFacts.finishEffect_fires p mountedAt
               (Timer.reset Timer.initial))
      by (rewrite ?Hpm, ?Hp0; cbn; auto; lia).
    cbn [Timer.elapsedInMs Timer.initial]. rewrite Hp0. cbn [Z.eqb].
    split; [reflexivity | cbn; lia]. }
  (* every event, [reset] included, keeps the engine in that state *)
  assert (Hstep : forall e s, Timer.finished p s ->
                              Timer.finished p (Timer.step p s e)).
  { intros e s Hfin.
    destruct (Timer.isReset e) eqn:Hreset.
    - destruct e as [now | now | now | now]; try discriminate Hreset.
      destruct Hfin as [Hid Hel].
      rewrite TimerFacts.step_unchanged
        by (cbn [Timer.handle]; cbn; lia).
      split; [reflexivity | cbn; lia].
    - apply (TimerFacts.finished_step p e s Hpm Hreset Hfin). }
  assert (Hrun : forall evs s, Timer.finished p s ->
                               Timer.finished p (Timer.run p evs s)).
  { induction evs as [| e evs IH]; intros s Hfin; [exact Hfin |].
    rewrite TimerFacts.run_cons. apply IH, Hstep, Hfin. }
  split.
  - intros now. destruct Hmount as [Hid Hel].
    unfold Timer.play. rewrite Hid, Hel, Hp0, Hpm. reflexivity.
  - intros evs. destruct (Hrun evs _ Hmount) as [Hid Hel].
    rewrite (TimerFacts.finished_snapshot p _ Hpm (conj Hid Hel)).
    rewrite Hid, Hel, Hp0. auto.
Qed.

(** A timer without initial time, mounted at [Scenario.t0]. *)
Lemma timer_without_initial_time_never_starts_witness :
  Timer.play Scenario.timerNoInitialTime (Scenario.t0 + 50)
    (Timer.mount Scenario.timerNoInitialTime Scenario.t0)
  = Timer.mount Scenario.timerNoInitialTime Scenario.t0
  /\ Timer.getSnapshot Scenario.timerNoInitialTime
       (Timer.run Scenario.timerNoInitialTime
          [Timer.Play (Scenario.t0 + 50); Timer.Tick (Scenario.t0 + 66);
           Timer.Reset (Scenario.t0 + 100); Timer.Play (Scenario.t0 + 200);
           Timer.Tick (Scenario.t0 + 216); Timer.Pause (Scenario.t0 + 300)]
          (Timer.mount Scenario.timerNoInitialTime Scenario.t0))
     = 0.
Proof.
  destruct (timer_without_initial_time_never_starts
              {| Timer.argInitialTimeInMs := None;
                 Timer.argMode := Some Timer.TimerMode;
                 Timer.argIntervalMs := None;
                 Timer.argNeedHour := false |}
              Scenario.t0 eq_refl eq_refl) as [Hplay Hrun].
  split.
  - exact (Hplay (Scenario.t0 + 50)).
  - exact (proj2 (proj2 (Hrun _))).
Defined.

(** ** A stopwatch that is paused and resumed *)

Module StopwatchFacts.

Import Timer Scenario.

Section Hook.

Variable p : Props.

(** In stopwatch mode the completion effect never does anything. *)
Lemma stopwatch_step (e : Event) (s : State) :
  mode p = Stopwatch -> step p s e = handle p e s.
Proof.
  intros Hmode. unfold step, commit.
  rewrite !TimerFacts.finishEffect_idle
    by (left; rewrite Hmode; reflexivity).
  rewrite Z.eqb_refl. destruct (_ =? _); reflexivity.
Qed.

(** A tick of a running engine with no pause to account for stores the
    time since the start reference. *)
Lemma tick_samples (now : Z) (s : State) :
  JS.notNull (intervalId s) = true ->
  JS.falsy (pausedTime s) = true ->
  handle p (Tick now) s
  = setElapsedInMs (now - JS.toNumber (startTime s)) s.
Proof.
  intros Hid Hpaused. cbn [handle]. rewrite Hid.
  unfold intervalCallback. rewrite Hpaused. reflexivity.
Qed.

(** So does a row of ticks: the last one counts. *)
Lemma ticks_sample (n : nat) :
  mode p = Stopwatch ->
  forall (start : Z) (s : State),
    JS.notNull (intervalId s) = true ->
    JS.falsy (pausedTime s) = true ->
    run p (ticksFrom p start (S n)) s
    = setElapsedInMs
        (start + Z.of_nat (S n) * intervalMs p
         - JS.toNumber (startTime s)) s.
Proof.
  intros Hmode.
  induction n as [| n IH]; intros start s Hid Hpaused.
  - cbn [ticksFrom]. rewrite TimerFacts.run_cons. cbn [run fold_left].
    rewrite stopwatch_step, tick_samples by assumption.
    f_equal. lia.
  - change (ticksFrom p start (S (S n)))
      with (Tick (start + intervalMs p)
              :: ticksFrom p (start + intervalMs p) (S n)).
    rewrite TimerFacts.run_cons.
    rewrite stopwatch_step, tick_samples by assumption.
    rewrite IH by assumption.
    unfold setElapsedInMs.
    cbn [startTime pausedTime intervalId finish nextHandle].
    f_equal. lia.
Qed.
End Hook.

(** *** The scenario, for a stopwatch mounted and played at [t] *)

Section Legs.

Variable p : Props.
Variable t : Z.
Hypothesis Hmode : mode p = Stopwatch.
Hypothesis Ht : 0 < t.

Lemma mount_stopwatch : mount p t = initial.
Proof.
  unfold mount.
  rewrite TimerFacts.finishEffect_idle by (left; rewrite Hmode; reflexivity).
  reflexivity.
Qed.

(** At least one tick falls in a duration that is no shorter than the
    period. *)
Lemma count_succ (d : Z) :
  0 < intervalMs p <= d ->
  exists m : nat,
    Z.to_nat (d / intervalMs p) = S m
    /\ Z.of_nat (S m) = d / intervalMs p.
Proof.
  intros Hi.
  assert (Hq : 1 <= d / intervalMs p)
    by (apply Z.div_le_lower_bound; lia).
  exists (Nat.pred (Z.to_nat (d / intervalMs p))).
  assert (Hs : S (Nat.pred (Z.to_nat (d / intervalMs p)))
               = Z.to_nat (d / intervalMs p)) by lia.
  split; [symmetry; exact Hs |].
  rewrite Hs. apply Z2Nat.id. lia.
Qed.

(** After [play()], 1000 ms and [pause()]: the last sample was taken at
    the last multiple of the period, and the pause is on record. *)
Lemma first_leg_state :
  0 < intervalMs p <= 1000 ->
  run p (firstLeg p t) (mount p t)
  = {| elapsedInMs := 1000 / intervalMs p * intervalMs p;
       startTime := Some t;
       pausedTime := Some (t + 1000);
       intervalId := None;
       finish := Throttle.init unit unit;
       nextHandle := 2%positive |}.
Proof.
  intros Hi.
  destruct (count_succ 1000 Hi) as [m [Hcount Hm]].
  assert (Hq : 1 <= 1000 / intervalMs p)
    by (apply Z.div_le_lower_bound; lia).
  unfold firstLeg, advance. rewrite mount_stopwatch, Hcount.
  rewrite TimerFacts.run_cons, TimerFacts.run_app.
  rewrite stopwatch_step by exact Hmode.
  cbn [handle]. unfold play, initial.
  cbn [intervalId JS.notNull elapsedInMs].
  rewrite Hmode. cbn [isTimer]. rewrite andb_false_r.
  cbn [startTime JS.falsy pausedTime finish nextHandle].
  rewrite ticks_sample by (auto; reflexivity).
  rewrite Hm.
  cbn [run fold_left]. rewrite stopwatch_step by exact Hmode.
  cbn [handle]. unfold pause, setElapsedInMs, removeInterval.
  cbn [fst startTime pausedTime intervalId finish nextHandle elapsedInMs
       JS.falsy JS.toNumber andb].
  replace (t + 1000 / intervalMs p * intervalMs p - t)
    with (1000 / intervalMs p * intervalMs p) by lia.
  replace (1000 / intervalMs p * intervalMs p >? 0) with true
    by (symmetry; apply Z.gtb_lt; nia).
  reflexivity.
Qed.

(** [play()] again, 2000 ms later, only installs a new interval. *)
Lemma resumed_state :
  0 < intervalMs p <= 1000 ->
  run p (firstLeg p t ++ resume t) (mount p t)
  = {| elapsedInMs := 1000 / intervalMs p * intervalMs p;
       startTime := Some t;
       pausedTime := Some (t + 1000);
       intervalId := Some 2%positive;
       finish := Throttle.init unit unit;
       nextHandle := 3%positive |}.
Proof.
  intros Hi. rewrite TimerFacts.run_app, first_leg_state by exact Hi.
  unfold resume. cbn [run fold_left].
  rewrite stopwatch_step by exact Hmode.
  cbn [handle]. unfold play.
  cbn [intervalId JS.notNull elapsedInMs startTime pausedTime finish
       nextHandle JS.falsy].
  rewrite Hmode. cbn [isTimer]. rewrite andb_false_r.
  replace (t =? 0) with false by (symmetry; apply Z.eqb_neq; lia).
  reflexivity.
Qed.

(** After 500 ms more and [pause()]: the first tick moved the start
    reference to [t + 2000 + intervalMs], the later ones sampled against
    it. *)
Lemma pause_resume_state :
  0 < intervalMs p <= 250 ->
  run p (pauseResume p t) (mount p t)
  = {| elapsedInMs := 1000 + (500 / intervalMs p - 1) * intervalMs p;
       startTime := Some (t + 2000 + intervalMs p);
       pausedTime := Some (t + 3500);
       intervalId := None;
       finish := Throttle.init unit unit;
       nextHandle := 3%positive |}.
Proof.
  intros Hi.
  assert (Hq : 2 <= 500 / intervalMs p)
    by (apply Z.div_le_lower_bound; lia).
  destruct (count_succ 500 ltac:(lia)) as [m [Hcount Hm]].
  destruct m as [| m]; [cbn in Hm; lia |].
  unfold pauseResume, secondLeg, advance.
  rewrite app_assoc, TimerFacts.run_app, resumed_state by lia.
  rewrite Hcount, TimerFacts.run_app.
  change (ticksFrom p (t + 3000) (S (S m)))
    with (Tick (t + 3000 + intervalMs p)
            :: ticksFrom p (t + 3000 + intervalMs p) (S m)).
  rewrite (TimerFacts.run_cons p (Tick (t + 3000 + intervalMs p))).
  rewrite (stopwatch_step p (Tick (t + 3000 + intervalMs p))) by exact Hmode.
  cbn [handle intervalId JS.notNull]. unfold intervalCallback.
  cbn [pausedTime JS.falsy].
  replace (t + 1000 =? 0) with false by (symmetry; apply Z.eqb_neq; lia).
  cbn [elapsedInMs startTime JS.toNumber intervalId finish nextHandle].
  rewrite ticks_sample by (auto; reflexivity).
  cbn [run fold_left]. rewrite stopwatch_step by exact Hmode.
  cbn [handle]. unfold pause, setElapsedInMs, removeInterval.
  cbn [fst startTime pausedTime intervalId finish nextHandle elapsedInMs
       JS.falsy JS.toNumber andb].
  replace (t + 3000 + intervalMs p + Z.of_nat (S m) * intervalMs p
           - (t + (t + 3000 + intervalMs p - (t + 1000))))
    with (1000 + (500 / intervalMs p - 1) * intervalMs p)
    by (rewrite <- Hm, (Nat2Z.inj_succ (S m)); lia).
  replace (1000 + (500 / intervalMs p - 1) * intervalMs p >? 0) with true
    by (symmetry; apply Z.gtb_lt; nia).
  f_equal. f_equal. lia.
Qed.
End Legs.

End StopwatchFacts.

(** The adjustment at the first tick after a resume, and the numbers of
    the scenario in a run of module [Timer]. *)
Lemma pause_resume_figures
        (p : Timer.Props) (s : Timer.State) (pausedAt now1 now2 t : Z) :
  (Timer.pausedTime s = Some pausedAt ->
   pausedAt <> 0 ->
   Timer.intervalCallback now1 s
   = {| Timer.elapsedInMs := Timer.elapsedInMs s;
        Timer.startTime :=
          Some (JS.toNumber (Timer.startTime s) + (now1 - pausedAt));
        Timer.pausedTime := None;
        Timer.intervalId := Timer.intervalId s;
        Timer.finish := Timer.finish s;
        Timer.nextHandle := Timer.nextHandle s |}
   /\ Timer.elapsedInMs
        (Timer.intervalCallback now2 (Timer.intervalCallback now1 s))
      = now2 - JS.toNumber (Timer.startTime s) - (now1 - pausedAt))
  /\ (Timer.mode p = Timer.Stopwatch ->
      Timer.initialTimeInMs p = 0 ->
      0 < Timer.intervalMs p <= 250 ->
      0 < t ->
      snd (Timer.pause p (t + 1000)
             (Timer.run p (Timer.Play t :: Timer.advance p t 1000)
                (Timer.mount p t)))
      = 1000 / Timer.intervalMs p * Timer.intervalMs p
      /\ Timer.getSnapshot p
           (Timer.run p (Scenario.pauseResume p t) (Timer.mount p t))
         = 1000 + (500 / Timer.intervalMs p - 1) * Timer.intervalMs p
      /\ 1500 - 2 * Timer.intervalMs p
         < Timer.getSnapshot p
             (Timer.run p (Scenario.pauseResume p t) (Timer.mount p t))
         <= 1500 - Timer.intervalMs p).
Proof.
  split.
  - intros Hpaused Hnz.
    assert (Hfirst :
              Timer.intervalCallback now1 s
              = {| Timer.elapsedInMs := Timer.elapsedInMs s;
                   Timer.startTime :=
                     Some (JS.toNumber (Timer.startTime s)
                           + (now1 - pausedAt));
                   Timer.pausedTime := None;
                   Timer.intervalId := Timer.intervalId s;
                   Timer.finish := Timer.finish s;
                   Timer.nextHandle := Timer.nextHandle s |}).
    { unfold Timer.intervalCallback. rewrite Hpaused. cbn [JS.falsy].
      apply Z.eqb_neq in Hnz. rewrite Hnz. reflexivity. }
    split; [exact Hfirst |].
    rewrite Hfirst. unfold Timer.intervalCallback. cbn. lia.
  - intros Hmode Hinit Hi Ht.
    assert (Hsnap : forall x, Timer.getSnapshot p x
                              = Z.abs (Timer.elapsedInMs x)).
    { intros x. unfold Timer.getSnapshot, Timer.direction.
      rewrite Hinit, Hmode. cbn [Timer.isTimer]. f_equal. lia. }
    assert (Hfirst := StopwatchFacts.first_leg_state p t Hmode ltac:(lia)).
    assert (Hlast := StopwatchFacts.pause_resume_state p t Hmode Ht Hi).
    assert (Hq1 : 0 <= 1000 / Timer.intervalMs p) by (apply Z.div_pos; lia).
    assert (Hq2 : 2 <= 500 / Timer.intervalMs p)
      by (apply Z.div_le_lower_bound; lia).
    assert (Hrem : 0 <= 500 mod Timer.intervalMs p < Timer.intervalMs p)
      by (apply Z.mod_pos_bound; lia).
    assert (Hdiv : 500 = Timer.intervalMs p * (500 / Timer.intervalMs p)
                         + 500 mod Timer.intervalMs p)
      by (apply Z.div_mod; lia).
    split; [| split].
    + assert (Hrun :
                Timer.run p (Scenario.firstLeg p t) (Timer.mount p t)
                = fst (Timer.pause p (t + 1000)
                         (Timer.run p (Timer.Play t :: Timer.advance p t 1000)
                            (Timer.mount p t)))).
      { unfold Scenario.firstLeg.
        change (Timer.Play t
                  :: Timer.advance p t 1000 ++ [Timer.Pause (t + 1000)])
          with ((Timer.Play t :: Timer.advance p t 1000)
                  ++ [Timer.Pause (t + 1000)]).
        rewrite TimerFacts.run_app.
        change (Timer.run p [Timer.Pause (t + 1000)] ?x)
          with (Timer.step p x (Timer.Pause (t + 1000))).
        rewrite StopwatchFacts.stopwatch_step by exact Hmode.
        reflexivity. }
      change (snd (Timer.pause p (t + 1000) ?x))
        with (Timer.getSnapshot p (fst (Timer.pause p (t + 1000) x))).
      rewrite <- Hrun, Hfirst, Hsnap.
      cbn [Timer.elapsedInMs]. apply Z.abs_eq. nia.
    + rewrite Hlast, Hsnap. cbn [Timer.elapsedInMs]. apply Z.abs_eq. nia.
    + rewrite Hlast, Hsnap. cbn [Timer.elapsedInMs].
      rewrite Z.abs_eq by nia. nia.
Qed.

(** *** The numbers returned along a run *)

Module SessionFacts.

Import Timer.

Section Hook.

Variable p : Props.

Lemma answers_app (evs1 evs2 : list Event) (s : State) :
  Lifecycle.answers p (evs1 ++ evs2) s
  = Lifecycle.answers p evs1 s ++ Lifecycle.answers p evs2 (run p evs1 s).
Proof.
  revert s. induction evs1 as [| e evs1 IH]; intros s; [reflexivity |].
  cbn [app Lifecycle.answers]. rewrite IH, TimerFacts.run_cons.
  rewrite app_assoc. reflexivity.
Qed.

Lemma answers_ticks (n : nat) (start : Z) (s : State) :
  Lifecycle.answers p (ticksFrom p start n) s = [].
Proof.
  revert start s. induction n as [| n IH]; intros start s; [reflexivity |].
  cbn [ticksFrom Lifecycle.answers app]. apply IH.
Qed.

Lemma answers_snoc (evs : list Event) (now : Z) (s : State) :
  Lifecycle.answers p (evs ++ [Pause now]) s
  = Lifecycle.answers p evs s ++ [snd (pause p now (run p evs s))].
Proof. rewrite answers_app. reflexivity. Qed.

Lemma run_snoc (evs : list Event) (e : Event) (s : State) :
  run p (evs ++ [e]) s = step p (run p evs s) e.
Proof. rewrite TimerFacts.run_app. reflexivity. Qed.

(** The two numbers the scenario returns in a run of module [Timer]. *)
Lemma pause_resume_answers (t : Z) :
  mode p = Stopwatch ->
  Lifecycle.answers p (Scenario.pauseResume p t) (mount p t)
  = [ snd (pause p (t + 1000)
             (run p (Play t :: advance p t 1000) (mount p t)));
      getSnapshot p (run p (Scenario.pauseResume p t) (mount p t)) ].
Proof.
  intros Hmode.
  unfold Scenario.pauseResume, Scenario.firstLeg, Scenario.resume,
    Scenario.secondLeg, advance.
  set (A := ticksFrom p t _). set (B := ticksFrom p (t + 3000) _).
  assert (HA : forall s, Lifecycle.answers p A s = [])
    by (intros s; apply answers_ticks).
  assert (HB : forall s, Lifecycle.answers p B s = [])
    by (intros s; apply answers_ticks).
  assert (Hlist : (Play t :: A ++ [Pause (t + 1000)])
                    ++ [Play (t + 3000)] ++ B ++ [Pause (t + 3500)]
                  = (Play t :: A ++ [Pause (t + 1000)] ++ [Play (t + 3000)]
                       ++ B) ++ [Pause (t + 3500)]).
  { cbn [app]. rewrite <- !app_assoc. reflexivity. }
  rewrite Hlist. clear Hlist.
  set (before := Play t :: A ++ [Pause (t + 1000)] ++ [Play (t + 3000)] ++ B).
  rewrite answers_snoc, run_snoc.
  rewrite (StopwatchFacts.stopwatch_step p (Pause (t + 3500))) by exact Hmode.
  cbn [handle].
  change (getSnapshot p (fst (pause p (t + 3500) (run p before (mount p t)))))
    with (snd (pause p (t + 3500) (run p before (mount p t)))).
  replace (Lifecycle.answers p before (mount p t))
    with [snd (pause p (t + 1000) (run p (Play t :: A) (mount p t)))];
    [reflexivity |].
  subst before. cbn [Lifecycle.answers app].
  rewrite (answers_app A), HA. cbn [app Lifecycle.answers].
  rewrite HB. reflexivity.
Qed.

End Hook.

End SessionFacts.




(** ** Animation configuration *)

Set Warnings "-inexact-float".

Module AnimationFacts.

Import Animation.
Local Open Scope string_scope.

(** The three names of [validPresets] are the keys of the table. *)
Lemma includes_validPresets (name : string) :
  includes validPresets name = true <->
  name = "smooth" \/ name = "bouncy" \/ name = "quick".
Proof.
  unfold includes, validPresets. cbn [existsb].
  rewrite !orb_true_iff, !String.eqb_eq. intuition discriminate.
Qed.

(** A name that is not one of the three is replaced by ['smooth']. *)
Lemma selectedPreset_fallback (pr : Props) :
  ~ List.In (animationPreset pr) validPresets ->
  selectedPreset pr = "smooth".
Proof.
  intros Hout. unfold selectedPreset.
  destruct (includes validPresets (animationPreset pr)) eqn:Hin;
    [| reflexivity].
  exfalso. apply Hout. apply includes_validPresets in Hin.
  cbn. intuition.
Qed.

(** The timing of the configuration does not depend on the preset or on
    the choice between spring and timing. *)
Lemma base_animationConfig (pr : Props) :
  base (animationConfig pr) = baseConfig pr.
Proof.
  unfold animationConfig. destruct (useSpringAnimation pr); reflexivity.
Qed.

(** With the default duration of 200 ms and delay of 0 ms, performance
    mode animates for 140 ms after no delay. *)
Example performance_defaults :
  baseConfig
    {| animationDelay := DEFAULT_ANIMATION_DELAY;
       animationDistance := DEFAULT_ANIMATION_DISTANCE;
       animationDuration := DEFAULT_ANIMATION_DURATION;
       animationPreset := "smooth";
       useSpringAnimation := false;
       performanceMode := "performance" |}
  = {| duration := 140; delay := 0; distance := 80 |}.
Proof. vm_compute. reflexivity. Qed.

End AnimationFacts.

(** C8.  For every configured [animationDuration], [animationDelay] (and
    whatever the other animation props are), [performanceMode =
    'performance'] gives the configuration the duration
    [animationDuration * 0.7] and the delay [animationDelay * 0.5], the
    products being those of JavaScript numbers; ['balanced'] and
    ['quality'] give it the configured duration and delay themselves. *)
Theorem performance_mode_scaling
        (animationDelay animationDistance animationDuration : float)
        (animationPreset : string) (useSpringAnimation : bool) :
  let config mode :=
    Animation.animationConfig
      {| Animation.animationDelay := animationDelay;
         Animation.animationDistance := animationDistance;
         Animation.animationDuration := animationDuration;
         Animation.animationPreset := animationPreset;
         Animation.useSpringAnimation := useSpringAnimation;
         Animation.performanceMode := mode |} in
  (Animation.duration (Animation.base (config "performance"%string))
   = PrimFloat.mul animationDuration 0.7%float
   /\ Animation.delay (Animation.base (config "performance"%string))
      = PrimFloat.mul animationDelay 0.5%float)
  /\ (Animation.duration (Animation.base (config "balanced"%string))
      = animationDuration
      /\ Animation.delay (Animation.base (config "balanced"%string))
         = animationDelay)
  /\ (Animation.duration (Animation.base (config "quality"%string))
      = animationDuration
      /\ Animation.delay (Animation.base (config "quality"%string))
         = animationDelay).
Proof.
  cbv beta zeta. rewrite !AnimationFacts.base_animationConfig.
  repeat split; reflexivity.
Qed.

(** C10.  For every [animationPreset] that is not one of ['smooth'],
    ['bouncy'] and ['quick'] (the accepted value ['custom'] is one such),
    the preset selected is ['smooth'], and the spring a digit is animated
    with, when springs are in use, has damping 20, stiffness 200 and mass
    0.8. *)
Theorem unknown_preset_is_smooth (pr : Animation.Props) :
  ~ List.In (Animation.animationPreset pr) Animation.validPresets ->
  Animation.selectedPreset pr = "smooth"%string
  /\ Animation.preset pr
     = Some {| Animation.damping := 20;
               Animation.stiffness := 200;
               Animation.mass := 0.8 |}
  /\ (Animation.useSpringAnimation pr = true ->
      Animation.spring (Animation.animationConfig pr)
      = Some {| Animation.damping := 20;
                Animation.stiffness := 200;
                Animation.mass := 0.8 |}
      /\ Animation.digitCurve pr = Animation.WithSpring 20 200 0.8).
Proof.
  intros Hout.
  pose proof (AnimationFacts.selectedPreset_fallback pr Hout) as Hsel.
  assert (Hpreset : Animation.preset pr = Some Animation.smooth)
    by (unfold Animation.preset; rewrite Hsel; reflexivity).
  split; [exact Hsel | split; [exact Hpreset |]].
  intros Hspring.
  unfold Animation.digitCurve, Animation.animationConfig.
  rewrite Hspring. cbn [Animation.spring]. rewrite Hpreset.
  split; reflexivity.
Qed.

(** The accepted prop value ['custom'], springs in use. *)
Lemma unknown_preset_is_smooth_witness :
  Animation.digitCurve
    {| Animation.animationDelay := Animation.DEFAULT_ANIMATION_DELAY;
       Animation.animationDistance := Animation.DEFAULT_ANIMATION_DISTANCE;
       Animation.animationDuration := Animation.DEFAULT_ANIMATION_DURATION;
       Animation.animationPreset := "custom";
       Animation.useSpringAnimation := true;
       Animation.performanceMode := "balanced" |}
  = Animation.WithSpring 20 200 0.8.
Proof.
  refine (proj2 (proj2 (proj2
           (unknown_preset_is_smooth
              {| Animation.animationDelay := Animation.DEFAULT_ANIMATION_DELAY;
                 Animation.animationDistance :=
                   Animation.DEFAULT_ANIMATION_DISTANCE;
                 Animation.animationDuration :=
                   Animation.DEFAULT_ANIMATION_DURATION;
                 Animation.animationPreset := "custom";
                 Animation.useSpringAnimation := true;
                 Animation.performanceMode := "balanced" |} _)) eq_refl)).
  cbn. intros [H | [H | [H | []]]]; discriminate H.
Defined.

(** * Further properties *)

(** ** Time decomposition and the text of the display *)

Module FormatMore.

Import Format.

(** The sign of the time is dropped first. *)
Lemma formatTimeWorklet_abs (timeInMs : Z) (needHour : bool) :
  formatTimeWorklet timeInMs needHour
  = formatTimeWorklet (Z.abs timeInMs) needHour.
Proof. unfold formatTimeWorklet. rewrite Z.abs_idemp. reflexivity. Qed.

(** The fields give back the whole hundredths of a second. *)
Lemma centiseconds_of_fields (x : Z) (needHour : bool) :
  0 <= x ->
  recompose needHour (formatTimeWorklet x needHour) * 100
  + tensOfMs (formatTimeWorklet x needHour)
  = x / 10.
Proof.
  intros Hx.
  assert (Hsec : 0 <= x / 1000) by (apply Z.div_pos; lia).
  assert (Hcs : 0 <= x / 10) by (apply Z.div_pos; lia).
  assert (H := FormatFacts.fields_of_seconds (x / 1000) needHour Hsec).
  unfold formatTimeWorklet. rewrite (Z.abs_eq x Hx).
  unfold recompose, minutesInHour in *.
  cbn [hours minutes tens lastDigit tensOfMs] in *.
  unfold JS.floorDiv in *. rewrite H.
  rewrite FormatFacts.rem_nonneg by lia.
  Z.div_mod_to_equations. lia.
Qed.
End FormatMore.

(** X1.  For every time, negative ones included, the fields of
    [formatTimeWorklet] are the digits of a clock: hundredths in 0..99, unit
    seconds in 0..9, tens of seconds in 0..5, hours not negative, and
    minutes in 0..59 when hours are displayed; when they are not, the
    minutes field holds all the whole minutes and the hours field their
    sixtieth. *)
Theorem fields_within_display_ranges (timeInMs : Z) (needHour : bool) :
  let f := Format.formatTimeWorklet timeInMs needHour in
  0 <= Format.tensOfMs f <= 99
  /\ 0 <= Format.lastDigit f <= 9
  /\ 0 <= Format.tens f <= 5
  /\ 0 <= Format.hours f
  /\ (if needHour
      then 0 <= Format.minutes f <= 59
      else Format.minutes f = Z.abs timeInMs / 1000 / 60
           /\ Format.hours f = Format.minutes f / 60).
Proof.
  cbv zeta. unfold Format.formatTimeWorklet.
  cbn [Format.tensOfMs Format.lastDigit Format.tens Format.hours
       Format.minutes].
  pose proof (Z.abs_nonneg timeInMs) as Habs.
  set (a := Z.abs timeInMs) in *. clearbody a.
  assert (Hsec : 0 <= a / 1000) by (apply Z.div_pos; lia).
  assert (Hcs : 0 <= a / 10) by (apply Z.div_pos; lia).
  assert (Hten : 0 <= a / 1000 / 10) by (apply Z.div_pos; lia).
  unfold JS.floorDiv.
  rewrite !FormatFacts.rem_nonneg by lia.
  destruct needHour; repeat split; try (Z.div_mod_to_equations; lia).
Qed.

(** X2.  Two times decompose into the same fields exactly when their
    absolute values agree down to the hundredth of a second: the sign and
    the last digit of the milliseconds are all that is lost. *)
Theorem same_fields_iff_same_centiseconds (x y : Z) (needHour : bool) :
  Format.formatTimeWorklet x needHour = Format.formatTimeWorklet y needHour
  <-> Z.abs x / 10 = Z.abs y / 10.
Proof.
  split.
  - intros Heq.
    rewrite <- (FormatMore.centiseconds_of_fields (Z.abs x) needHour)
      by apply Z.abs_nonneg.
    rewrite <- (FormatMore.centiseconds_of_fields (Z.abs y) needHour)
      by apply Z.abs_nonneg.
    rewrite <- !FormatMore.formatTimeWorklet_abs, Heq. reflexivity.
  - intros Heq.
    assert (Hx := Z.abs_nonneg x). assert (Hy := Z.abs_nonneg y).
    assert (Hsec : Z.abs x / 1000 = Z.abs y / 1000).
    { replace (Z.abs x / 1000) with (Z.abs x / 10 / 100)
        by (rewrite Z.div_div by lia; reflexivity).
      replace (Z.abs y / 1000) with (Z.abs y / 10 / 100)
        by (rewrite Z.div_div by lia; reflexivity).
      rewrite Heq. reflexivity. }
    unfold Format.formatTimeWorklet, JS.floorDiv. rewrite Heq, Hsec.
    reflexivity.
Qed.

(** X3.  The fields the hook computes are those [formatTimeWorklet]
    computes from the snapshot, and [minutestens] repeats [minutes]. *)
Theorem hook_fields_are_worklet_fields (p : Timer.Props) (s : Timer.State) :
  Timer.fields (Timer.timeValues p s)
  = Format.formatTimeWorklet (Timer.getSnapshot p s) (Timer.needHour p)
  /\ Timer.minutestens (Timer.timeValues p s)
     = Format.minutes (Timer.fields (Timer.timeValues p s)).
Proof.
  split; [| reflexivity].
  unfold Timer.timeValues, Format.formatTimeWorklet. cbn [Timer.fields].
  fold (Timer.getSnapshot p s).
  rewrite (Z.abs_eq (Timer.getSnapshot p s)) by apply Z.abs_nonneg.
  reflexivity.
Qed.

Module FormatRanges.

Import Format.

(** The fields are digits of a clock. *)
Lemma fields_ranges (timeInMs : Z) (needHour : bool) :
  0 <= tensOfMs (formatTimeWorklet timeInMs needHour) <= 99
  /\ 0 <= lastDigit (formatTimeWorklet timeInMs needHour) <= 9
  /\ 0 <= tens (formatTimeWorklet timeInMs needHour) <= 5
  /\ 0 <= hours (formatTimeWorklet timeInMs needHour)
  /\ 0 <= minutes (formatTimeWorklet timeInMs needHour)
  /\ (needHour = true ->
      minutes (formatTimeWorklet timeInMs needHour) <= 59).
Proof.
  unfold formatTimeWorklet.
  cbn [tensOfMs lastDigit tens hours minutes].
  pose proof (Z.abs_nonneg timeInMs) as Habs.
  set (a := Z.abs timeInMs) in *. clearbody a.
  assert (Hsec : 0 <= a / 1000) by (apply Z.div_pos; lia).
  assert (Hcs : 0 <= a / 10) by (apply Z.div_pos; lia).
  assert (Hten : 0 <= a / 1000 / 10) by (apply Z.div_pos; lia).
  unfold JS.floorDiv.
  rewrite !FormatFacts.rem_nonneg by lia.
  destruct needHour; repeat split; try discriminate;
    try (Z.div_mod_to_equations; lia).
Qed.
End FormatRanges.

Module DisplayFacts.

Import Display.
Local Open Scope string_scope.

(** A range holds every integer between its bounds. *)
Lemma range_In (x lo : Z) (count : nat) :
  lo <= x < lo + Z.of_nat count -> In x (range lo count).
Proof.
  revert lo. induction count as [| n IH]; intros lo Hx; [lia |].
  cbn [range]. destruct (Z.eq_dec x lo) as [-> | Hne];
    [left; reflexivity | right; apply IH; lia].
Qed.

(** A property checked on every member of a range holds on the range. *)
Lemma checked_on_range (check : Z -> bool) (lo : Z) (count : nat) (x : Z) :
  forallb check (range lo count) = true ->
  lo <= x < lo + Z.of_nat count ->
  check x = true.
Proof.
  intros Hall Hx. rewrite forallb_forall in Hall.
  apply Hall, range_In, Hx.
Qed.

(** What the cells of the display hold, by inspection of the finitely many
    values a field can take. *)
Lemma toString_digit (d : Z) : 0 <= d <= 9 -> toString d = digit d.
Proof.
  intros Hd.
  apply String.eqb_eq.
  apply (checked_on_range (fun x => String.eqb (toString x) (digit x)) 0 10 d);
    [vm_compute; reflexivity | lia].
Qed.

Lemma minutes_cell (m : Z) :
  0 <= m <= 59 ->
  (if (m <? 10)%Z then "0" else "") ++ toString m = twoDigits m.
Proof.
  intros Hm.
  apply String.eqb_eq.
  apply (checked_on_range
           (fun x => String.eqb
                       ((if (x <? 10)%Z then "0" else "") ++ toString x)
                       (twoDigits x)) 0 60 m);
    [vm_compute; reflexivity | lia].
Qed.

Lemma hundredths_cells (n : Z) :
  0 <= n <= 99 ->
  (if (n >=? 10)%Z then charAt 0 (toString n) else toString 0) = digit (n / 10)
  /\ (if (n >=? 10)%Z then charAt 1 (toString n) else charAt 0 (toString n))
     = digit (n mod 10).
Proof.
  intros Hn.
  pose proof
       (checked_on_range
          (fun x =>
             String.eqb
               (if (x >=? 10)%Z then charAt 0 (toString x) else toString 0)
               (digit (x / 10))
             && String.eqb
                  (if (x >=? 10)%Z then charAt 1 (toString x)
                   else charAt 0 (toString x))
                  (digit (x mod 10)))
          0 100 n) as H.
  cbv beta in H.
  specialize (H ltac:(vm_compute; reflexivity) ltac:(lia)).
  apply andb_true_iff in H as [H1 H2].
  split; apply String.eqb_eq; assumption.
Qed.

End DisplayFacts.

(** X4.  Whatever the time and the props, the rendered cells are:
    the optional leading ["0"], the hours and a colon when hours are
    displayed, the minutes (two decimal digits when hours are displayed, as
    many as needed otherwise), a colon, one digit of tens of seconds, one of
    unit seconds, then for [trailingZeros > 0] the separator and the tenths
    digit, followed by the hundredths digit when [trailingZeros] is 2. *)
Theorem display_cells_are_decimal_digits
        (pr : Display.Props) (timeInMs : Z) :
  let f := Format.formatTimeWorklet timeInMs (Display.needHour pr) in
  Display.render pr f
  = (if Display.leadingZeros pr =? 2 then ["0"%string] else [])
    ++ (if Display.needHour pr
        then [Display.toString (Format.hours f); ":"%string]
        else [])
    ++ [ if Display.needHour pr
         then Display.twoDigits (Format.minutes f)
         else Display.toString (Format.minutes f);
         ":"%string;
         Display.digit (Format.tens f);
         Display.digit (Format.lastDigit f) ]
    ++ (if Display.trailingZeros pr >? 0
        then
          [ Display.decimalSeparator pr;
            Display.digit (Format.tensOfMs f / 10) ]
          ++ (if Display.trailingZeros pr =? 2
              then [Display.digit (Format.tensOfMs f mod 10)]
              else [])
        else []).
Proof.
  cbv zeta.
  destruct (FormatRanges.fields_ranges timeInMs (Display.needHour pr))
    as [Hcs [Hlast [Htens [Hhours [Hmin Hmin59]]]]].
  set (f := Format.formatTimeWorklet timeInMs (Display.needHour pr)) in *.
  unfold Display.render.
  destruct (DisplayFacts.hundredths_cells (Format.tensOfMs f) Hcs)
    as [Hfirst Hsecond].
  rewrite Hfirst, Hsecond.
  rewrite (DisplayFacts.toString_digit (Format.tens f)) by lia.
  rewrite (DisplayFacts.toString_digit (Format.lastDigit f)) by lia.
  destruct (Display.needHour pr) eqn:Hneed; cbn [andb].
  - rewrite (DisplayFacts.minutes_cell (Format.minutes f))
      by (split; [exact Hmin | apply Hmin59; reflexivity]).
    reflexivity.
  - reflexivity.
Qed.

(** ** The throttle primitive along runs *)

Module ThrottleRunFacts.

Import Throttle ThrottleRuns.

Section Instance.

Variables A R : Type.
Variable func : A -> R.
Variable wait : Z.
Variable options : Options.
Hypothesis Hwait : 0 < wait.

(** Runs, event by event. *)
Lemma calls_run_cons (e : Event A) (evs : list (Event A)) (st : State A R) :
  run func wait options (e :: evs) st
  = run func wait options evs (step func wait options st e).
Proof. reflexivity. Qed.

Lemma calls_run_app (evs1 evs2 : list (Event A)) (st : State A R) :
  run func wait options (evs1 ++ evs2) st
  = run func wait options evs2 (run func wait options evs1 st).
Proof. apply fold_left_app. Qed.

(** A new instance is well timed. *)
Lemma wellTimed_init (clk : Z) :
  0 <= clk -> wellTimed wait options clk (init A R).
Proof.
  intros Hclk. unfold wellTimed, init. cbn.
  repeat split; try lia; intros; discriminate.
Qed.

(** The window is anchored at [previous], or at the call itself when
    [previous] is unset and leading invocation is disabled. *)
Lemma anchor_cases (now : Z) (st : State A R) :
  (anchor options now st = previous st
   /\ (previous st <> 0 \/ leading options = true))
  \/ (anchor options now st = now
      /\ previous st = 0 /\ leading options = false).
Proof.
  unfold anchor.
  destruct (previous st =? 0) eqn:Hp; [| left; split; [reflexivity |]].
  - destruct (leading options); cbn [negb andb].
    + left. split; [reflexivity | right; reflexivity].
    + right. apply Z.eqb_eq in Hp. auto.
  - left. apply Z.eqb_neq. exact Hp.
Qed.

(** A call keeps an instance well timed. *)
Lemma wellTimed_throttled (clk now : Z) (args : A) (st : State A R) :
  0 < now -> clk <= now ->
  wellTimed wait options clk st ->
  wellTimed wait options now (throttled func wait options now args st).
Proof.
  intros Hpos Hclk [Hprev [Hsp [Hhead Htimer]]].
  destruct (Z.le_gt_cases (anchor options now st + wait) now) as [Hout | Hin].
  - (* outside the window: applied at once *)
    rewrite ThrottleFacts.throttled_outside_window by (left; exact Hout).
    destruct (anchor_cases now st) as [[Ha Hor] | [Ha _]]; [| lia].
    unfold wellTimed. cbn [previous calls timeout].
    split; [lia |]. split; [| split].
    + cbn [spaced]. split; [| exact Hsp].
      destruct (calls st) as [| [t a] rest] eqn:Hlog; [exact I |].
      destruct (Hhead t a rest eq_refl) as [_ [Hle | [Hz Hl]]]; [lia |].
      destruct Hor as [Hnz | Hl']; [lia | congruence].
    + intros t a rest Heq. inversion Heq; subst. lia.
    + intros q Hq. discriminate Hq.
  - (* inside the window *)
    assert (Hwin : anchor options now st <= now < anchor options now st + wait).
    { destruct (anchor_cases now st) as [[Ha _] | [Ha _]];
        rewrite Ha in *; lia. }
    assert (Hanch : 0 <= anchor options now st <= now)
      by (destruct (anchor_cases now st) as [[Ha _] | [Ha _]];
          rewrite Ha in *; lia).
    assert (Hhead' : forall t a rest,
               calls st = (t, a) :: rest ->
               t <= now
               /\ (t <= anchor options now st
                   \/ (anchor options now st = 0 /\ leading options = false))).
    { intros t a rest Heq.
      destruct (Hhead t a rest Heq) as [Ht Hor].
      split; [lia |].
      destruct (anchor_cases now st) as [[-> _] | [-> _]];
        [exact Hor | left; lia]. }
    destruct (timeout st) as [q |] eqn:Hq.
    + rewrite (ThrottleFacts.throttled_keeps_pending
                 A R func wait options now args st q Hq Hwin).
      destruct (Htimer q eq_refl) as [Hdue [_ Hor]].
      assert (Ha : anchor options now st = previous st).
      { destruct (anchor_cases now st) as [[Ha _] | [_ [Hz Hl]]];
          [exact Ha |].
        destruct Hor; congruence. }
      unfold wellTimed. cbn [previous calls timeout].
      repeat split; try lia; try exact Hsp.
      * apply (Hhead' t a rest H).
      * apply (Hhead' t a rest H).
      * inversion H; subst. lia.
      * inversion H; subst. lia.
      * inversion H; subst. rewrite Ha. exact Hor.
    + destruct (trailing options) eqn:Htr.
      * rewrite (ThrottleFacts.throttled_arms_timer
                   A R func wait options now args st Htr Hq Hwin).
        unfold wellTimed. cbn [previous calls timeout].
        repeat split; try lia; try exact Hsp.
        -- apply (Hhead' t a rest H).
        -- apply (Hhead' t a rest H).
        -- inversion H; subst. reflexivity.
        -- inversion H; subst. cbn [due]. lia.
        -- destruct (anchor_cases now st) as [[-> Hor] | [-> _]];
             [exact Hor | left; lia].
      * rewrite (ThrottleFacts.throttled_without_trailing
                   A R func wait options now args st Htr Hwin).
        rewrite Hq.
        unfold wellTimed. cbn [previous calls timeout].
        repeat split; try lia; try exact Hsp; try discriminate.
        -- apply (Hhead' t a rest H).
        -- apply (Hhead' t a rest H).
Qed.

(** So does the clock reaching [now]: a timer that is due runs at its
    due time, at least [wait] after the last application. *)
Lemma wellTimed_advanceTo (clk now : Z) (st : State A R) :
  clk <= now ->
  wellTimed wait options clk st ->
  wellTimed wait options now (advanceTo func options now st).
Proof.
  intros Hclk [Hprev [Hsp [Hhead Htimer]]].
  destruct (timeout st) as [q |] eqn:Hq.
  - destruct (Htimer q eq_refl) as [Hdue [Hfuture Hor]].
    destruct (Z.le_gt_cases (due q) now) as [Hle | Hgt].
    + rewrite (ThrottleFacts.advance_runs_pending
                 A R func options now st q Hq Hle).
      unfold wellTimed. cbn [previous calls timeout].
      split; [destruct (negb (leading options)); lia |].
      split; [| split].
      * cbn [spaced]. split; [| exact Hsp].
        destruct (calls st) as [| [t a] rest] eqn:Hlog; [exact I |].
        destruct (Hhead t a rest eq_refl) as [_ [Ht | [Hz Hl]]]; [lia |].
        destruct Hor as [Hnz | Hl']; [lia | congruence].
      * intros t a rest Heq. inversion Heq; subst.
        split; [lia |].
        destruct (leading options); cbn [negb]; [left; lia | right; auto].
      * intros q' Hq'. discriminate Hq'.
    + unfold advanceTo. rewrite Hq.
      replace (due q <=? now) with false by (symmetry; apply Z.leb_gt; lia).
      unfold wellTimed. rewrite Hq.
      split; [lia |]. split; [exact Hsp |]. split.
      * intros t a rest Heq. destruct (Hhead t a rest Heq). split; [lia | auto].
      * intros q' Hq'. inversion Hq'; subst. repeat split; [lia | lia | auto].
  - unfold advanceTo. rewrite Hq.
    unfold wellTimed. rewrite Hq.
    split; [lia |]. split; [exact Hsp |]. split.
    + intros t a rest Heq. destruct (Hhead t a rest Heq). split; [lia | auto].
    + intros q' Hq'. discriminate Hq'.
Qed.

Lemma calls_lastClock_cons (clk : Z) (e : Event A) (evs : list (Event A)) :
  lastClock clk (e :: evs)
  = lastClock (match e with
               | Call now _ => now
               | Advance now => now
               | Cancel => clk
               end) evs.
Proof. reflexivity. Qed.

(** Along a run without [cancel], read off a positive clock that does
    not run backwards, the instance stays well timed. *)
Lemma wellTimed_run (evs : list (Event A)) (clk : Z) (st : State A R) :
  0 < clk ->
  ordered clk evs = true ->
  cancelFree evs = true ->
  wellTimed wait options clk st ->
  wellTimed wait options (lastClock clk evs) (run func wait options evs st)
  /\ clk <= lastClock clk evs.
Proof.
  revert clk st.
  induction evs as [| e evs IH]; intros clk st Hpos Hord Hfree Hwell.
  - split; [exact Hwell | cbn; lia].
  - unfold cancelFree in Hfree. cbn [forallb] in Hfree.
    apply andb_true_iff in Hfree as [He Hfree].
    rewrite calls_run_cons, calls_lastClock_cons.
    destruct e as [now args | now |]; cbn [isCancel negb] in He;
      [| | discriminate He];
      cbn [ordered] in Hord; apply andb_true_iff in Hord as [Hle Hord];
      apply Z.leb_le in Hle; cbn [step].
    + destruct (IH now (throttled func wait options now args st))
        as [Hw Hl]; try assumption; [lia | | split; [exact Hw | lia]].
      apply (wellTimed_throttled clk); [lia | exact Hle | exact Hwell].
    + destruct (IH now (advanceTo func options now st))
        as [Hw Hl]; try assumption; [lia | | split; [exact Hw | lia]].
      apply (wellTimed_advanceTo clk); [exact Hle | exact Hwell].
Qed.

(** *** Calls that fall in one window *)

(** However many calls fall in the window, none applies [func], and the
    timer armed by the first of them stays as it is. *)
Lemma run_calls_in_window
      (cs : list (Z * A)) (st : State A R) (q : Pending A) :
  previous st <> 0 ->
  timeout st = Some q ->
  Forall (fun c => previous st <= fst c < previous st + wait) cs ->
  run func wait options (map (fun c => Call (fst c) (snd c)) cs) st = st.
Proof.
  intros Hprev Hq Hcs. induction Hcs as [| [t a] cs Hin _ IH]; [reflexivity |].
  cbn [map fst snd]. rewrite calls_run_cons. cbn [step].
  assert (Ha : anchor options t st = previous st).
  { unfold anchor. apply Z.eqb_neq in Hprev. rewrite Hprev. reflexivity. }
  rewrite (ThrottleFacts.throttled_keeps_pending
             A R func wait options t a st q Hq)
    by (rewrite Ha; exact Hin).
  rewrite Ha.
  replace {| timeout := Some q; previous := previous st;
             result := result st; calls := calls st |} with st
    by (destruct st; cbn in *; congruence).
  exact IH.
Qed.

End Instance.

End ThrottleRunFacts.

Module ThrottleMore.

Import Throttle ThrottleRuns.

Section Instance.

Variables A R : Type.
Variable func : A -> R.
Variable wait : Z.
Variable options : Options.

(** With trailing invocation disabled no event arms a timer. *)
Lemma step_without_trailing (e : Event A) (st : State A R) :
  trailing options = false ->
  timeout st = None ->
  timeout (step func wait options st e) = None.
Proof.
  intros Htr Hnone. destruct e as [now args | now |]; cbn [step].
  - unfold throttled. cbv zeta.
    destruct (_ || _); [reflexivity |].
    rewrite Htr, andb_false_r. exact Hnone.
  - unfold advanceTo. rewrite Hnone. exact Hnone.
  - reflexivity.
Qed.

(** Nor does a run. *)
Lemma run_without_trailing (evs : list (Event A)) (st : State A R) :
  trailing options = false ->
  timeout st = None ->
  timeout (run func wait options evs st) = None.
Proof.
  intros Htr. revert st.
  induction evs as [| e evs IH]; intros st Hnone; [exact Hnone |].
  rewrite ThrottleRunFacts.calls_run_cons.
  apply IH, step_without_trailing; assumption.
Qed.

(** Without a pending timer the clock may reach any value: nothing runs. *)
Lemma run_advances_idle (ts : list Z) (st : State A R) :
  timeout st = None ->
  run func wait options (map Advance ts) st = st.
Proof.
  intros Hnone. induction ts as [| t ts IH]; [reflexivity |].
  cbn [map]. rewrite ThrottleRunFacts.calls_run_cons. cbn [step].
  unfold advanceTo. rewrite Hnone. exact IH.
Qed.

End Instance.

End ThrottleMore.

(** X5.  As long as [cancel] is not called, and on a positive clock
    that does not run backwards, two applications of the wrapped function
    (leading or trailing, whatever the options) are never less than [wait]
    apart. *)
Theorem applications_at_least_wait_apart
        (A R : Type) (func : A -> R) (wait : Z) (options : Throttle.Options)
        (since : Z) (evs : list (Throttle.Event A)) :
  0 < wait ->
  0 < since ->
  ThrottleRuns.ordered since evs = true ->
  ThrottleRuns.cancelFree evs = true ->
  ThrottleRuns.spaced wait
    (Throttle.calls (Throttle.run func wait options evs (Throttle.init A R))).
Proof.
  intros Hwait Hsince Hord Hfree.
  destruct (ThrottleRunFacts.wellTimed_run A R func wait options Hwait
              evs since (Throttle.init A R) Hsince Hord Hfree
              (ThrottleRunFacts.wellTimed_init A R wait options since
                 ltac:(lia)))
    as [[_ [Hsp _]] _].
  exact Hsp.
Qed.

(** The three calls of [Scenario.threeCalls]. *)
Lemma applications_at_least_wait_apart_witness :
  ThrottleRuns.spaced 100
    (Throttle.calls
       (Throttle.run Scenario.echo 100 Throttle.noOptions Scenario.threeCalls
          (Throttle.init string string))).
Proof.
  assert (Hwait : 0 < 100) by lia.
  assert (Hsince : 0 < 1000) by lia.
  exact (applications_at_least_wait_apart string string Scenario.echo 100
           Throttle.noOptions 1000 Scenario.threeCalls Hwait Hsince
           eq_refl eq_refl).
Defined.

(** X6.  With trailing invocation enabled no call is lost: once
    the clock has advanced by [wait] after a call, the wrapped function has
    been applied at the time of the call or later, at most [wait] after
    it. *)
Theorem every_call_is_answered_within_wait
        (A R : Type) (func : A -> R) (wait : Z) (options : Throttle.Options)
        (since : Z) (evs : list (Throttle.Event A)) (now : Z) (args : A) :
  0 < wait ->
  0 < since ->
  Throttle.trailing options = true ->
  ThrottleRuns.ordered since (evs ++ [Throttle.Call now args]) = true ->
  ThrottleRuns.cancelFree evs = true ->
  exists t a rest,
    Throttle.calls
      (Throttle.run func wait options
         (evs ++ [Throttle.Call now args; Throttle.Advance (now + wait)])
         (Throttle.init A R))
    = (t, a) :: rest
    /\ now <= t <= now + wait.
Proof.
  intros Hwait Hsince Htr Hord Hfree.
  assert (Hsplit : ThrottleRuns.ordered since evs = true
                   /\ ThrottleRuns.lastClock since evs <= now).
  { clear Hfree. revert since Hsince Hord.
    induction evs as [| e evs IH]; intros since Hsince Hord.
    - cbn in Hord. rewrite andb_true_r in Hord. apply Z.leb_le in Hord.
      split; [reflexivity | exact Hord].
    - rewrite ThrottleRunFacts.calls_lastClock_cons.
      destruct e as [t a | t |]; cbn [app ThrottleRuns.ordered] in *.
      + apply andb_true_iff in Hord as [Hle Hord].
        apply Z.leb_le in Hle.
        destruct (IH t ltac:(lia) Hord) as [Ho Hl].
        rewrite Ho, andb_true_r. split; [apply Z.leb_le; lia | exact Hl].
      + apply andb_true_iff in Hord as [Hle Hord].
        apply Z.leb_le in Hle.
        destruct (IH t ltac:(lia) Hord) as [Ho Hl].
        rewrite Ho, andb_true_r. split; [apply Z.leb_le; lia | exact Hl].
      + apply (IH since Hsince Hord). }
  destruct Hsplit as [Hord' Hlast].
  destruct (ThrottleRunFacts.wellTimed_run A R func wait options Hwait
              evs since (Throttle.init A R) Hsince Hord' Hfree
              (ThrottleRunFacts.wellTimed_init A R wait options since
                 ltac:(lia)))
    as [Hwell Hclk].
  rewrite ThrottleRunFacts.calls_run_app.
  set (st := Throttle.run func wait options evs (Throttle.init A R)) in *.
  set (clk := ThrottleRuns.lastClock since evs) in *.
  destruct Hwell as [Hprev [_ [_ Htimer]]].
  unfold Throttle.run. cbn [fold_left Throttle.step].
  destruct (Z.le_gt_cases (Throttle.anchor options now st + wait) now)
    as [Hout | Hin].
  - rewrite ThrottleFacts.throttled_outside_window by (left; exact Hout).
    unfold Throttle.advanceTo. cbn [Throttle.timeout Throttle.calls].
    exists now, args, (Throttle.calls st). split; [reflexivity | lia].
  - assert (Hanch : 0 <= Throttle.anchor options now st <= now).
    { destruct (ThrottleRunFacts.anchor_cases A R options now st)
        as [[Ha _] | [Ha _]]; rewrite Ha; lia. }
    assert (Hwin : Throttle.anchor options now st <= now
                   < Throttle.anchor options now st + wait) by lia.
    destruct (Throttle.timeout st) as [q |] eqn:Hq.
    + destruct (Htimer q eq_refl) as [Hdue [Hfut Hor]].
      rewrite (ThrottleFacts.throttled_keeps_pending
                 A R func wait options now args st q Hq Hwin).
      assert (Ha : Throttle.anchor options now st = Throttle.previous st).
      { destruct (ThrottleRunFacts.anchor_cases A R options now st)
          as [[Ha _] | [_ [Hz Hl]]]; [exact Ha |].
        destruct Hor; congruence. }
      erewrite ThrottleFacts.advance_runs_pending;
        [| reflexivity | lia].
      cbn [Throttle.calls].
      exists (Throttle.due q), (Throttle.capturedArgs q), (Throttle.calls st).
      split; [reflexivity | lia].
    + rewrite (ThrottleFacts.throttled_arms_timer
                 A R func wait options now args st Htr Hq Hwin).
      erewrite ThrottleFacts.advance_runs_pending;
        [| reflexivity | cbn [Throttle.due]; lia].
      cbn [Throttle.calls Throttle.due Throttle.capturedArgs].
      exists (Throttle.anchor options now st + wait), args, (Throttle.calls st).
      split; [reflexivity | lia].
Qed.

(** A call 10 ms after the leading one. *)
Lemma every_call_is_answered_within_wait_witness :
  exists t a rest,
    Throttle.calls
      (Throttle.run Scenario.echo 100 Throttle.noOptions
         ([Throttle.Call 1000 "a"%string]
          ++ [Throttle.Call 1010 "b"%string; Throttle.Advance (1010 + 100)])
         (Throttle.init string string))
    = (t, a) :: rest
    /\ 1010 <= t <= 1010 + 100.
Proof.
  assert (Hwait : 0 < 100) by lia.
  assert (Hsince : 0 < 1000) by lia.
  exact (every_call_is_answered_within_wait string string Scenario.echo 100
           Throttle.noOptions 1000 [Throttle.Call 1000 "a"%string] 1010
           "b"%string Hwait Hsince eq_refl eq_refl eq_refl).
Defined.

(** X7.  However many calls fall in an open window, none of them
    applies the wrapped function; the end of the window applies it once,
    to the arguments of the first of these calls. *)
Theorem burst_is_coalesced_into_first_arguments
        (A R : Type) (func : A -> R) (wait : Z) (options : Throttle.Options)
        (st : Throttle.State A R) (t1 : Z) (a1 : A) (cs : list (Z * A)) :
  Throttle.trailing options = true ->
  Throttle.previous st <> 0 ->
  Throttle.timeout st = None ->
  Forall (fun c =>
            Throttle.previous st <= fst c < Throttle.previous st + wait)
         ((t1, a1) :: cs) ->
  Throttle.calls
    (Throttle.run func wait options
       (Throttle.Call t1 a1
          :: map (fun c => Throttle.Call (fst c) (snd c)) cs)
       st)
  = Throttle.calls st
  /\ Throttle.calls
       (Throttle.run func wait options
          (Throttle.Call t1 a1
             :: map (fun c => Throttle.Call (fst c) (snd c)) cs
             ++ [Throttle.Advance (Throttle.previous st + wait)])
          st)
     = (Throttle.previous st + wait, a1) :: Throttle.calls st.
Proof.
  intros Htr Hprev Hnone Hwin.
  inversion Hwin as [| c cs' H1 Hcs]; subst. cbn [fst] in H1.
  assert (Ha : Throttle.anchor options t1 st = Throttle.previous st).
  { unfold Throttle.anchor. apply Z.eqb_neq in Hprev. rewrite Hprev.
    reflexivity. }
  assert (Harm :
            Throttle.throttled func wait options t1 a1 st
            = {| Throttle.timeout :=
                   Some {| Throttle.due := Throttle.previous st + wait;
                           Throttle.capturedArgs := a1 |};
                 Throttle.previous := Throttle.previous st;
                 Throttle.result := Throttle.result st;
                 Throttle.calls := Throttle.calls st |}).
  { rewrite (ThrottleFacts.throttled_arms_timer
               A R func wait options t1 a1 st Htr Hnone)
      by (rewrite Ha; exact H1).
    rewrite Ha. reflexivity. }
  assert (Hrest :
            Throttle.run func wait options
              (map (fun c => Throttle.Call (fst c) (snd c)) cs)
              (Throttle.throttled func wait options t1 a1 st)
            = Throttle.throttled func wait options t1 a1 st).
  { rewrite Harm.
    eapply ThrottleRunFacts.run_calls_in_window;
      [exact Hprev | reflexivity | exact Hcs]. }
  split.
  - rewrite ThrottleRunFacts.calls_run_cons. cbn [Throttle.step].
    rewrite Hrest, Harm. reflexivity.
  - rewrite ThrottleRunFacts.calls_run_cons, ThrottleRunFacts.calls_run_app.
    cbn [Throttle.step]. rewrite Hrest, Harm.
    unfold Throttle.run. cbn [fold_left Throttle.step].
    erewrite ThrottleFacts.advance_runs_pending;
      [| reflexivity | cbn [Throttle.due Throttle.previous]; lia].
    reflexivity.
Qed.

(** Three calls in the window opened at 1000. *)
Lemma burst_is_coalesced_into_first_arguments_witness :
  Throttle.calls
    (Throttle.run Scenario.echo 100 Throttle.noOptions
       (Throttle.Call 1010 "b"%string
          :: map (fun c => Throttle.Call (fst c) (snd c))
               [(1020, "c"%string); (1030, "d"%string)]
          ++ [Throttle.Advance
                (Throttle.previous Sample.afterLeadingCall + 100)])
       Sample.afterLeadingCall)
  = (Throttle.previous Sample.afterLeadingCall + 100, "b"%string)
      :: Throttle.calls Sample.afterLeadingCall.
Proof.
  assert (Hprev : Throttle.previous Sample.afterLeadingCall <> 0)
    by (vm_compute; discriminate).
  assert (Hwin : Forall
                   (fun c =>
                      Throttle.previous Sample.afterLeadingCall <= fst c
                      < Throttle.previous Sample.afterLeadingCall + 100)
                   [(1010, "b"%string); (1020, "c"%string);
                    (1030, "d"%string)]).
  { repeat constructor; vm_compute; try reflexivity; discriminate. }
  exact (proj2 (burst_is_coalesced_into_first_arguments string string
                  Scenario.echo 100 Throttle.noOptions
                  Sample.afterLeadingCall 1010 "b"%string
                  [(1020, "c"%string); (1030, "d"%string)]
                  eq_refl Hprev eq_refl Hwin)).
Defined.

(** X8.  With trailing invocation disabled no timer is ever
    pending, whatever is called and when, so the passing of time alone
    never applies the wrapped function. *)
Theorem without_trailing_nothing_is_deferred
        (A R : Type) (func : A -> R) (wait : Z) (options : Throttle.Options)
        (evs : list (Throttle.Event A)) (ts : list Z) :
  Throttle.trailing options = false ->
  Throttle.timeout
    (Throttle.run func wait options evs (Throttle.init A R)) = None
  /\ Throttle.run func wait options (evs ++ map Throttle.Advance ts)
       (Throttle.init A R)
     = Throttle.run func wait options evs (Throttle.init A R).
Proof.
  intros Htr.
  assert (Hnone := ThrottleMore.run_without_trailing A R func wait options
                     evs (Throttle.init A R) Htr eq_refl).
  split; [exact Hnone |].
  rewrite ThrottleRunFacts.calls_run_app.
  apply ThrottleMore.run_advances_idle. exact Hnone.
Qed.

(** The throttle of the completion callback, called twice. *)
Lemma without_trailing_nothing_is_deferred_witness :
  Throttle.timeout
    (Throttle.run Timer.onFinish 100 Timer.onFinishOptions
       [Throttle.Call 1000 tt; Throttle.Call 1010 tt]
       (Throttle.init unit unit))
  = None.
Proof.
  exact (proj1 (without_trailing_nothing_is_deferred unit unit Timer.onFinish
                  100 Timer.onFinishOptions
                  [Throttle.Call 1000 tt; Throttle.Call 1010 tt] [1100]
                  eq_refl)).
Defined.

(** X9.  [cancel] drops the pending timer and keeps the log: however
    far the clock then advances, nothing is applied; and with leading
    invocation the next call (the clock reading at least [wait]) applies
    the function at once, however recent the last application. *)
Theorem cancel_resets_the_window
        (A R : Type) (func : A -> R) (wait : Z) (options : Throttle.Options)
        (st : Throttle.State A R) (ts : list Z) (now : Z) (args : A) :
  Throttle.run func wait options
    (Throttle.Cancel :: map Throttle.Advance ts) st
  = Throttle.cancel st
  /\ Throttle.calls (Throttle.cancel st) = Throttle.calls st
  /\ (Throttle.leading options = true ->
      wait <= now ->
      Throttle.calls
        (Throttle.throttled func wait options now args (Throttle.cancel st))
      = (now, args) :: Throttle.calls st).
Proof.
  split; [| split].
  - rewrite ThrottleRunFacts.calls_run_cons. cbn [Throttle.step].
    apply ThrottleMore.run_advances_idle. reflexivity.
  - reflexivity.
  - intros Hlead Hnow.
    rewrite ThrottleFacts.throttled_outside_window; [reflexivity |].
    left. unfold Throttle.anchor. cbn [Throttle.cancel Throttle.previous].
    rewrite Hlead. cbn. lia.
Qed.

(** X10.  With leading invocation disabled and trailing
    enabled, a call in a fresh window applies nothing itself; the function
    is applied exactly [wait] later, to the arguments of that call, and the
    window is fresh again. *)
Theorem without_leading_the_call_is_delayed_by_wait
        (A R : Type) (func : A -> R) (wait : Z) (options : Throttle.Options)
        (st : Throttle.State A R) (now : Z) (args : A) :
  Throttle.leading options = false ->
  Throttle.trailing options = true ->
  0 < wait ->
  Throttle.previous st = 0 ->
  Throttle.timeout st = None ->
  Throttle.calls (Throttle.throttled func wait options now args st)
  = Throttle.calls st
  /\ Throttle.run func wait options
       [Throttle.Call now args; Throttle.Advance (now + wait)] st
     = {| Throttle.timeout := None;
          Throttle.previous := 0;
          Throttle.result := Some (func args);
          Throttle.calls := (now + wait, args) :: Throttle.calls st |}.
Proof.
  intros Hlead Htr Hwait Hprev Hnone.
  assert (Ha : Throttle.anchor options now st = now).
  { unfold Throttle.anchor. rewrite Hprev, Hlead. reflexivity. }
  assert (Harm := ThrottleFacts.throttled_arms_timer
                    A R func wait options now args st Htr Hnone).
  rewrite Ha in Harm. specialize (Harm ltac:(lia)).
  split; [rewrite Harm; reflexivity |].
  unfold Throttle.run. cbn [fold_left Throttle.step]. rewrite Harm.
  erewrite ThrottleFacts.advance_runs_pending;
    [| reflexivity | cbn [Throttle.due]; lia].
  cbn [Throttle.due Throttle.capturedArgs Throttle.calls Throttle.result].
  rewrite Hlead. reflexivity.
Qed.

(** A first call at 1000 on a new instance. *)
Lemma without_leading_the_call_is_delayed_by_wait_witness :
  Throttle.run Scenario.echo 100 Sample.trailingOnly
    [Throttle.Call 1000 "a"%string; Throttle.Advance (1000 + 100)]
    (Throttle.init string string)
  = {| Throttle.timeout := None;
       Throttle.previous := 0;
       Throttle.result := Some (Scenario.echo "a"%string);
       Throttle.calls :=
         (1000 + 100, "a"%string)
           :: Throttle.calls (Throttle.init string string) |}.
Proof.
  assert (Hwait : 0 < 100) by lia.
  exact (proj2 (without_leading_the_call_is_delayed_by_wait string string
                  Scenario.echo 100 Sample.trailingOnly
                  (Throttle.init string string) 1000 "a"%string
                  eq_refl eq_refl Hwait eq_refl eq_refl)).
Defined.

(** ** The elapsed-time engine along runs *)

Module EngineFacts.

Import Timer Clock.

Section Hook.

Variable p : Props.

(** No handler touches the throttle of the completion callback. *)
Lemma handle_finish (e : Event) (s : State) :
  finish (handle p e s) = finish s.
Proof.
  destruct e as [now | now | now | now]; cbn [handle].
  - unfold play. destruct (JS.notNull _); [reflexivity |].
    destruct (_ && _); reflexivity.
  - unfold pause. cbn [fst]. destruct (_ && _); reflexivity.
  - reflexivity.
  - destruct (JS.notNull _); [| reflexivity].
    unfold intervalCallback. destruct (JS.falsy _); reflexivity.
Qed.

(** What [commit] can return: the state the handler left, or that state
    with the value clamped, the interval removed and the completion
    callback called once or twice. *)
Lemma commit_cases (now before : Z) (s : State) :
  commit p now before s = s
  \/ (isTimer (mode p) = true
      /\ initialTimeInMs p <= elapsedInMs s
      /\ elapsedInMs s <> before
      /\ exists f,
          commit p now before s
          = {| elapsedInMs := initialTimeInMs p;
               startTime := startTime s;
               pausedTime := pausedTime s;
               intervalId := None;
               finish := f;
               nextHandle := nextHandle s |}
          /\ (f = throttledOnFinish now (finish s)
              \/ f = throttledOnFinish now
                       (throttledOnFinish now (finish s)))).
Proof.
  unfold commit.
  destruct (elapsedInMs s =? before) eqn:Hsame; [left; reflexivity |].
  apply Z.eqb_neq in Hsame.
  destruct (isTimer (mode p)) eqn:Hmode;
    [| left; rewrite !TimerFacts.finishEffect_idle by (left; exact Hmode);
       rewrite Z.eqb_refl; reflexivity].
  destruct (Z.le_gt_cases (initialTimeInMs p) (elapsedInMs s)) as [Hge | Hlt].
  - right. repeat split; try assumption.
    rewrite (TimerFacts.finishEffect_fires p now s Hmode Hge).
    cbn [elapsedInMs].
    destruct (initialTimeInMs p =? elapsedInMs s).
    + eexists. split; [reflexivity | left; reflexivity].
    + rewrite TimerFacts.finishEffect_fires by (cbn; auto; lia).
      eexists. split; [reflexivity | right; reflexivity].
  - left. rewrite !TimerFacts.finishEffect_idle by (right; lia).
    rewrite Z.eqb_refl. reflexivity.
Qed.

(** The interval after a handler, when the handler kept the stored value
    and the engine had no interval and was at its initial time. *)
Lemma handle_keeps_finished (e : Event) (s : State) :
  isTimer (mode p) = true ->
  intervalId s = None ->
  elapsedInMs s = initialTimeInMs p ->
  intervalId (handle p e s) = None.
Proof.
  intros Hmode Hid Hel.
  destruct e as [now | now | now | now]; cbn [handle].
  - unfold play. rewrite Hid, Hel, Z.eqb_refl, Hmode. exact Hid.
  - unfold pause. cbn [fst]. destruct (_ && _); reflexivity.
  - reflexivity.
  - rewrite Hid. exact Hid.
Qed.

(** Every event keeps a timer clamped: a stored value that reaches the
    initial time goes through the completion effect. *)
Lemma clamped_step (e : Event) (s : State) :
  isTimer (mode p) = true -> clamped p s -> clamped p (step p s e).
Proof.
  intros Hmode [Hle Hstop]. unfold step.
  destruct (commit_cases (clock e) (elapsedInMs s) (handle p e s))
    as [Hsame | [_ [Hge [Hne [f [Hfire _]]]]]].
  - rewrite Hsame.
    destruct (Z.eq_dec (elapsedInMs (handle p e s)) (elapsedInMs s))
      as [Heq | Hne].
    + split; [lia |]. intros Hat.
      apply handle_keeps_finished; [exact Hmode | apply Hstop; lia | lia].
    + (* the stored value changed and the effect did nothing *)
      unfold commit in Hsame.
      apply Z.eqb_neq in Hne. rewrite Hne in Hsame.
      destruct (Z.le_gt_cases (initialTimeInMs p)
                  (elapsedInMs (handle p e s))) as [Hge | Hlt].
      * rewrite (TimerFacts.finishEffect_fires p _ _ Hmode Hge) in Hsame.
        cbn [elapsedInMs] in Hsame.
        destruct (initialTimeInMs p =? elapsedInMs (handle p e s)) eqn:Hq.
        -- rewrite <- Hsame. split; [cbn; lia | reflexivity].
        -- rewrite TimerFacts.finishEffect_fires in Hsame
             by (cbn; auto; lia).
           rewrite <- Hsame. split; [cbn; lia | reflexivity].
      * split; [lia | lia].
  - rewrite Hfire. split; [cbn; lia | reflexivity].
Qed.

(** A newly mounted timer is clamped. *)
Lemma clamped_mount (now : Z) :
  isTimer (mode p) = true -> clamped p (mount p now).
Proof.
  intros Hmode. unfold mount.
  destruct (Z.le_gt_cases (initialTimeInMs p) 0) as [Hle | Hgt].
  - rewrite (TimerFacts.finishEffect_fires p now (reset initial))
      by (cbn; auto).
    cbn [elapsedInMs initial].
    destruct (initialTimeInMs p =? 0).
    + split; [cbn; lia | reflexivity].
    + rewrite TimerFacts.finishEffect_fires by (cbn; auto; lia).
      split; [cbn; lia | reflexivity].
  - rewrite TimerFacts.finishEffect_idle by (right; cbn; lia).
    replace (elapsedInMs (reset initial) =? elapsedInMs initial)
      with true by reflexivity.
    unfold clamped. cbn [elapsedInMs reset resetState]. lia.
Qed.

Lemma clamped_run (evs : list Event) (s : State) :
  isTimer (mode p) = true -> clamped p s -> clamped p (run p evs s).
Proof.
  intros Hmode. revert s.
  induction evs as [| e evs IH]; intros s Hs; [exact Hs |].
  rewrite TimerFacts.run_cons. apply IH, clamped_step; assumption.
Qed.

End Hook.

End EngineFacts.

(** X11.  In timer mode, whatever is called and whenever the interval
    fires, the stored elapsed time never exceeds [initialTimeInMs]; when it
    equals it the interval is removed; and the snapshot is the remaining
    time, [initialTimeInMs - elapsedInMs]. *)
Theorem timer_never_passes_initial_time
        (p : Timer.Props) (mountedAt : Z) (evs : list Timer.Event) :
  Timer.mode p = Timer.TimerMode ->
  Timer.elapsedInMs (Timer.run p evs (Timer.mount p mountedAt))
  <= Timer.initialTimeInMs p
  /\ (Timer.elapsedInMs (Timer.run p evs (Timer.mount p mountedAt))
      = Timer.initialTimeInMs p ->
      Timer.intervalId (Timer.run p evs (Timer.mount p mountedAt)) = None)
  /\ Timer.getSnapshot p (Timer.run p evs (Timer.mount p mountedAt))
     = Timer.initialTimeInMs p
       - Timer.elapsedInMs (Timer.run p evs (Timer.mount p mountedAt)).
Proof.
  intros Hmode.
  assert (Htimer : Timer.isTimer (Timer.mode p) = true)
    by (rewrite Hmode; reflexivity).
  destruct (EngineFacts.clamped_run p evs _ Htimer
              (EngineFacts.clamped_mount p mountedAt Htimer)) as [Hle Hstop].
  split; [exact Hle | split; [exact Hstop |]].
  unfold Timer.getSnapshot, Timer.direction. rewrite Htimer.
  rewrite Z.abs_eq by lia. lia.
Qed.

(** A five-second timer sampled once, six seconds after [play()]. *)
Lemma timer_never_passes_initial_time_witness :
  Timer.elapsedInMs
    (Timer.run Scenario.timer5000 Sample.overrun
       (Timer.mount Scenario.timer5000 Scenario.t0))
  <= Timer.initialTimeInMs Scenario.timer5000.
Proof.
  exact (proj1 (timer_never_passes_initial_time Scenario.timer5000
                  Scenario.t0 Sample.overrun eq_refl)).
Defined.

Module AnchorFacts.

Import Timer Clock EngineFacts.

Section Hook.

Variable p : Props.
Variable since : Z.
Hypothesis Hsince : 0 < since.

(** Time passing keeps the references anchored. *)
Lemma anchored_later (clk clk' : Z) (s : State) :
  clk <= clk' -> anchored since clk s -> anchored since clk' s.
Proof.
  intros Hle. unfold anchored.
  destruct (startTime s) as [st |]; [| intuition lia].
  destruct (pausedTime s) as [pa |]; intuition lia.
Qed.

(** The clock has not run backwards since the mount. *)
Lemma anchored_since (clk : Z) (s : State) :
  anchored since clk s -> since <= clk.
Proof.
  unfold anchored.
  destruct (startTime s) as [st |]; intuition lia.
Qed.

(** The handlers keep the references anchored, and only [reset] lowers
    the stored value. *)
Lemma anchored_handle (clk : Z) (e : Event) (s : State) :
  clk <= clock e ->
  anchored since clk s ->
  anchored since (clock e) (handle p e s)
  /\ (isReset e = false -> elapsedInMs s <= elapsedInMs (handle p e s)).
Proof.
  intros Hclk Hanch.
  destruct e as [now | now | now | now]; cbn [handle clock isReset] in *.
  - (* play *)
    split; [| intros _; rewrite TimerFacts.play_elapsed; lia].
    unfold play.
    destruct (JS.notNull (intervalId s));
      [apply (anchored_later clk); assumption |].
    destruct (_ && _); [apply (anchored_later clk); assumption |].
    unfold anchored in *. cbn [startTime pausedTime elapsedInMs intervalId].
    destruct (startTime s) as [st |].
    + cbn [JS.falsy].
      replace (st =? 0) with false by (symmetry; apply Z.eqb_neq; lia).
      destruct (pausedTime s) as [pa |]; intuition lia.
    + cbn [JS.falsy]. destruct Hanch as [Hs [Hel [-> _]]]. lia.
  - (* pause *)
    split; [| intros _; rewrite TimerFacts.pause_elapsed; lia].
    unfold pause, removeInterval. cbn [fst pausedTime elapsedInMs].
    unfold anchored in *.
    destruct (startTime s) as [st |] eqn:Hst.
    + destruct (pausedTime s) as [pa |] eqn:Hpa.
      * cbn [JS.falsy].
        replace (pa =? 0) with false by (symmetry; apply Z.eqb_neq; lia).
        cbn [andb startTime pausedTime elapsedInMs].
        rewrite ?Hst, ?Hpa. intuition lia.
      * cbn [JS.falsy andb].
        destruct (elapsedInMs s >? 0);
          cbn [startTime pausedTime elapsedInMs]; rewrite ?Hst, ?Hpa;
          intuition lia.
    + destruct Hanch as [Hs [Hel [Hpa Hid]]]. rewrite Hpa. cbn [JS.falsy andb].
      replace (elapsedInMs s >? 0) with false
        by (symmetry; rewrite Z.gtb_ltb; apply Z.ltb_ge; lia).
      cbn [startTime pausedTime elapsedInMs intervalId].
      rewrite ?Hst, ?Hpa. intuition lia.
  - (* reset *)
    split; [| discriminate].
    pose proof (anchored_since clk s Hanch) as Hs.
    unfold anchored. cbn [startTime reset resetState pausedTime elapsedInMs
                          intervalId].
    intuition lia.
  - (* tick *)
    destruct (JS.notNull (intervalId s)) eqn:Hid;
      [| split; [apply (anchored_later clk); assumption | lia]].
    unfold anchored in Hanch. unfold intervalCallback.
    destruct (startTime s) as [st |] eqn:Hst;
      [| destruct Hanch as [_ [_ [_ Hnone]]]; rewrite Hnone in Hid;
         discriminate Hid].
    destruct Hanch as [Hstart Hbound].
    destruct (pausedTime s) as [pa |] eqn:Hpa.
    + cbn [JS.falsy].
      replace (pa =? 0) with false by (symmetry; apply Z.eqb_neq; lia).
      split; [| cbn; lia].
      unfold anchored. cbn [startTime pausedTime elapsedInMs JS.toNumber].
      lia.
    + cbn [JS.falsy]. unfold setElapsedInMs.
      split; [| cbn; lia].
      unfold anchored. cbn [startTime pausedTime elapsedInMs JS.toNumber].
      rewrite ?Hst, ?Hpa. lia.
Qed.

(** Lowering the stored value keeps the references anchored. *)
Lemma anchored_clamp (clk v : Z) (f : FinishState) (s : State) :
  v <= elapsedInMs s ->
  anchored since clk s ->
  anchored since clk
    {| elapsedInMs := v;
       startTime := startTime s;
       pausedTime := pausedTime s;
       intervalId := None;
       finish := f;
       nextHandle := nextHandle s |}.
Proof.
  intros Hv. unfold anchored. cbn [startTime pausedTime elapsedInMs intervalId].
  destruct (startTime s) as [st |]; [| intuition lia].
  destruct (pausedTime s) as [pa |]; intuition lia.
Qed.

(** The completion effect only lowers the value the handler stored, and
    never below the value a clamped timer held before. *)
Lemma anchored_step (clk : Z) (e : Event) (s : State) :
  clk <= clock e ->
  (isTimer (mode p) = true -> clamped p s) ->
  anchored since clk s ->
  anchored since (clock e) (step p s e)
  /\ (isReset e = false -> elapsedInMs s <= elapsedInMs (step p s e)).
Proof.
  intros Hclk Hclamp Hanch.
  destruct (anchored_handle clk e s Hclk Hanch) as [Hanch' Hmono].
  unfold step.
  destruct (commit_cases p (clock e) (elapsedInMs s) (handle p e s))
    as [-> | [Hmode [Hge [_ [f [-> _]]]]]].
  - split; assumption.
  - split.
    + apply anchored_clamp; assumption.
    + intros _. cbn [elapsedInMs]. apply Hclamp. exact Hmode.
Qed.

(** A newly mounted engine has no reference yet. *)
Lemma anchored_mount : anchored since since (mount p since).
Proof.
  unfold mount.
  assert (Hreset : anchored since since (reset initial))
    by (unfold anchored; cbn [startTime reset resetState pausedTime
                              elapsedInMs intervalId]; intuition lia).
  destruct (isTimer (mode p)) eqn:Hmode;
    [| rewrite !TimerFacts.finishEffect_idle by (left; exact Hmode);
       destruct (_ =? _); exact Hreset].
  destruct (Z.le_gt_cases (initialTimeInMs p) 0) as [Hle | Hgt].
  - rewrite (TimerFacts.finishEffect_fires p since (reset initial))
      by (cbn; auto).
    cbn [elapsedInMs initial].
    destruct (initialTimeInMs p =? 0).
    + apply (anchored_clamp since _ _ (reset initial));
        [cbn; lia | exact Hreset].
    + rewrite TimerFacts.finishEffect_fires by (cbn; auto; lia).
      apply (anchored_clamp since _ _ (reset initial));
        [cbn; lia | exact Hreset].
  - rewrite TimerFacts.finishEffect_idle by (right; cbn; lia).
    replace (elapsedInMs (reset initial) =? elapsedInMs initial)
      with true by reflexivity.
    exact Hreset.
Qed.

Lemma lastClock_cons (clk : Z) (e : Event) (evs : list Event) :
  lastClock clk (e :: evs) = lastClock (clock e) evs.
Proof. reflexivity. Qed.

(** The clock of an ordered run, piece by piece. *)
Lemma ordered_lastClock (evs : list Event) (clk : Z) :
  ordered clk evs = true -> clk <= lastClock clk evs.
Proof.
  revert clk. induction evs as [| e evs IH]; intros clk Hord; [cbn; lia |].
  cbn [ordered] in Hord. apply andb_true_iff in Hord as [Hle Hord].
  apply Z.leb_le in Hle. rewrite lastClock_cons.
  specialize (IH _ Hord). lia.
Qed.

Lemma ordered_app (evs1 evs2 : list Event) (clk : Z) :
  ordered clk (evs1 ++ evs2)
  = ordered clk evs1 && ordered (lastClock clk evs1) evs2.
Proof.
  revert clk. induction evs1 as [| e evs1 IH]; intros clk; [reflexivity |].
  cbn [app ordered]. rewrite IH, lastClock_cons, andb_assoc. reflexivity.
Qed.

(** Along a run read off a clock that does not run backwards, the
    references stay anchored and a timer stays clamped; without [reset]
    the stored value does not decrease. *)
Lemma anchored_run (evs : list Event) (clk : Z) (s : State) :
  ordered clk evs = true ->
  (isTimer (mode p) = true -> clamped p s) ->
  anchored since clk s ->
  anchored since (lastClock clk evs) (run p evs s)
  /\ (isTimer (mode p) = true -> clamped p (run p evs s))
  /\ (resetFree evs = true -> elapsedInMs s <= elapsedInMs (run p evs s)).
Proof.
  revert clk s.
  induction evs as [| e evs IH]; intros clk s Hord Hclamp Hanch.
  - change (lastClock clk []) with clk. change (run p [] s) with s.
    split; [exact Hanch | split; [exact Hclamp | intros _; lia]].
  - cbn [ordered] in Hord. apply andb_true_iff in Hord as [Hle Hord].
    apply Z.leb_le in Hle.
    destruct (anchored_step clk e s Hle Hclamp Hanch) as [Hanch' Hmono].
    assert (Hclamp' : isTimer (mode p) = true -> clamped p (step p s e))
      by (intros Hm; apply clamped_step; auto).
    destruct (IH _ _ Hord Hclamp' Hanch') as [Hanch'' [Hclamp'' Hmono']].
    rewrite TimerFacts.run_cons, lastClock_cons.
    split; [exact Hanch'' | split; [exact Hclamp'' |]].
    intros Hfree. unfold resetFree in Hfree. cbn [forallb] in Hfree.
    apply andb_true_iff in Hfree as [He Hfree].
    apply negb_true_iff in He.
    specialize (Hmono He). specialize (Hmono' Hfree). lia.
Qed.

End Hook.

End AnchorFacts.

(** *** Tasks of one call, whatever [onFinish] is *)

Module FollowFacts.

Import Timer Clock.

Lemma sameRefs_refl (a : State) : Lifecycle.sameRefs a a.
Proof. repeat split. Qed.

Lemma sameRefs_removeInterval (h : Lifecycle.State) :
  Lifecycle.sameRefs (Lifecycle.cell (Lifecycle.removeInterval h))
    (removeInterval (Lifecycle.cell h)).
Proof.
  unfold Lifecycle.removeInterval.
  destruct (intervalId (Lifecycle.cell h)) eqn:Hid.
  - apply sameRefs_refl.
  - unfold Lifecycle.sameRefs. cbn. auto.
Qed.

(** The invariants of module [Clock] read the state cell and the refs
    only. *)
Lemma anchored_sameRefs (since clk : Z) (a b : State) :
  Lifecycle.sameRefs a b -> anchored since clk b -> anchored since clk a.
Proof.
  intros [Hel [Hst [Hpa Hid]]]. unfold anchored.
  rewrite Hel, Hst, Hpa, Hid. tauto.
Qed.

Lemma clamped_sameRefs (p : Props) (a b : State) :
  Lifecycle.sameRefs a b -> clamped p b -> clamped p a.
Proof.
  intros [Hel [Hst [Hpa Hid]]]. unfold clamped.
  rewrite Hel, Hid. tauto.
Qed.

Section Renders.

Variable p : Props.
Variable f : Lifecycle.OnFinish.

Lemma finishEffect_sameRefs (now : Z) (h : Lifecycle.State) (c : State) :
  Lifecycle.rendered h = elapsedInMs c ->
  Lifecycle.sameRefs (Lifecycle.cell h) c ->
  Lifecycle.sameRefs (Lifecycle.cell (Lifecycle.finishEffect p now h))
    (finishEffect p now c).
Proof.
  intros Hr Hsame. unfold Lifecycle.finishEffect, finishEffect.
  rewrite Hr.
  destruct (isTimer (mode p) && (elapsedInMs c >=? initialTimeInMs p));
    [| exact Hsame].
  destruct (LifecycleFacts.removeInterval_rendered h)
    as [_ [_ [Hid [Hst Hpa]]]].
  destruct Hsame as [_ [Hst' [Hpa' _]]].
  unfold Lifecycle.sameRefs. cbn. rewrite Hid, Hst, Hpa. auto.
Qed.

Lemma render_sameRefs (now : Z) (h : Lifecycle.State) (c : State) :
  Lifecycle.sameRefs (Lifecycle.cell h) c ->
  Lifecycle.sameRefs (Lifecycle.cell (Lifecycle.render p f now h))
    (finishEffect p now c).
Proof.
  intros Hsame. unfold Lifecycle.render.
  apply finishEffect_sameRefs;
    destruct (Lifecycle.isSame f); cbn; apply Hsame.
Qed.

Lemma commit_sameRefs (now : Z) (h : Lifecycle.State) (c : State) :
  Lifecycle.sameRefs (Lifecycle.cell h) c ->
  Lifecycle.sameRefs (Lifecycle.cell (Lifecycle.commit p f now h))
    (commit p now (Lifecycle.rendered h) c).
Proof.
  intros Hsame. unfold Lifecycle.commit, commit.
  rewrite (proj1 Hsame).
  destruct (elapsedInMs c =? Lifecycle.rendered h); [exact Hsame |].
  pose proof (render_sameRefs now h c Hsame) as Hsame1.
  rewrite LifecycleFacts.render_rendered.
  rewrite (proj1 Hsame1), (proj1 Hsame).
  destruct (_ =? elapsedInMs c); [exact Hsame1 |].
  apply render_sameRefs. exact Hsame1.
Qed.

(** A task of one call either does to the state cell and the refs what
    the step of module [Timer] does, or is a firing that does not
    happen. *)
Lemma step_follows (e : Event) (h : Lifecycle.State) :
  Lifecycle.tracked h ->
  Lifecycle.rendered h = elapsedInMs (Lifecycle.cell h) ->
  Lifecycle.sameRefs
    (Lifecycle.cell (fst (Lifecycle.step p f h (Lifecycle.task e))))
    (step p (Lifecycle.cell h) e)
  \/ (isReset e = false
      /\ fst (Lifecycle.step p f h (Lifecycle.task e)) = h).
Proof.
  intros Ht Hr. unfold step.
  destruct e as [now | now | now | now];
    cbn [Lifecycle.task Lifecycle.step fold_left Lifecycle.perform fst snd
         handle clock isReset].
  - left. rewrite <- Hr.
    replace (Lifecycle.rendered h)
      with (Lifecycle.rendered (Lifecycle.play p now h))
      by (unfold Lifecycle.play; destruct (JS.notNull _);
          [| destruct (_ && _)]; reflexivity).
    apply commit_sameRefs.
    unfold Lifecycle.play, play. rewrite Hr.
    destruct (JS.notNull _); [apply sameRefs_refl |].
    destruct (_ && _); [apply sameRefs_refl |].
    unfold Lifecycle.sameRefs. cbn. auto.
  - left. rewrite <- Hr.
    replace (Lifecycle.rendered h)
      with (Lifecycle.rendered (fst (Lifecycle.pause p now h)))
      by (unfold Lifecycle.pause; cbn [fst]; destruct (_ && _);
          cbn [Lifecycle.rendered];
          apply LifecycleFacts.removeInterval_rendered).
    apply commit_sameRefs.
    unfold Lifecycle.pause, pause. cbn [fst].
    destruct (LifecycleFacts.removeInterval_rendered h)
      as [Hr' [Hel [Hid [Hst Hpa]]]].
    rewrite Hr', Hpa, Hr.
    cbn [removeInterval pausedTime elapsedInMs].
    destruct (JS.falsy (pausedTime (Lifecycle.cell h))
              && (elapsedInMs (Lifecycle.cell h) >? 0));
      unfold Lifecycle.sameRefs; cbn; rewrite ?Hel, ?Hid, ?Hst, ?Hpa; auto.
  - left. rewrite <- Hr.
    replace (Lifecycle.rendered h)
      with (Lifecycle.rendered (Lifecycle.reset h))
      by (cbn [Lifecycle.reset Lifecycle.rendered];
          apply LifecycleFacts.removeInterval_rendered).
    apply commit_sameRefs.
    destruct (LifecycleFacts.removeInterval_rendered h)
      as [Hr' [Hel [Hid [Hst Hpa]]]].
    unfold Lifecycle.sameRefs. cbn. rewrite Hid. auto.
  - destruct (Lifecycle.installed h) as [id |] eqn:Hin.
    + left. destruct Ht as [Ht | Ht]; [congruence |].
      rewrite <- Ht, Hin. cbn [JS.notNull fst].
      rewrite <- Hr.
      change (Lifecycle.rendered h)
        with (Lifecycle.rendered (Lifecycle.intervalCallback now h)).
      apply commit_sameRefs. apply sameRefs_refl.
    + right. split; reflexivity.
Qed.

Lemma mount_sameRefs (now : Z) :
  Lifecycle.sameRefs (Lifecycle.cell (Lifecycle.mount p f now))
    (mount p now).
Proof.
  unfold Lifecycle.mount, mount.
  set (h0 := {| Lifecycle.cell := initial;
                Lifecycle.rendered := 0;
                Lifecycle.installed := None |}).
  assert (Hreset : Lifecycle.sameRefs (Lifecycle.cell (Lifecycle.reset h0))
                     (reset initial)).
  { unfold Lifecycle.sameRefs. cbn. auto. }
  pose proof (finishEffect_sameRefs now (Lifecycle.reset h0) (reset initial)
                eq_refl Hreset) as Hsame1.
  rewrite (proj1 Hsame1).
  replace (Lifecycle.rendered
             (Lifecycle.finishEffect p now (Lifecycle.reset h0)))
    with (elapsedInMs initial).
  - destruct (_ =? elapsedInMs initial); [exact Hsame1 |].
    apply render_sameRefs. exact Hsame1.
  - unfold Lifecycle.finishEffect. destruct (_ && _); reflexivity.
Qed.

Section Anchored.

Variable since : Z.
Hypothesis Hsince : 0 < since.

(** The invariants of module [Clock] along tasks of one call each,
    whatever [onFinish] is. *)
Lemma anchored_tasks (evs : list Event) (clk : Z) (h : Lifecycle.State) :
  ordered clk evs = true ->
  Lifecycle.tracked h ->
  Lifecycle.rendered h = elapsedInMs (Lifecycle.cell h) ->
  (isTimer (mode p) = true -> clamped p (Lifecycle.cell h)) ->
  anchored since clk (Lifecycle.cell h) ->
  anchored since (lastClock clk evs)
    (Lifecycle.cell (Lifecycle.after p f (map Lifecycle.task evs) h))
  /\ (isTimer (mode p) = true ->
      clamped p
        (Lifecycle.cell (Lifecycle.after p f (map Lifecycle.task evs) h)))
  /\ (resetFree evs = true ->
      elapsedInMs (Lifecycle.cell h)
      <= elapsedInMs
           (Lifecycle.cell
              (Lifecycle.after p f (map Lifecycle.task evs) h))).
Proof.
  revert clk h.
  induction evs as [| e evs IH]; intros clk h Hord Ht Hr Hclamp Hanch.
  - change (lastClock clk []) with clk.
    change (Lifecycle.after p f (map Lifecycle.task []) h) with h.
    split; [exact Hanch | split; [exact Hclamp | intros _; lia]].
  - cbn [ordered] in Hord. apply andb_true_iff in Hord as [Hle Hord].
    apply Z.leb_le in Hle.
    cbn [map]. rewrite LifecycleFacts.after_cons, AnchorFacts.lastClock_cons.
    set (h' := fst (Lifecycle.step p f h (Lifecycle.task e))).
    assert (Ht' : Lifecycle.tracked h')
      by (apply LifecycleFacts.tracked_step; exact Ht).
    assert (Hr' : Lifecycle.rendered h' = elapsedInMs (Lifecycle.cell h'))
      by (apply LifecycleFacts.step_rendered; exact Hr).
    destruct (AnchorFacts.anchored_step p since Hsince clk e
                (Lifecycle.cell h) Hle Hclamp Hanch) as [Hanch1 Hmono1].
    assert (Hnext :
              anchored since (clock e) (Lifecycle.cell h')
              /\ (isTimer (mode p) = true -> clamped p (Lifecycle.cell h'))
              /\ (isReset e = false ->
                  elapsedInMs (Lifecycle.cell h)
                  <= elapsedInMs (Lifecycle.cell h'))).
    { destruct (step_follows e h Ht Hr) as [Hsame | [Hquiet Hskip]];
        fold h' in Hsame || fold h' in Hskip.
      - split; [| split].
        + apply (anchored_sameRefs since (clock e) _ _ Hsame Hanch1).
        + intros Hm. apply (clamped_sameRefs p _ _ Hsame).
          apply EngineFacts.clamped_step; auto.
        + intros He. rewrite (proj1 Hsame). apply Hmono1. exact He.
      - rewrite Hskip. split; [| split].
        + apply (AnchorFacts.anchored_later since clk (clock e));
            assumption.
        + exact Hclamp.
        + intros _. lia. }
    destruct Hnext as [Hanch' [Hclamp' Hmono]].
    destruct (IH (clock e) h' Hord Ht' Hr' Hclamp' Hanch')
      as [Hanch'' [Hclamp'' Hmono']].
    split; [exact Hanch'' | split; [exact Hclamp'' |]].
    intros Hfree. unfold resetFree in Hfree. cbn [forallb] in Hfree.
    apply andb_true_iff in Hfree as [He Hfree].
    apply negb_true_iff in He.
    specialize (Hmono He). specialize (Hmono' Hfree). lia.
Qed.

End Anchored.

End Renders.

End FollowFacts.

(** X13.  When every call is made from a handler of its own, then
    whatever [onFinish] is, on a positive clock that does not run
    backwards, the stored elapsed time never decreases along tasks that
    contain no [reset], whatever happened before them. *)
Theorem elapsed_never_decreases
        (p : Timer.Props) (f : Lifecycle.OnFinish) (mountedAt : Z)
        (evs1 evs2 : list Timer.Event) :
  0 < mountedAt ->
  Clock.ordered mountedAt (evs1 ++ evs2) = true ->
  Clock.resetFree evs2 = true ->
  Timer.elapsedInMs
    (Lifecycle.cell
       (Lifecycle.after p f (map Lifecycle.task evs1)
          (Lifecycle.mount p f mountedAt)))
  <= Timer.elapsedInMs
       (Lifecycle.cell
          (Lifecycle.after p f (map Lifecycle.task (evs1 ++ evs2))
             (Lifecycle.mount p f mountedAt))).
Proof.
  intros Hpos Hord Hfree.
  rewrite AnchorFacts.ordered_app in Hord.
  apply andb_true_iff in Hord as [Hord1 Hord2].
  pose proof (FollowFacts.mount_sameRefs p f mountedAt) as Hsame.
  assert (Hclamp0 : Timer.isTimer (Timer.mode p) = true ->
                    Clock.clamped p
                      (Lifecycle.cell (Lifecycle.mount p f mountedAt))).
  { intros Hm. apply (FollowFacts.clamped_sameRefs p _ _ Hsame).
    apply EngineFacts.clamped_mount. exact Hm. }
  assert (Hanch0 : Clock.anchored mountedAt mountedAt
                     (Lifecycle.cell (Lifecycle.mount p f mountedAt))).
  { apply (FollowFacts.anchored_sameRefs mountedAt mountedAt _ _ Hsame).
    apply AnchorFacts.anchored_mount. }
  destruct (FollowFacts.anchored_tasks p f mountedAt Hpos evs1 mountedAt
              (Lifecycle.mount p f mountedAt) Hord1
              (LifecycleFacts.tracked_mount p f mountedAt)
              (LifecycleFacts.mount_rendered p f mountedAt) Hclamp0 Hanch0)
    as [Hanch [Hclamp _]].
  assert (Hsplit : Lifecycle.after p f (map Lifecycle.task (evs1 ++ evs2))
                     (Lifecycle.mount p f mountedAt)
                   = Lifecycle.after p f (map Lifecycle.task evs2)
                       (Lifecycle.after p f (map Lifecycle.task evs1)
                          (Lifecycle.mount p f mountedAt))).
  { rewrite map_app. apply LifecycleFacts.after_app. }
  rewrite Hsplit.
  apply (FollowFacts.anchored_tasks p f mountedAt Hpos evs2 _ _ Hord2).
  - apply LifecycleFacts.tracked_run. apply LifecycleFacts.tracked_mount.
  - apply LifecycleFacts.after_rendered, LifecycleFacts.mount_rendered.
  - exact Hclamp.
  - exact Hanch.
  - exact Hfree.
Qed.

(** The pause and resume scenario with [onFinish] left out, split after
    the first pause. *)
Lemma elapsed_never_decreases_witness :
  Timer.elapsedInMs
    (Lifecycle.cell
       (Lifecycle.after Scenario.stopwatch Lifecycle.NewFunctionEachRender
          (map Lifecycle.task
             (Scenario.firstLeg Scenario.stopwatch Scenario.t0))
          (Lifecycle.mount Scenario.stopwatch Lifecycle.NewFunctionEachRender
             Scenario.t0)))
  <= Timer.elapsedInMs
       (Lifecycle.cell
          (Lifecycle.after Scenario.stopwatch Lifecycle.NewFunctionEachRender
             (map Lifecycle.task
                (Scenario.firstLeg Scenario.stopwatch Scenario.t0
                 ++ Scenario.resume Scenario.t0
                 ++ Scenario.secondLeg Scenario.stopwatch Scenario.t0))
             (Lifecycle.mount Scenario.stopwatch
                Lifecycle.NewFunctionEachRender Scenario.t0))).
Proof.
  assert (Hpos : 0 < Scenario.t0) by (vm_compute; reflexivity).
  assert (Hord : Clock.ordered Scenario.t0
                   (Scenario.firstLeg Scenario.stopwatch Scenario.t0
                    ++ Scenario.resume Scenario.t0
                    ++ Scenario.secondLeg Scenario.stopwatch Scenario.t0)
                 = true) by (vm_compute; reflexivity).
  assert (Hfree : Clock.resetFree
                    (Scenario.resume Scenario.t0
                     ++ Scenario.secondLeg Scenario.stopwatch Scenario.t0)
                  = true) by (vm_compute; reflexivity).
  exact (elapsed_never_decreases Scenario.stopwatch
           Lifecycle.NewFunctionEachRender Scenario.t0
           (Scenario.firstLeg Scenario.stopwatch Scenario.t0)
           (Scenario.resume Scenario.t0
            ++ Scenario.secondLeg Scenario.stopwatch Scenario.t0)
           Hpos Hord Hfree).
Defined.

(** X14.  On such a clock the stored elapsed time is never more than
    the time that has passed since the mount. *)
Theorem elapsed_bounded_by_clock
        (p : Timer.Props) (mountedAt : Z) (evs : list Timer.Event) :
  0 < mountedAt ->
  Clock.ordered mountedAt evs = true ->
  Timer.elapsedInMs (Timer.run p evs (Timer.mount p mountedAt))
  <= Clock.lastClock mountedAt evs - mountedAt.
Proof.
  intros Hpos Hord.
  destruct (AnchorFacts.anchored_run p mountedAt Hpos evs mountedAt
              (Timer.mount p mountedAt) Hord
              (EngineFacts.clamped_mount p mountedAt)
              (AnchorFacts.anchored_mount p mountedAt))
    as [Hanch _].
  pose proof (AnchorFacts.ordered_lastClock evs mountedAt Hord) as Hlast.
  unfold Clock.anchored in Hanch.
  destruct (Timer.startTime _) as [st |]; [| lia].
  destruct (Timer.pausedTime _) as [pa |]; lia.
Qed.

(** The pause and resume scenario. *)
Lemma elapsed_bounded_by_clock_witness :
  Timer.elapsedInMs
    (Timer.run Scenario.stopwatch
       (Scenario.pauseResume Scenario.stopwatch Scenario.t0)
       (Timer.mount Scenario.stopwatch Scenario.t0))
  <= Clock.lastClock Scenario.t0
       (Scenario.pauseResume Scenario.stopwatch Scenario.t0)
     - Scenario.t0.
Proof.
  assert (Hpos : 0 < Scenario.t0) by (vm_compute; reflexivity).
  assert (Hord : Clock.ordered Scenario.t0
                   (Scenario.pauseResume Scenario.stopwatch Scenario.t0)
                 = true) by (vm_compute; reflexivity).
  exact (elapsed_bounded_by_clock Scenario.stopwatch Scenario.t0
           (Scenario.pauseResume Scenario.stopwatch Scenario.t0) Hpos Hord).
Defined.

Module FinishFacts.

Import Timer EngineFacts.

Section Hook.

Variable p : Props.

(** The completion callback is throttled without trailing invocation: no
    event of the engine arms its timer. *)
Lemma step_no_timer (e : Event) (s : State) :
  Throttle.timeout (finish s) = None ->
  Throttle.timeout (finish (step p s e)) = None.
Proof.
  intros Hnone. unfold step.
  destruct (commit_cases p (clock e) (elapsedInMs s) (handle p e s))
    as [-> | [_ [_ [_ [f [-> Hf]]]]]].
  - rewrite handle_finish. exact Hnone.
  - cbn [finish]. rewrite handle_finish in Hf.
    destruct Hf as [-> | ->];
      repeat apply TimerFacts.throttledOnFinish_no_timer; exact Hnone.
Qed.

Lemma mount_no_timer (now : Z) :
  Throttle.timeout (finish (mount p now)) = None.
Proof.
  unfold mount, finishEffect.
  destruct (isTimer (mode p) && _); [| reflexivity].
  cbn [elapsedInMs setElapsedInMs removeInterval].
  destruct (_ =? _); cbn [finish setElapsedInMs removeInterval];
    [apply TimerFacts.throttledOnFinish_no_timer; reflexivity |].
  destruct (isTimer (mode p) && _); cbn [finish setElapsedInMs removeInterval];
    repeat apply TimerFacts.throttledOnFinish_no_timer; reflexivity.
Qed.

Lemma run_no_timer (evs : list Event) (s : State) :
  Throttle.timeout (finish s) = None ->
  Throttle.timeout (finish (run p evs s)) = None.
Proof.
  revert s. induction evs as [| e evs IH]; intros s Hs; [exact Hs |].
  rewrite TimerFacts.run_cons. apply IH, step_no_timer, Hs.
Qed.

(** A stopwatch never touches the throttle. *)
Lemma stopwatch_run_finish (evs : list Event) (s : State) :
  mode p = Stopwatch -> finish (run p evs s) = finish s.
Proof.
  intros Hmode. revert s.
  induction evs as [| e evs IH]; intros s; [reflexivity |].
  rewrite TimerFacts.run_cons, IH.
  rewrite StopwatchFacts.stopwatch_step by exact Hmode.
  apply handle_finish.
Qed.

End Hook.

End FinishFacts.

(** X12.  The throttle of the completion callback never has a
    timer pending, and in stopwatch mode [onFinish] is never called. *)
Theorem completion_callback_only_in_timer_mode
        (p : Timer.Props) (mountedAt : Z) (evs : list Timer.Event) :
  Throttle.timeout
    (Timer.finish (Timer.run p evs (Timer.mount p mountedAt))) = None
  /\ (Timer.mode p = Timer.Stopwatch ->
      Throttle.calls
        (Timer.finish (Timer.run p evs (Timer.mount p mountedAt))) = []).
Proof.
  split.
  - apply FinishFacts.run_no_timer, FinishFacts.mount_no_timer.
  - intros Hmode.
    rewrite FinishFacts.stopwatch_run_finish by exact Hmode.
    rewrite StopwatchFacts.mount_stopwatch by exact Hmode.
    reflexivity.
Qed.

(** X15.  A [pause()] that comes before the first sample of a
    stopwatch records no pause time (the elapsed time is still 0), so after
    the next [play()] the samples count from the first [play()], the paused
    time included. *)
Theorem pause_before_first_sample_is_not_recorded
        (p : Timer.Props) (mountedAt t u v w : Z) :
  Timer.mode p = Timer.Stopwatch ->
  t <> 0 ->
  Timer.pausedTime
    (Timer.run p [Timer.Play t; Timer.Pause u] (Timer.mount p mountedAt))
  = None
  /\ Timer.elapsedInMs
       (Timer.run p [Timer.Play t; Timer.Pause u; Timer.Play v; Timer.Tick w]
          (Timer.mount p mountedAt))
     = w - t.
Proof.
  intros Hmode Ht. apply Z.eqb_neq in Ht.
  rewrite StopwatchFacts.mount_stopwatch by exact Hmode.
  unfold Timer.run. cbn [fold_left].
  rewrite !StopwatchFacts.stopwatch_step by exact Hmode.
  assert (Hplay : Timer.handle p (Timer.Play t) Timer.initial
                  = {| Timer.elapsedInMs := 0;
                       Timer.startTime := Some t;
                       Timer.pausedTime := None;
                       Timer.intervalId := Some 1%positive;
                       Timer.finish := Throttle.init unit unit;
                       Timer.nextHandle := 2%positive |}).
  { cbn [Timer.handle]. unfold Timer.play, Timer.initial.
    cbn [Timer.intervalId JS.notNull]. rewrite Hmode.
    cbn [Timer.isTimer]. rewrite andb_false_r. reflexivity. }
  rewrite Hplay.
  assert (Hpause : Timer.handle p (Timer.Pause u)
                     {| Timer.elapsedInMs := 0;
                        Timer.startTime := Some t;
                        Timer.pausedTime := None;
                        Timer.intervalId := Some 1%positive;
                        Timer.finish := Throttle.init unit unit;
                        Timer.nextHandle := 2%positive |}
                   = {| Timer.elapsedInMs := 0;
                        Timer.startTime := Some t;
                        Timer.pausedTime := None;
                        Timer.intervalId := None;
                        Timer.finish := Throttle.init unit unit;
                        Timer.nextHandle := 2%positive |})
    by reflexivity.
  rewrite Hpause. split; [reflexivity |].
  cbn [Timer.handle]. unfold Timer.play.
  cbn [Timer.intervalId JS.notNull Timer.elapsedInMs Timer.startTime
       JS.falsy Timer.pausedTime Timer.finish Timer.nextHandle].
  rewrite Hmode. cbn [Timer.isTimer]. rewrite andb_false_r, Ht.
  cbn [Timer.intervalId JS.notNull].
  unfold Timer.intervalCallback.
  cbn [Timer.pausedTime JS.falsy Timer.setElapsedInMs Timer.elapsedInMs
       Timer.startTime JS.toNumber].
  reflexivity.
Qed.

(** A pause 10 ms after [play()], before the first tick. *)
Lemma pause_before_first_sample_is_not_recorded_witness :
  Timer.elapsedInMs
    (Timer.run Scenario.stopwatch
       [ Timer.Play Scenario.t0; Timer.Pause (Scenario.t0 + 10);
         Timer.Play (Scenario.t0 + 2010); Timer.Tick (Scenario.t0 + 2026) ]
       (Timer.mount Scenario.stopwatch Scenario.t0))
  = Scenario.t0 + 2026 - Scenario.t0.
Proof.
  assert (Hnz : Scenario.t0 <> 0) by (vm_compute; discriminate).
  exact (proj2 (pause_before_first_sample_is_not_recorded Scenario.stopwatch
                  Scenario.t0 Scenario.t0 (Scenario.t0 + 10)
                  (Scenario.t0 + 2010) (Scenario.t0 + 2026) eq_refl Hnz)).
Defined.

(** X16.  Whatever [onFinish] is and from any state, [reset()]
    followed, from a later handler, by [play()] at [t] anchors the engine
    at [t] with nothing elapsed and no pause on record and installs a new
    interval, and a firing at [u] (short of the initial time, for a
    timer) stores [u - t]. *)
Theorem reset_then_play_starts_afresh
        (p : Timer.Props) (f : Lifecycle.OnFinish) (h : Lifecycle.State)
        (r t u : Z) :
  Timer.mode p = Timer.Stopwatch \/ u - t < Timer.initialTimeInMs p ->
  0 < t <= u ->
  let played :=
    Lifecycle.after p f
      [ Lifecycle.Handler r [Lifecycle.CallReset];
        Lifecycle.Handler t [Lifecycle.CallPlay] ] h in
  Timer.startTime (Lifecycle.cell played) = Some t
  /\ Timer.pausedTime (Lifecycle.cell played) = None
  /\ Timer.elapsedInMs (Lifecycle.cell played) = 0
  /\ Lifecycle.rendered played = 0
  /\ Timer.intervalId (Lifecycle.cell played)
     = Some (Timer.nextHandle (Lifecycle.cell h))
  /\ Lifecycle.installed played = Some (Timer.nextHandle (Lifecycle.cell h))
  /\ Timer.elapsedInMs
       (Lifecycle.cell
          (Lifecycle.after p f
             [ Lifecycle.Handler r [Lifecycle.CallReset];
               Lifecycle.Handler t [Lifecycle.CallPlay];
               Lifecycle.Fire u ] h))
     = u - t.
Proof.
  intros Hmode Htu.
  assert (Hidle0 : Timer.isTimer (Timer.mode p) = false
                   \/ 0 < Timer.initialTimeInMs p).
  { destruct Hmode as [-> | Hlt]; [left; reflexivity | right; lia]. }
  (* after the reset and its render *)
  set (h1 := Lifecycle.commit p f r (Lifecycle.reset h)).
  destruct (LifecycleFacts.commit_idle_fields p f r (Lifecycle.reset h))
    as [Hel1 [Hr1 [Hst1 [Hpa1 [Hid1 Hnh1]]]]];
    [exact Hidle0 |].
  fold h1 in Hel1, Hr1, Hst1, Hpa1, Hid1, Hnh1.
  destruct (LifecycleFacts.removeInterval_rendered h)
    as [_ [_ [Hrid [_ _]]]].
  cbn [Lifecycle.reset Lifecycle.cell Timer.resetState Timer.elapsedInMs
       Timer.startTime Timer.pausedTime Timer.intervalId Timer.nextHandle]
    in Hel1, Hr1, Hst1, Hpa1, Hid1, Hnh1.
  rewrite Hrid in Hid1.
  assert (Hnh : Timer.nextHandle (Lifecycle.cell h1)
                = Timer.nextHandle (Lifecycle.cell h)).
  { rewrite Hnh1. unfold Lifecycle.removeInterval.
    destruct (Timer.intervalId (Lifecycle.cell h)); reflexivity. }
  (* play *)
  assert (Hplay : Lifecycle.play p t h1
                  = {| Lifecycle.cell :=
                         {| Timer.elapsedInMs := 0;
                            Timer.startTime := Some t;
                            Timer.pausedTime := None;
                            Timer.intervalId :=
                              Some (Timer.nextHandle (Lifecycle.cell h));
                            Timer.finish := Timer.finish (Lifecycle.cell h1);
                            Timer.nextHandle :=
                              Pos.succ (Timer.nextHandle (Lifecycle.cell h)) |};
                       Lifecycle.rendered := 0;
                       Lifecycle.installed :=
                         Some (Timer.nextHandle (Lifecycle.cell h)) |}).
  { unfold Lifecycle.play. rewrite Hid1, Hr1, Hst1, Hpa1, Hel1, Hnh.
    cbn [JS.notNull JS.falsy].
    replace ((0 =? Timer.initialTimeInMs p) && Timer.isTimer (Timer.mode p))
      with false; [reflexivity |].
    symmetry. destruct Hidle0 as [-> | Hpos]; [apply andb_false_r |].
    replace (0 =? Timer.initialTimeInMs p) with false
      by (symmetry; apply Z.eqb_neq; lia).
    reflexivity. }
  set (h2 := Lifecycle.commit p f t (Lifecycle.play p t h1)).
  assert (Hh2 : h2 = Lifecycle.play p t h1).
  { unfold h2, Lifecycle.commit. rewrite Hplay. reflexivity. }
  assert (Hplayed : Lifecycle.after p f
                      [ Lifecycle.Handler r [Lifecycle.CallReset];
                        Lifecycle.Handler t [Lifecycle.CallPlay] ] h = h2)
    by reflexivity.
  cbv zeta. rewrite Hplayed, Hh2, Hplay.
  cbn [Lifecycle.cell Lifecycle.rendered Lifecycle.installed
       Timer.startTime Timer.pausedTime Timer.elapsedInMs Timer.intervalId].
  repeat (split; [reflexivity |]).
  change (Lifecycle.after p f
            [ Lifecycle.Handler r [Lifecycle.CallReset];
              Lifecycle.Handler t [Lifecycle.CallPlay];
              Lifecycle.Fire u ] h)
    with (fst (Lifecycle.step p f h2 (Lifecycle.Fire u))).
  rewrite Hh2, Hplay. cbn [Lifecycle.step Lifecycle.installed fst].
  match goal with
  | |- Timer.elapsedInMs (Lifecycle.cell (Lifecycle.commit p f u ?x)) = _ =>
      destruct (LifecycleFacts.commit_idle_fields p f u x) as [Hel _]
  end.
  - destruct Hmode as [-> | Hlt]; [left; reflexivity | right].
    cbn. exact Hlt.
  - rewrite Hel. cbn. reflexivity.
Qed.

(** The stopwatch that has run for a second, [onFinish] left out, reset
    and played again. *)
Lemma reset_then_play_starts_afresh_witness :
  Timer.elapsedInMs
    (Lifecycle.cell
       (Lifecycle.after Scenario.stopwatch Lifecycle.NewFunctionEachRender
          [ Lifecycle.Handler (Scenario.t0 + 2000) [Lifecycle.CallReset];
            Lifecycle.Handler (Scenario.t0 + 3000) [Lifecycle.CallPlay];
            Lifecycle.Fire (Scenario.t0 + 3016) ]
          (Session.oneSecond Lifecycle.NewFunctionEachRender)))
  = Scenario.t0 + 3016 - (Scenario.t0 + 3000).
Proof.
  assert (Htu : 0 < Scenario.t0 + 3000 <= Scenario.t0 + 3016)
    by (split; vm_compute; [reflexivity | discriminate]).
  exact (proj2 (proj2 (proj2 (proj2 (proj2 (proj2
           (reset_then_play_starts_afresh Scenario.stopwatch
              Lifecycle.NewFunctionEachRender
              (Session.oneSecond Lifecycle.NewFunctionEachRender)
              (Scenario.t0 + 2000) (Scenario.t0 + 3000) (Scenario.t0 + 3016)
              (or_introl eq_refl) Htu))))))).
Defined.

(** X23.  When [onFinish] is a new function at every render, as it is
    when it is left out, the first firing that stores a new value is the
    last one: the render it causes rebuilds the throttle, and the
    cleanup of the replaced render clears the interval at the host and
    leaves [intervalId.current] set.  Later firings do not happen and
    [play()] returns at its first guard; after [pause()], which clears
    the ref, [play()] from a later handler installs a new interval.
    With one [onFinish] function the interval stays installed. *)
Theorem sampling_stops_at_the_first_new_sample
        (p : Timer.Props) (h : Lifecycle.State) (id : positive) (now : Z) :
  Timer.mode p = Timer.Stopwatch
  \/ now - JS.toNumber (Timer.startTime (Lifecycle.cell h))
     < Timer.initialTimeInMs p ->
  Lifecycle.installed h = Some id ->
  Timer.intervalId (Lifecycle.cell h) = Some id ->
  JS.falsy (Timer.pausedTime (Lifecycle.cell h)) = true ->
  now - JS.toNumber (Timer.startTime (Lifecycle.cell h))
  <> Lifecycle.rendered h ->
  let sampled :=
    fst (Lifecycle.step p Lifecycle.NewFunctionEachRender h
           (Lifecycle.Fire now)) in
  Timer.elapsedInMs (Lifecycle.cell sampled)
  = now - JS.toNumber (Timer.startTime (Lifecycle.cell h))
  /\ Lifecycle.rendered sampled
     = now - JS.toNumber (Timer.startTime (Lifecycle.cell h))
  /\ Lifecycle.installed sampled = None
  /\ Timer.intervalId (Lifecycle.cell sampled) = Some id
  /\ (forall later : Z,
      Lifecycle.step p Lifecycle.NewFunctionEachRender sampled
        (Lifecycle.Fire later)
      = (sampled, []))
  /\ (forall later : Z,
      Lifecycle.step p Lifecycle.NewFunctionEachRender sampled
        (Lifecycle.Handler later [Lifecycle.CallPlay])
      = (sampled, []))
  /\ (forall later later' : Z,
      Lifecycle.installed
        (Lifecycle.after p Lifecycle.NewFunctionEachRender
           [ Lifecycle.Handler later [Lifecycle.CallPause];
             Lifecycle.Handler later' [Lifecycle.CallPlay] ] sampled)
      = Some (Timer.nextHandle (Lifecycle.cell h)))
  /\ Lifecycle.installed
       (fst (Lifecycle.step p Lifecycle.SameFunction h (Lifecycle.Fire now)))
     = Some id.
Proof.
  intros Hmode Hin Hid Hpaused Hnew.
  set (sample := now - JS.toNumber (Timer.startTime (Lifecycle.cell h))) in *.
  assert (Hcb : Lifecycle.intervalCallback now h
                = {| Lifecycle.cell :=
                       Timer.setElapsedInMs sample (Lifecycle.cell h);
                     Lifecycle.rendered := Lifecycle.rendered h;
                     Lifecycle.installed := Some id |}).
  { unfold Lifecycle.intervalCallback, Timer.intervalCallback.
    rewrite Hpaused, Hin. reflexivity. }
  assert (Hidle : Timer.isTimer (Timer.mode p) = false
                  \/ Timer.elapsedInMs
                       (Lifecycle.cell (Lifecycle.intervalCallback now h))
                     < Timer.initialTimeInMs p).
  { rewrite Hcb. destruct Hmode as [-> | Hlt]; [left; reflexivity | right].
    exact Hlt. }
  assert (Hstep : forall f,
             fst (Lifecycle.step p f h (Lifecycle.Fire now))
             = Lifecycle.render p f now (Lifecycle.intervalCallback now h)).
  { intros f. cbn [Lifecycle.step]. rewrite Hin. cbn [fst].
    rewrite (LifecycleFacts.commit_idle p f now _ Hidle).
    rewrite Hcb at 1 2.
    cbn [Lifecycle.cell Lifecycle.rendered Timer.setElapsedInMs
         Timer.elapsedInMs].
    apply Z.eqb_neq in Hnew. rewrite Hnew. reflexivity. }
  assert (Hsampled :
            fst (Lifecycle.step p Lifecycle.NewFunctionEachRender h
                   (Lifecycle.Fire now))
            = {| Lifecycle.cell :=
                   {| Timer.elapsedInMs := sample;
                      Timer.startTime := Timer.startTime (Lifecycle.cell h);
                      Timer.pausedTime := Timer.pausedTime (Lifecycle.cell h);
                      Timer.intervalId := Some id;
                      Timer.finish :=
                        Lifecycle.rebuilt (Timer.finish (Lifecycle.cell h));
                      Timer.nextHandle :=
                        Timer.nextHandle (Lifecycle.cell h) |};
                 Lifecycle.rendered := sample;
                 Lifecycle.installed := None |}).
  { rewrite Hstep, (LifecycleFacts.render_idle p _ now _ Hidle), Hcb.
    cbn [Lifecycle.isSame Lifecycle.cleanup Lifecycle.rebuild Lifecycle.cell
         Lifecycle.rendered
         Lifecycle.installed Timer.setElapsedInMs Timer.elapsedInMs
         Timer.startTime Timer.pausedTime Timer.intervalId Timer.finish
         Timer.nextHandle].
    unfold Lifecycle.cleanup, Lifecycle.rebuild, Timer.setElapsedInMs.
    cbn [Lifecycle.cell Lifecycle.rendered Lifecycle.installed
         Timer.elapsedInMs Timer.startTime Timer.pausedTime Timer.intervalId
         Timer.finish Timer.nextHandle].
    rewrite Hid, LifecycleFacts.clearInterval_same. reflexivity. }
  cbv zeta. rewrite Hsampled.
  cbn [Lifecycle.cell Lifecycle.rendered Lifecycle.installed
       Timer.elapsedInMs Timer.intervalId].
  do 4 (split; [reflexivity |]).
  split; [| split; [| split]].
  - intros later. reflexivity.
  - intros later. cbn [Lifecycle.step fold_left Lifecycle.perform fst snd].
    unfold Lifecycle.play, Lifecycle.commit.
    cbn [Lifecycle.cell Lifecycle.rendered Timer.intervalId JS.notNull
         Timer.elapsedInMs].
    rewrite Z.eqb_refl. reflexivity.
  - intros later later'.
    unfold Lifecycle.after, Lifecycle.run.
    cbn [fold_left Lifecycle.step Lifecycle.perform fst snd app].
    unfold Lifecycle.pause, Lifecycle.removeInterval.
    cbn [Lifecycle.cell Lifecycle.rendered Lifecycle.installed
         Timer.intervalId Timer.removeInterval Timer.pausedTime fst].
    rewrite Hpaused. cbn [andb].
    assert (Hnot : (sample =? Timer.initialTimeInMs p)
                   && Timer.isTimer (Timer.mode p) = false).
    { destruct Hmode as [-> | Hlt]; [apply andb_false_r |].
      replace (sample =? Timer.initialTimeInMs p) with false
        by (symmetry; apply Z.eqb_neq; lia).
      reflexivity. }
    destruct (sample >? 0);
      unfold Lifecycle.commit, Lifecycle.play;
      cbn [Lifecycle.cell Lifecycle.rendered Lifecycle.installed
           Timer.elapsedInMs Timer.intervalId Timer.nextHandle JS.notNull];
      rewrite ?Z.eqb_refl;
      cbn [Lifecycle.cell Lifecycle.rendered Lifecycle.installed
           Timer.elapsedInMs Timer.intervalId Timer.nextHandle JS.notNull];
      rewrite Hnot;
      cbn [Lifecycle.cell Lifecycle.rendered Lifecycle.installed
           Timer.elapsedInMs];
      rewrite ?Z.eqb_refl; reflexivity.
  - rewrite Hstep, (LifecycleFacts.render_idle p _ now _ Hidle), Hcb.
    reflexivity.
Qed.

(** The default stopwatch with [onFinish] left out: of three firings and
    a second [play()] only the first firing counts. *)
Lemma sampling_stops_at_the_first_new_sample_witness :
  Lifecycle.returned Scenario.stopwatch Lifecycle.NewFunctionEachRender
    [ Lifecycle.Handler Scenario.t0 [Lifecycle.CallPlay];
      Lifecycle.Fire (Scenario.t0 + 16);
      Lifecycle.Fire (Scenario.t0 + 32);
      Lifecycle.Handler (Scenario.t0 + 40) [Lifecycle.CallPlay];
      Lifecycle.Fire (Scenario.t0 + 48);
      Lifecycle.Handler (Scenario.t0 + 1000) [Lifecycle.CallGetSnapshot] ]
    (Lifecycle.mount Scenario.stopwatch Lifecycle.NewFunctionEachRender
       Scenario.t0)
  = [16]
  /\ Lifecycle.installed
       (fst (Lifecycle.step Scenario.stopwatch Lifecycle.NewFunctionEachRender
               (Lifecycle.after Scenario.stopwatch
                  Lifecycle.NewFunctionEachRender
                  [Lifecycle.Handler Scenario.t0 [Lifecycle.CallPlay]]
                  (Lifecycle.mount Scenario.stopwatch
                     Lifecycle.NewFunctionEachRender Scenario.t0))
               (Lifecycle.Fire (Scenario.t0 + 16))))
     = None.
Proof.
  split; [vm_compute; reflexivity |].
  assert (Hnew : Scenario.t0 + 16
                 - JS.toNumber
                     (Timer.startTime
                        (Lifecycle.cell
                           (Lifecycle.after Scenario.stopwatch
                              Lifecycle.NewFunctionEachRender
                              [Lifecycle.Handler Scenario.t0
                                 [Lifecycle.CallPlay]]
                              (Lifecycle.mount Scenario.stopwatch
                                 Lifecycle.NewFunctionEachRender
                                 Scenario.t0))))
                 <> Lifecycle.rendered
                      (Lifecycle.after Scenario.stopwatch
                         Lifecycle.NewFunctionEachRender
                         [Lifecycle.Handler Scenario.t0 [Lifecycle.CallPlay]]
                         (Lifecycle.mount Scenario.stopwatch
                            Lifecycle.NewFunctionEachRender Scenario.t0)))
    by (vm_compute; discriminate).
  exact (proj1 (proj2 (proj2
           (sampling_stops_at_the_first_new_sample Scenario.stopwatch
              (Lifecycle.after Scenario.stopwatch
                 Lifecycle.NewFunctionEachRender
                 [Lifecycle.Handler Scenario.t0 [Lifecycle.CallPlay]]
                 (Lifecycle.mount Scenario.stopwatch
                    Lifecycle.NewFunctionEachRender Scenario.t0))
              1%positive (Scenario.t0 + 16)
              (or_introl eq_refl) eq_refl eq_refl eq_refl Hnew)))).
Defined.

(** X24.  The calls of one handler read the [elapsedInMs] of the last
    render.  After [reset()] in the same handler, [getSnapshot()] and
    [pause()] return the snapshot from before the reset; [play()] on a
    finished timer returns at the guard of line 64 and starts nothing;
    [pause()] on an engine whose rendered value is positive records a
    pause time although the start reference is gone.  On the default
    stopwatch that has run for a second, [reset(); getSnapshot()] returns
    992; and after [reset(); pause()], [play()] two seconds later and two
    firings, the stored elapsed time goes from 0 to -1984. *)
Theorem calls_of_one_handler_read_the_last_render
        (p : Timer.Props) (f : Lifecycle.OnFinish) (h : Lifecycle.State)
        (now : Z) :
  snd (Lifecycle.step p f h
         (Lifecycle.Handler now
            [Lifecycle.CallReset; Lifecycle.CallGetSnapshot]))
  = [Lifecycle.getSnapshot p h]
  /\ snd (Lifecycle.step p f h
            (Lifecycle.Handler now [Lifecycle.CallReset; Lifecycle.CallPause]))
     = [Lifecycle.getSnapshot p h]
  /\ (Timer.mode p = Timer.TimerMode ->
      Lifecycle.rendered h = Timer.initialTimeInMs p ->
      Timer.intervalId
        (Lifecycle.cell
           (fst (Lifecycle.step p f h
                   (Lifecycle.Handler now
                      [Lifecycle.CallReset; Lifecycle.CallPlay]))))
      = None
      /\ Timer.startTime
           (Lifecycle.cell
              (fst (Lifecycle.step p f h
                      (Lifecycle.Handler now
                         [Lifecycle.CallReset; Lifecycle.CallPlay]))))
         = None)
  /\ (0 < Lifecycle.rendered h ->
      Timer.startTime
        (Lifecycle.cell
           (fst (Lifecycle.step p f h
                   (Lifecycle.Handler now
                      [Lifecycle.CallReset; Lifecycle.CallPause]))))
      = None
      /\ Timer.pausedTime
           (Lifecycle.cell
              (fst (Lifecycle.step p f h
                      (Lifecycle.Handler now
                         [Lifecycle.CallReset; Lifecycle.CallPause]))))
         = Some now)
  /\ Lifecycle.returned Scenario.stopwatch Lifecycle.SameFunction
       [ Lifecycle.Handler (Scenario.t0 + 1000)
           [Lifecycle.CallReset; Lifecycle.CallGetSnapshot] ]
       (Session.oneSecond Lifecycle.SameFunction)
     = [992]
  /\ Timer.elapsedInMs
       (Lifecycle.cell
          (Lifecycle.after Scenario.stopwatch Lifecycle.SameFunction
             Session.resetAndPause
             (Session.oneSecond Lifecycle.SameFunction)))
     = 0
  /\ Timer.elapsedInMs
       (Lifecycle.cell
          (Lifecycle.after Scenario.stopwatch Lifecycle.SameFunction
             (Session.resetAndPause ++ [Lifecycle.Fire (Scenario.t0 + 3032)])
             (Session.oneSecond Lifecycle.SameFunction)))
     = -1984.
Proof.
  destruct (LifecycleFacts.removeInterval_rendered h)
    as [Hr [Hel [Hid [Hst Hpa]]]].
  split; [| split; [| split; [| split]]].
  - cbn [Lifecycle.step fold_left Lifecycle.perform fst snd app].
    unfold Lifecycle.getSnapshot.
    cbn [Lifecycle.reset Lifecycle.rendered]. rewrite Hr. reflexivity.
  - cbn [Lifecycle.step fold_left Lifecycle.perform fst snd app].
    unfold Lifecycle.pause. cbn [snd].
    unfold Lifecycle.getSnapshot.
    destruct (_ && _); cbn [Lifecycle.rendered];
      rewrite (proj1 (LifecycleFacts.removeInterval_rendered _));
      cbn [Lifecycle.reset Lifecycle.rendered]; rewrite Hr; reflexivity.
  - intros Hmode Hdone.
    cbn [Lifecycle.step fold_left Lifecycle.perform fst snd].
    assert (Hplay : Lifecycle.play p now (Lifecycle.reset h)
                    = Lifecycle.reset h).
    { unfold Lifecycle.play.
      cbn [Lifecycle.reset Lifecycle.cell Lifecycle.rendered
           Timer.resetState Timer.intervalId].
      rewrite Hid, Hr, Hdone, Z.eqb_refl, Hmode. reflexivity. }
    rewrite Hplay.
    destruct (LifecycleFacts.commit_refs p f now (Lifecycle.reset h))
      as [Hst' [_ Hid']].
    split; [apply Hid'; cbn; exact Hid | rewrite Hst'; reflexivity].
  - intros Hpos.
    cbn [Lifecycle.step fold_left Lifecycle.perform fst snd].
    destruct (LifecycleFacts.commit_refs p f now
                (fst (Lifecycle.pause p now (Lifecycle.reset h))))
      as [Hst' [Hpa' _]].
    rewrite Hst', Hpa'.
    unfold Lifecycle.pause. cbn [fst].
    destruct (LifecycleFacts.removeInterval_rendered (Lifecycle.reset h))
      as [Hr2 [_ [_ [Hst2 Hpa2]]]].
    rewrite Hpa2, Hr2.
    cbn [Lifecycle.reset Lifecycle.cell Lifecycle.rendered Timer.resetState
         Timer.pausedTime JS.falsy andb].
    rewrite Hr.
    replace (Lifecycle.rendered h >? 0) with true
      by (symmetry; apply Z.gtb_lt; exact Hpos).
    cbn [Lifecycle.cell Timer.startTime Timer.pausedTime].
    rewrite Hst2. split; reflexivity.
  - split; [vm_compute; reflexivity |].
    split; vm_compute; reflexivity.
Qed.

(** ** The shared interval *)

Module OptimizedTimerFacts.

Import OptimizedTimer.

(** Membership and uniqueness in a [Set]. *)
Lemma setAdd_In (c x : Callback) (members : list Callback) :
  In x (setAdd c members) <-> x = c \/ In x members.
Proof.
  unfold setAdd. destruct (existsb (Nat.eqb c) members) eqn:Hex.
  - apply existsb_exists in Hex as [y [Hy Heq]].
    apply Nat.eqb_eq in Heq. subst y.
    split; [auto | intros [-> | Hin]; assumption].
  - rewrite in_app_iff. cbn. intuition.
Qed.

Lemma setAdd_NoDup (c : Callback) (members : list Callback) :
  NoDup members -> NoDup (setAdd c members).
Proof.
  intros Hnd. unfold setAdd.
  destruct (existsb (Nat.eqb c) members) eqn:Hex; [exact Hnd |].
  apply NoDup_app; [exact Hnd | repeat constructor; intros [] | ].
  intros x Hx [Heq | []]. subst x.
  assert (existsb (Nat.eqb c) members = true); [| congruence].
  apply existsb_exists. exists c. split; [exact Hx | apply Nat.eqb_refl].
Qed.

Lemma setDelete_In (c x : Callback) (members : list Callback) :
  In x (setDelete c members) <-> x <> c /\ In x members.
Proof.
  unfold setDelete. rewrite filter_In, negb_true_iff, Nat.eqb_neq.
  intuition congruence.
Qed.

Lemma setDelete_absent (c : Callback) (members : list Callback) :
  ~ In c members -> setDelete c members = members.
Proof.
  intros Hout. unfold setDelete.
  induction members as [| m members IH]; [reflexivity |].
  cbn [filter].
  destruct (Nat.eqb c m) eqn:Heq.
  - apply Nat.eqb_eq in Heq. subst m. exfalso. apply Hout. left. reflexivity.
  - cbn [negb]. rewrite IH; [reflexivity |].
    intros Hin. apply Hout. right. exact Hin.
Qed.

(** Adding a new member and deleting it restores the set, order
    included. *)
Lemma setDelete_setAdd (c : Callback) (members : list Callback) :
  ~ In c members -> setDelete c (setAdd c members) = members.
Proof.
  intros Hout. unfold setAdd.
  replace (existsb (Nat.eqb c) members) with false.
  - unfold setDelete. rewrite filter_app. cbn [filter].
    rewrite Nat.eqb_refl. cbn [negb]. rewrite app_nil_r.
    apply setDelete_absent. exact Hout.
  - symmetry. apply not_true_is_false. intros Hex.
    apply existsb_exists in Hex as [y [Hy Heq]].
    apply Nat.eqb_eq in Heq. subst y. contradiction.
Qed.

(** A new instance is consistent, and every operation keeps it so. *)
Lemma consistent_fresh : consistent fresh.
Proof.
  unfold consistent, fresh. cbn [isRunning callbacks intervalId].
  split; [reflexivity |]. split; [discriminate |].
  split; [reflexivity | constructor].
Qed.

Lemma consistent_apply (op : Op) (st : State) :
  consistent st -> consistent (apply st op).
Proof.
  intros [Hrun [Hon [Hoff Hnd]]].
  destruct op as [c | c |]; cbn [apply].
  - unfold addCallback. cbn [isRunning].
    assert (Hlen : Nat.eqb (List.length (setAdd c (callbacks st))) 0 = false).
    { apply Nat.eqb_neq. intros Hz. apply length_zero_iff_nil in Hz.
      assert (Hin : In c (setAdd c (callbacks st)))
        by (apply setAdd_In; left; reflexivity).
      rewrite Hz in Hin. exact Hin. }
    destruct (isRunning st) eqn:Hr; cbn [negb].
    + unfold consistent. cbn [isRunning callbacks intervalId].
      rewrite ?Hlen, ?Hr.
      split; [reflexivity |]. split; [intros _; apply Hon; reflexivity |].
      split; [discriminate | apply setAdd_NoDup; exact Hnd].
    + unfold start. cbn [isRunning]. rewrite ?Hr.
      unfold consistent. cbn [isRunning callbacks intervalId].
      rewrite Hlen.
      split; [reflexivity |]. split; [intros _; eexists; reflexivity |].
      split; [discriminate | apply setAdd_NoDup; exact Hnd].
  - unfold removeCallback. cbn [callbacks].
    assert (Hnd' : NoDup (setDelete c (callbacks st)))
      by (unfold setDelete; apply NoDup_filter; exact Hnd).
    destruct (Nat.eqb (List.length (setDelete c (callbacks st))) 0) eqn:Hz.
    + unfold stop, consistent. cbn [isRunning callbacks intervalId].
      rewrite Hz.
      split; [reflexivity |]. split; [discriminate |].
      split; [reflexivity | exact Hnd'].
    + assert (Hr : isRunning st = true).
      { rewrite Hrun. apply negb_true_iff, Nat.eqb_neq. intros Hlen.
        apply length_zero_iff_nil in Hlen.
        rewrite Hlen in Hz. discriminate Hz. }
      unfold consistent. cbn [isRunning callbacks intervalId].
      rewrite Hz, Hr.
      split; [reflexivity |]. split; [intros _; apply Hon; exact Hr |].
      split; [discriminate | exact Hnd'].
  - unfold cleanup, stop, consistent. cbn [isRunning callbacks intervalId].
    split; [reflexivity |]. split; [discriminate |].
    split; [reflexivity | constructor].
Qed.

Lemma consistent_run (ops : list Op) (st : State) :
  consistent st -> consistent (run ops st).
Proof.
  revert st. induction ops as [| op ops IH]; intros st Hst; [exact Hst |].
  cbn [run fold_left]. apply IH, consistent_apply, Hst.
Qed.

Section Firing.

Variable W : Type.
Variable body : Callback -> W -> Outcome W.
Variable dev : bool.

(** Every turn of [forEach] calls its callback, thrown error or not. *)
Lemma fireOne_called (f : Firing W) (c : Callback) :
  called (fireOne body dev f c) = called f ++ [c].
Proof. unfold fireOne. destruct (body c (world f)); reflexivity. Qed.

Lemma fold_fireOne_called (cs : list Callback) (f : Firing W) :
  called (fold_left (fireOne body dev) cs f) = called f ++ cs.
Proof.
  revert f. induction cs as [| c cs IH]; intros f.
  - cbn. rewrite app_nil_r. reflexivity.
  - cbn [fold_left]. rewrite IH, fireOne_called, <- app_assoc. reflexivity.
Qed.

(** Reports are made in development builds only. *)
Lemma fold_fireOne_reported (cs : list Callback) (f : Firing W) :
  incl (reported (fold_left (fireOne body dev) cs f)) (reported f ++ cs)
  /\ (dev = false ->
      reported (fold_left (fireOne body dev) cs f) = reported f).
Proof.
  revert f. induction cs as [| c cs IH]; intros f.
  - cbn. rewrite app_nil_r. split; [apply incl_refl | reflexivity].
  - cbn [fold_left]. destruct (IH (fireOne body dev f c)) as [Hincl Hoff].
    split.
    + intros x Hx. apply Hincl in Hx. apply in_app_iff in Hx as [Hx | Hx].
      * unfold fireOne in Hx.
        destruct (body c (world f)); cbn [reported] in Hx;
          [apply in_app_iff; left; exact Hx |].
        destruct dev; [| apply in_app_iff; left; exact Hx].
        apply in_app_iff in Hx as [Hx | [Hx | []]].
        -- apply in_app_iff. left. exact Hx.
        -- apply in_app_iff. right. left. exact Hx.
      * apply in_app_iff. right. right. exact Hx.
    + intros Hdev. rewrite (Hoff Hdev). unfold fireOne.
      destruct (body c (world f)); [reflexivity |].
      rewrite Hdev. reflexivity.
Qed.

(** When whether a callback throws does not depend on the state it is
    called in, the reports of a development build are the throwing
    callbacks, in order. *)
Lemma fold_fireOne_reported_exact
      (thr : Callback -> bool) (cs : list Callback) (f : Firing W) :
  (forall c w, throwsAt body c w = thr c) ->
  dev = true ->
  reported (fold_left (fireOne body dev) cs f)
  = reported f ++ filter thr cs.
Proof.
  intros Hthr Hdev. revert f.
  induction cs as [| c cs IH]; intros f.
  - cbn. rewrite app_nil_r. reflexivity.
  - cbn [fold_left filter]. rewrite IH.
    specialize (Hthr c (world f)). unfold throwsAt in Hthr.
    unfold fireOne. destruct (body c (world f)); cbn [reported];
      rewrite <- Hthr; [reflexivity |].
    rewrite Hdev, <- app_assoc. reflexivity.
Qed.

End Firing.

End OptimizedTimerFacts.

(** X17.  After any sequence of registrations, cleanups and
    [cleanup()] on a new [OptimizedTimer], the timer runs exactly when a
    callback is registered, it holds an interval (of 16 ms) exactly when it
    runs, and no callback is registered twice. *)
Theorem shared_interval_runs_iff_callbacks
        (ops : list OptimizedTimer.Op) :
  let st := OptimizedTimer.run ops OptimizedTimer.fresh in
  OptimizedTimer.isRunning st
  = negb (Nat.eqb (List.length (OptimizedTimer.callbacks st)) 0)
  /\ (OptimizedTimer.isRunning st = true ->
      exists h,
        OptimizedTimer.intervalId st
        = Some {| OptimizedTimer.handle := h; OptimizedTimer.delay := 16 |})
  /\ (OptimizedTimer.isRunning st = false ->
      OptimizedTimer.intervalId st = None)
  /\ NoDup (OptimizedTimer.callbacks st).
Proof.
  exact (OptimizedTimerFacts.consistent_run ops OptimizedTimer.fresh
           OptimizedTimerFacts.consistent_fresh).
Qed.

(** X18.  Registering a callback registers it: it is among the
    registered callbacks afterwards, next to those that were, and the
    timer runs.  Registering the same callback twice registers it once.
    Registering a callback that was not registered and calling the
    returned cleanup leaves the registered callbacks as they were, and
    one call of a returned cleanup unregisters a callback however often
    it was registered. *)
Theorem callback_registration_is_by_identity
        (ops : list OptimizedTimer.Op) (c : OptimizedTimer.Callback) :
  let st := OptimizedTimer.run ops OptimizedTimer.fresh in
  In c (OptimizedTimer.callbacks (OptimizedTimer.addCallback c st))
  /\ (forall d : OptimizedTimer.Callback,
      In d (OptimizedTimer.callbacks (OptimizedTimer.addCallback c st))
      <-> d = c \/ In d (OptimizedTimer.callbacks st))
  /\ OptimizedTimer.isRunning (OptimizedTimer.addCallback c st) = true
  /\ count_occ Nat.eq_dec
       (OptimizedTimer.callbacks
          (OptimizedTimer.addCallback c (OptimizedTimer.addCallback c st))) c
     = 1%nat
  /\ (~ In c (OptimizedTimer.callbacks st) ->
      OptimizedTimer.callbacks
        (OptimizedTimer.removeCallback c (OptimizedTimer.addCallback c st))
      = OptimizedTimer.callbacks st)
  /\ OptimizedTimer.callbacks
       (OptimizedTimer.addCallback c (OptimizedTimer.addCallback c st))
     = OptimizedTimer.callbacks (OptimizedTimer.addCallback c st)
  /\ ~ In c (OptimizedTimer.callbacks
               (OptimizedTimer.removeCallback c
                  (OptimizedTimer.addCallback c
                     (OptimizedTimer.addCallback c st)))).
Proof.
  cbv zeta. set (st := OptimizedTimer.run ops OptimizedTimer.fresh).
  assert (Hadd : forall s,
             OptimizedTimer.callbacks (OptimizedTimer.addCallback c s)
             = OptimizedTimer.setAdd c (OptimizedTimer.callbacks s)).
  { intros s. unfold OptimizedTimer.addCallback.
    cbn [OptimizedTimer.isRunning].
    destruct (negb (OptimizedTimer.isRunning s)); [| reflexivity].
    unfold OptimizedTimer.start. cbn [OptimizedTimer.isRunning].
    destruct (OptimizedTimer.isRunning s); reflexivity. }
  assert (Hrem : forall s,
             OptimizedTimer.callbacks (OptimizedTimer.removeCallback c s)
             = OptimizedTimer.setDelete c (OptimizedTimer.callbacks s)).
  { intros s. unfold OptimizedTimer.removeCallback.
    cbn [OptimizedTimer.callbacks].
    destruct (Nat.eqb _ 0); reflexivity. }
  assert (Hin : In c (OptimizedTimer.setAdd c (OptimizedTimer.callbacks st)))
    by (apply OptimizedTimerFacts.setAdd_In; left; reflexivity).
  assert (Htwice : OptimizedTimer.setAdd c
                     (OptimizedTimer.setAdd c (OptimizedTimer.callbacks st))
                   = OptimizedTimer.setAdd c (OptimizedTimer.callbacks st)).
  { unfold OptimizedTimer.setAdd at 1.
    replace (existsb (Nat.eqb c)
               (OptimizedTimer.setAdd c (OptimizedTimer.callbacks st)))
      with true; [reflexivity |].
    symmetry. apply existsb_exists. exists c.
    split; [exact Hin | apply Nat.eqb_refl]. }
  split; [| split; [| split; [| split; [| split; [| split]]]]].
  - rewrite Hadd. exact Hin.
  - intros d. rewrite Hadd. apply OptimizedTimerFacts.setAdd_In.
  - unfold OptimizedTimer.addCallback. cbn [OptimizedTimer.isRunning].
    destruct (OptimizedTimer.isRunning st) eqn:Hr; cbn [negb].
    + cbn [OptimizedTimer.isRunning]. rewrite ?Hr. reflexivity.
    + unfold OptimizedTimer.start. cbn [OptimizedTimer.isRunning].
      rewrite ?Hr. reflexivity.
  - rewrite !Hadd, Htwice.
    destruct (OptimizedTimerFacts.consistent_run ops OptimizedTimer.fresh
                OptimizedTimerFacts.consistent_fresh) as [_ [_ [_ Hnd]]].
    fold st in Hnd.
    pose proof (OptimizedTimerFacts.setAdd_NoDup c _ Hnd) as Hnd'.
    pose proof (proj1 (NoDup_count_occ Nat.eq_dec _) Hnd' c) as Hle.
    pose proof (proj1 (count_occ_In Nat.eq_dec _ c) Hin) as Hge.
    lia.
  - intros Hout. rewrite Hrem, Hadd.
    apply OptimizedTimerFacts.setDelete_setAdd. exact Hout.
  - rewrite !Hadd. exact Htwice.
  - rewrite Hrem. intros Hin'.
    apply OptimizedTimerFacts.setDelete_In in Hin' as [Hne _].
    apply Hne. reflexivity.
Qed.

(** X19.  One firing of the shared interval calls every
    registered callback once, in registration order, whether or not some
    throw; nothing is reported outside development builds, and in one the
    throwing callbacks are reported, in order. *)
Theorem throwing_callback_does_not_stop_the_others
        (W : Type)
        (body : OptimizedTimer.Callback -> W -> OptimizedTimer.Outcome W)
        (dev : bool) (st : OptimizedTimer.State) (w : W) :
  OptimizedTimer.called (OptimizedTimer.fire body dev st w)
  = OptimizedTimer.callbacks st
  /\ (dev = false ->
      OptimizedTimer.reported (OptimizedTimer.fire body dev st w) = [])
  /\ (forall thr : OptimizedTimer.Callback -> bool,
      (forall c w', OptimizedTimer.throwsAt body c w' = thr c) ->
      dev = true ->
      OptimizedTimer.reported (OptimizedTimer.fire body dev st w)
      = filter thr (OptimizedTimer.callbacks st)).
Proof.
  unfold OptimizedTimer.fire.
  split; [apply (OptimizedTimerFacts.fold_fireOne_called W body dev) |].
  destruct (OptimizedTimerFacts.fold_fireOne_reported W body dev
              (OptimizedTimer.callbacks st)
              {| OptimizedTimer.world := w;
                 OptimizedTimer.called := [];
                 OptimizedTimer.reported := [] |}) as [Hincl Hoff].
  split; [exact Hoff |].
  intros thr Hthr Hdev.
  exact (OptimizedTimerFacts.fold_fireOne_reported_exact W body dev thr
           (OptimizedTimer.callbacks st)
           {| OptimizedTimer.world := w;
              OptimizedTimer.called := [];
              OptimizedTimer.reported := [] |} Hthr Hdev).
Qed.

(** ** Presets and digit transitions *)

Module TransitionFacts.

Import Transition.

(** [eqb] decides equality of slots. *)
Lemma eqb_eq (a b : DigitType) : eqb a b = true <-> a = b.
Proof. destruct a, b; cbn; split; congruence. Qed.

(** Marking a slot marks that slot only. *)
Lemma mounted_markMounted (d d' : DigitType) (m : MountStates) :
  mounted d (markMounted d' m) = eqb d d' || mounted d m.
Proof. destruct d, d'; reflexivity. Qed.

Section Config.

Variable pr : Animation.Props.
Variable ty : string.

Lemma mounted_after_entering
      (d d' : DigitType) (y : float) (m : MountStates) :
  mounted d (snd (createEntering pr ty d' y m)) = eqb d d' || mounted d m.
Proof.
  unfold createEntering.
  destruct (mounted d' m) eqn:Hm; cbn [negb snd].
  - destruct (eqb d d') eqn:Heq; [| reflexivity].
    apply eqb_eq in Heq. subst d'. rewrite Hm. reflexivity.
  - apply mounted_markMounted.
Qed.

(** A slot is marked once a digit has entered it, and stays marked. *)
Lemma mounted_enterAll
      (d : DigitType) (entered : list (DigitType * float)) (m : MountStates) :
  mounted d (enterAll pr ty entered m)
  = mounted d m || existsb (fun e => eqb d (fst e)) entered.
Proof.
  revert m. induction entered as [| [d' y] entered IH]; intros m.
  - cbn. rewrite orb_false_r. reflexivity.
  - unfold enterAll in *. cbn [fold_left existsb fst snd].
    rewrite IH, mounted_after_entering.
    destruct (eqb d d'), (mounted d m); reflexivity.
Qed.

End Config.

End TransitionFacts.

(** X20.  The selected preset is always an entry of
    [ANIMATION_PRESETS] (the lookup never yields [undefined]), it is the
    requested one when that name is valid, and digits are animated with a
    spring of that entry exactly when [useSpringAnimation] is set, with
    the timing of the base configuration otherwise. *)
Theorem preset_lookup_never_fails (pr : Animation.Props) :
  (exists sp,
      Animation.preset pr = Some sp
      /\ In (Animation.selectedPreset pr, sp) Animation.ANIMATION_PRESETS)
  /\ (In (Animation.animationPreset pr) Animation.validPresets ->
      Animation.selectedPreset pr = Animation.animationPreset pr)
  /\ (Animation.useSpringAnimation pr = true ->
      exists sp,
        Animation.preset pr = Some sp
        /\ Animation.digitCurve pr
           = Animation.WithSpring (Animation.damping sp)
               (Animation.stiffness sp) (Animation.mass sp))
  /\ (Animation.useSpringAnimation pr = false ->
      Animation.digitCurve pr
      = Animation.WithTiming (Animation.duration (Animation.baseConfig pr))).
Proof.
  assert (Hsel : Animation.selectedPreset pr = "smooth"%string
                 \/ Animation.selectedPreset pr = "bouncy"%string
                 \/ Animation.selectedPreset pr = "quick"%string).
  { unfold Animation.selectedPreset.
    destruct (Animation.includes Animation.validPresets
                (Animation.animationPreset pr)) eqn:Hin.
    - apply AnimationFacts.includes_validPresets. exact Hin.
    - left. reflexivity. }
  assert (Hpreset : exists sp,
             Animation.preset pr = Some sp
             /\ In (Animation.selectedPreset pr, sp)
                  Animation.ANIMATION_PRESETS).
  { unfold Animation.preset.
    destruct Hsel as [-> | [-> | ->]]; eexists;
      (split; [reflexivity | cbn; auto]). }
  split; [exact Hpreset |]. split; [| split].
  - intros Hin. unfold Animation.selectedPreset.
    replace (Animation.includes Animation.validPresets
               (Animation.animationPreset pr)) with true; [reflexivity |].
    symmetry. apply AnimationFacts.includes_validPresets.
    cbn in Hin. intuition.
  - intros Hspring. destruct Hpreset as [sp [Hsp _]].
    exists sp. split; [exact Hsp |].
    unfold Animation.digitCurve, Animation.animationConfig.
    rewrite Hspring. cbn [Animation.spring]. rewrite Hsp. reflexivity.
  - intros Hspring.
    unfold Animation.digitCurve, Animation.animationConfig.
    rewrite Hspring. reflexivity.
Qed.

(** X21.  A digit slot enters without animation the first time,
    and the slot is then marked; every later entry in that slot starts
    [animationDistance] away from the target, on the side given by
    [enterAnimationType], and is animated to the target with the configured
    delay and curve.  Entries in other slots do not matter. *)
Theorem digit_enters_unanimated_exactly_once
        (pr : Animation.Props) (ty : string)
        (entered : list (Transition.DigitType * float))
        (d : Transition.DigitType) (y : float) :
  let m := Transition.enterAll pr ty entered Transition.unmounted in
  (~ In d (map fst entered) ->
   Transition.createEntering pr ty d y m
   = ({| Transition.initialOriginY := None; Transition.originY := None |},
      Transition.markMounted d m))
  /\ (In d (map fst entered) ->
      Transition.createEntering pr ty d y m
      = ({| Transition.initialOriginY :=
              Some (PrimFloat.add y
                      (PrimFloat.mul (Animation.animationDistance pr)
                         (Transition.enterDirection ty)));
            Transition.originY :=
              Some {| Transition.delayedBy := Animation.digitDelay pr;
                      Transition.curve := Animation.digitCurve pr;
                      Transition.toValue := y |} |},
         m)).
Proof.
  cbv zeta.
  set (m := Transition.enterAll pr ty entered Transition.unmounted).
  assert (Hm : Transition.mounted d m
               = existsb (fun e => Transition.eqb d (fst e)) entered).
  { unfold m. rewrite TransitionFacts.mounted_enterAll.
    destruct d; reflexivity. }
  split; intros Hin.
  - unfold Transition.createEntering.
    replace (Transition.mounted d m) with false; [reflexivity |].
    symmetry. rewrite Hm. apply not_true_is_false. intros Hex.
    apply existsb_exists in Hex as [e [He Heq]].
    apply TransitionFacts.eqb_eq in Heq. apply Hin.
    apply in_map_iff. exists e. split; [symmetry; exact Heq | exact He].
  - unfold Transition.createEntering.
    replace (Transition.mounted d m) with true.
    + cbn [negb]. unfold Animation.digitCurve, Animation.digitDelay.
      rewrite AnimationFacts.base_animationConfig.
      destruct (Animation.useSpringAnimation pr);
        [destruct (Animation.spring (Animation.animationConfig pr)) |];
        reflexivity.
    + symmetry. rewrite Hm. apply existsb_exists.
      apply in_map_iff in Hin as [e [Heq He]].
      exists e. split; [exact He | apply TransitionFacts.eqb_eq; auto].
Qed.

(** X22.  The exit runs opposite to the entry: the exit direction is
    the negated entry direction, the outgoing digit starts where it is and
    moves [animationDistance] that way, with the delay and the curve of the
    entry. *)
Theorem exit_mirrors_entry
        (pr : Animation.Props) (ty : string)
        (d : Transition.DigitType) (m : Transition.MountStates)
        (target current : float) :
  Transition.mounted d m = true ->
  Transition.exitDirection ty = PrimFloat.opp (Transition.enterDirection ty)
  /\ (exists a b,
         Transition.originY (fst (Transition.createEntering pr ty d target m))
         = Some a
         /\ Transition.originY (Transition.exiting pr ty current) = Some b
         /\ Transition.delayedBy a = Transition.delayedBy b
         /\ Transition.curve a = Transition.curve b
         /\ Transition.toValue a = target
         /\ Transition.toValue b
            = PrimFloat.add current
                (PrimFloat.mul (Animation.animationDistance pr)
                   (Transition.exitDirection ty)))
  /\ Transition.initialOriginY (Transition.exiting pr ty current)
     = Some current.
Proof.
  intros Hm. split; [| split; [| reflexivity]].
  - unfold Transition.exitDirection, Transition.enterDirection.
    destruct (String.eqb ty "slide-in-up"); reflexivity.
  - unfold Transition.createEntering, Transition.exiting. rewrite Hm.
    cbn [negb fst Transition.originY].
    rewrite AnimationFacts.base_animationConfig.
    destruct (Animation.useSpringAnimation pr);
      [destruct (Animation.spring (Animation.animationConfig pr)) |];
      eexists; eexists; repeat split; reflexivity.
Qed.

(** A digit of seconds that has entered before, sliding in upwards. *)
Lemma exit_mirrors_entry_witness :
  Transition.exitDirection "slide-in-up"
  = PrimFloat.opp (Transition.enterDirection "slide-in-up").
Proof.
  exact (proj1 (exit_mirrors_entry Sample.springProps "slide-in-up"
                  Transition.Seconds
                  (Transition.markMounted Transition.Seconds
                     Transition.unmounted)
                  0%float 0%float eq_refl)).
Defined.
